(** * Financial-exclusion analysis pipeline (data.ipynb)

    A shallow embedding of the notebook's pipeline: the cell functions
    [preprocess_data], [calculate_financial_engagement_score],
    [calculate_financial_literacy_score], [cluster_financial_exclusion]
    and [train_classification_models], together with the contracts of
    the pandas / scikit-learn calls they are made of.  The methods of the
    class [FinancialExclusionAnalysis] in the first cell hold the same
    statements; [preprocess_data] there also calls the two score
    calculators, which [analysis] below does in sequence.  The renaming of
    the survey's columns in the second cell is [descriptive_names].

    Conventions.
    - A float64 cell is an [option Q]: [None] is NaN.  The cells are read
      twice.  In the first reading arithmetic is exact; it carries the
      statements on the shape of the tables, on what is written where and
      on what raises.  In the second reading, the module [Float], a cell
      is a double and every operation is rounded to the nearest double
      ([round64], ties to even, no overflow); it carries the statements on
      the values of the normalizer, of the engagement score and on the
      number of components the reducer keeps, together with scikit-learn's
      guard for a range below ten machine epsilons.
    - A [DataFrame] carries the length of its index and an ordered list of
      named columns.  Rows are addressed by position: the notebook only
      handles frames with the default 0..n-1 index that [pd.read_csv] and
      [pd.DataFrame(array)] deliver.
    - Python code that mutates a frame in place and may raise is a
      computation in [Py]: an exception monad over the state of the frame,
      so that what was written before an exception stays written.
    - The numerical kernels that are not rational functions of their input
      (LAPACK's decompositions and the randomized one, the seeded Lloyd
      iterations of k-means, the shuffle of the split, the standard
      scaler, the learners with their explainers) are fields of a
      [backend] record; everything around them is defined, and the
      statements hold for every [backend].  [sample_backend] holds
      stand-ins that only serve to run the examples. *)

From Stdlib Require Import String Ascii Bool Arith PeanoNat ZArith QArith Qminmax List.
From Stdlib Require Import Qabs Qround Qpower.
From Stdlib Require Import Lia Lqa DecimalString Permutation Sorted.
From ExtLib Require Import Structures.Monad Structures.MonadState Structures.MonadExc.
From ExtLib Require Import Data.Monads.StateMonad Data.Monads.EitherMonad.
Import ListNotations MonadNotation.
Local Open Scope monad_scope.
Local Open Scope string_scope.
Local Open Scope Q_scope.

(* ------------------------------------------------------------------ *)
(** ** Exceptions and the [Py] monad *)

Inductive pyerr : Type :=
| ValueError (msg : string)
| KeyError (key : string)
| TypeError (msg : string).

Definition result (A : Type) : Type := (pyerr + A)%type.

(** The value of a computation that is known to return. *)
Definition value_or {A : Type} (d : A) (r : result A) : A :=
  match r with
  | inr a => a
  | inl _ => d
  end.

(** Code running against one mutable frame of type [S]. *)
Definition Py (S : Type) : Type -> Type := eitherT pyerr (state S).

Definition run {S A : Type} (c : Py S A) (s : S) : result A * S :=
  runState (unEitherT c) s.

(** Lift a pure, fallible computation. *)
Definition liftR {S A : Type} (r : result A) : Py S A :=
  match r with
  | inl e => raise e
  | inr a => ret a
  end.

(* ------------------------------------------------------------------ *)
(** ** Cells and float arithmetic with NaN *)

Abbreviation cell := (option Q) (only parsing).

Definition lift2 (f : Q -> Q -> Q) (a b : cell) : cell :=
  match a, b with
  | Some x, Some y => Some (f x y)
  | _, _ => None
  end.

Definition fadd : cell -> cell -> cell := lift2 Qplus.
Definition fsub : cell -> cell -> cell := lift2 Qminus.
Definition fmul : cell -> cell -> cell := lift2 Qmult.

Definition fdiv (a b : cell) : cell :=
  match a, b with
  | Some x, Some y => if Qeq_bool y 0 then None else Some (x / y)
  | _, _ => None
  end.

Fixpoint dropna {A : Type} (l : list (option A)) : list A :=
  match l with
  | [] => []
  | Some x :: r => x :: dropna r
  | None :: r => dropna r
  end.

Definition isna {A : Type} (c : option A) : bool :=
  match c with None => true | Some _ => false end.

(** [np.nanmin] / [np.nanmax] of a column: NaN only when nothing is left. *)
Definition nanmin (col : list cell) : cell :=
  match dropna col with
  | [] => None
  | x :: r => Some (fold_left Qmin r x)
  end.

Definition nanmax (col : list cell) : cell :=
  match dropna col with
  | [] => None
  | x :: r => Some (fold_left Qmax r x)
  end.

Definition Qsum (l : list Q) : Q := fold_right Qplus 0 l.

Definition of_nat (n : nat) : Q := inject_Z (Z.of_nat n).

(** [ndarray.mean] of a row of cells: NaN as soon as one entry is NaN. *)
Definition fsum (l : list cell) : cell := fold_right fadd (Some 0) l.
Definition fmean (l : list cell) : cell := fdiv (fsum l) (Some (of_nat (length l))).

(* ------------------------------------------------------------------ *)
(** ** float64: rounding to the nearest double *)

(** The integer nearest to [q], the even one of two that are equally
    near. *)
Definition rne (q : Q) : Z :=
  let f := Qfloor q in
  match Qcompare (q - inject_Z f) (1 # 2) with
  | Lt => f
  | Gt => (f + 1)%Z
  | Eq => if Z.even f then f else (f + 1)%Z
  end.

(** The binary exponent of a positive rational: [2 ^ k <= q < 2 ^ (k + 1)]. *)
Definition ilog2 (q : Q) : Z :=
  let k := (Z.log2 (Qnum q) - Z.log2 (Zpos (Qden q)))%Z in
  if Qle_bool (2 ^ k) q then k else (k - 1)%Z.

(** The unit in the last place of the doubles around [q]: 53 significant
    bits, and 2^-1074 for the subnormal numbers. *)
Definition exponent (q : Q) : Z := Z.max (ilog2 q - 52) (-1074).

Definition round_pos (q : Q) : Q :=
  inject_Z (rne (q / 2 ^ exponent q)) * 2 ^ exponent q.

(** The double nearest to a rational (round to nearest, ties to even), in
    lowest terms. *)
Definition round64 (q : Q) : Q :=
  match Qcompare q 0 with
  | Eq => 0
  | Gt => Qred (round_pos q)
  | Lt => Qred (- round_pos (- q))
  end.

(** What the proofs use of a rounding. *)
Record rounding (fl : Q -> Q) : Prop := mkRounding {
  fl_proper : forall x y, x == y -> fl x == fl y;
  fl_monotone : forall x y, x <= y -> fl x <= fl y;
  fl_zero : fl 0 == 0;
  fl_opp : forall x, fl (- x) == - fl x;
  fl_idem : forall x, fl (fl x) == fl x
}.

(* ------------------------------------------------------------------ *)
(** ** Strings: [str.lower] and the [in] test on column names *)

Definition lower_ascii (c : ascii) : ascii :=
  let n := nat_of_ascii c in
  if ((65 <=? n) && (n <=? 90))%nat then ascii_of_nat (n + 32) else c.

Fixpoint lower (s : string) : string :=
  match s with
  | EmptyString => EmptyString
  | String c r => String (lower_ascii c) (lower r)
  end.

(** [needle in s] *)
Fixpoint contains (needle s : string) : bool :=
  prefix needle s ||
  match s with
  | EmptyString => false
  | String _ r => contains needle r
  end.

Definition string_of_nat (n : nat) : string :=
  NilEmpty.string_of_uint (Nat.to_uint n).

(* ------------------------------------------------------------------ *)
(** ** Data frames *)

(** A column with its dtype: int64/float64, object, bool. *)
Inductive column : Type :=
| NumCol (v : list cell)
| CatCol (v : list (option string))
| BoolCol (v : list bool).

Definition col_length (c : column) : nat :=
  match c with
  | NumCol v => length v
  | CatCol v => length v
  | BoolCol v => length v
  end.

Record DataFrame : Type := mkFrame {
  index_len : nat;
  cols : list (string * column)
}.

Definition columns (df : DataFrame) : list string := map fst (cols df).

Fixpoint lookup (name : string) (l : list (string * column)) : option column :=
  match l with
  | [] => None
  | (k, c) :: r => if String.eqb k name then Some c else lookup name r
  end.

(** [df[name]] *)
Definition getitem (df : DataFrame) (name : string) : result column :=
  match lookup name (cols df) with
  | Some c => inr c
  | None => inl (KeyError name)
  end.

(** [df[names]] : the listed columns, in the order asked for. *)
Fixpoint getitems (df : DataFrame) (names : list string) : result (list column) :=
  match names with
  | [] => inr []
  | k :: r =>
      match getitem df k, getitems df r with
      | inl e, _ => inl e
      | _, inl e => inl e
      | inr c, inr cs => inr (c :: cs)
      end
  end.

Fixpoint replace_or_append (name : string) (c : column) (l : list (string * column))
  : list (string * column) :=
  match l with
  | [] => [(name, c)]
  | (k, c0) :: r =>
      if String.eqb k name then (k, c) :: r
      else (k, c0) :: replace_or_append name c r
  end.

(** [df[name] = values] : overwrite the column if the name exists, append it
    otherwise; pandas refuses a value of the wrong length. *)
Definition setitem (name : string) (c : column) (df : DataFrame) : result DataFrame :=
  if Nat.eqb (col_length c) (index_len df)
  then inr (mkFrame (index_len df) (replace_or_append name c (cols df)))
  else inl (ValueError "Length of values does not match length of index").

(** [df[names] = array] : one array column per name. *)
Fixpoint setitems (names : list string) (cs : list column) (df : DataFrame)
  : result DataFrame :=
  match names, cs with
  | [], [] => inr df
  | k :: names', c :: cs' =>
      match setitem k c df with
      | inl e => inl e
      | inr df' => setitems names' cs' df'
      end
  | _, _ => inl (ValueError "Columns must be same length as key")
  end.

(** [df.drop(name, axis=1)] *)
Definition drop (name : string) (df : DataFrame) : result DataFrame :=
  match lookup name (cols df) with
  | None => inl (KeyError name)
  | Some _ =>
      inr (mkFrame (index_len df)
             (filter (fun kc => negb (String.eqb (fst kc) name)) (cols df)))
  end.

Definition is_numeric (c : column) : bool :=
  match c with NumCol _ => true | _ => false end.

Definition is_object (c : column) : bool :=
  match c with CatCol _ => true | _ => false end.

(** [df.select_dtypes(include=...).columns] *)
Definition select_dtypes (p : column -> bool) (df : DataFrame) : list string :=
  map fst (filter (fun kc => p (snd kc)) (cols df)).

(** Every column is as long as the index: what pandas guarantees of a frame. *)
Definition wf_frame (df : DataFrame) : Prop :=
  Forall (fun kc => col_length (snd kc) = index_len df) (cols df).

Definition wf_frameb (df : DataFrame) : bool :=
  forallb (fun kc => Nat.eqb (col_length (snd kc)) (index_len df)) (cols df).

(* ------------------------------------------------------------------ *)
(** ** Arrays handed to scikit-learn *)

(** Feature-major array: one list per feature (column). *)
Abbreviation features := (list (list (option Q))) (only parsing).

Definition b2q (b : bool) : Q := if b then 1 else 0.

(** [float(s)]: the strings that Python reads as a number.  Surrounding
    white space is dropped; then come an optional sign and either a decimal
    literal (digits may be grouped by single underscores) or one of the
    words nan, inf, infinity in any case. *)
Inductive parsed : Type :=
| Finite (q : Q)
| NaN
| Infinity.

Definition is_space (c : ascii) : bool :=
  let n := nat_of_ascii c in
  ((n =? 32) || ((9 <=? n) && (n <=? 13)) || ((28 <=? n) && (n <=? 31)))%nat.

Definition is_digit (c : ascii) : bool :=
  let n := nat_of_ascii c in ((48 <=? n) && (n <=? 57))%nat.

Definition digit_val (c : ascii) : Z := Z.of_nat (nat_of_ascii c - 48).

(** [(["_"] digit)*] *)
Fixpoint digits_tail (l : list ascii) : list Z * list ascii :=
  match l with
  | c :: r =>
      if is_digit c
      then let (ds, rest) := digits_tail r in (digit_val c :: ds, rest)
      else if Ascii.eqb "_" c
      then match r with
           | d :: r' =>
               if is_digit d
               then let (ds, rest) := digits_tail r' in (digit_val d :: ds, rest)
               else ([], l)
           | [] => ([], l)
           end
      else ([], l)
  | [] => ([], [])
  end.

(** [digitpart ::= digit (["_"] digit)*] *)
Definition digitpart (l : list ascii) : option (list Z * list ascii) :=
  match l with
  | d :: r =>
      if is_digit d
      then let (ds, rest) := digits_tail r in Some (digit_val d :: ds, rest)
      else None
  | [] => None
  end.

Definition decimal (ds : list Z) : Z := fold_left (fun acc d => (10 * acc + d)%Z) ds 0%Z.

(** [number ::= [digitpart] "." digitpart | digitpart ["."]] *)
Definition number (l : list ascii) : option (Q * list ascii) :=
  match digitpart l with
  | Some (ip, rest) =>
      match rest with
      | c :: rest' =>
          if Ascii.eqb "." c
          then match digitpart rest' with
               | Some (fp, rest'') =>
                   Some (inject_Z (decimal (ip ++ fp)) / 10 ^ Z.of_nat (length fp), rest'')
               | None => Some (inject_Z (decimal ip), rest')
               end
          else Some (inject_Z (decimal ip), rest)
      | [] => Some (inject_Z (decimal ip), [])
      end
  | None =>
      match l with
      | c :: rest =>
          if Ascii.eqb "." c
          then match digitpart rest with
               | Some (fp, rest') =>
                   Some (inject_Z (decimal fp) / 10 ^ Z.of_nat (length fp), rest')
               | None => None
               end
          else None
      | [] => None
      end
  end.

Definition sign (l : list ascii) : bool * list ascii :=
  match l with
  | c :: r =>
      if Ascii.eqb "-" c then (true, r)
      else if Ascii.eqb "+" c then (false, r)
      else (false, l)
  | [] => (false, [])
  end.

(** [floatnumber ::= number [("e" | "E") [sign] digitpart]], up to the end
    of the string *)
Definition floatnumber (l : list ascii) : option Q :=
  match number l with
  | Some (q, []) => Some q
  | Some (q, c :: rest) =>
      if Ascii.eqb "e" c || Ascii.eqb "E" c
      then let (neg, rest') := sign rest in
           match digitpart rest' with
           | Some (ds, []) => Some (q * 10 ^ (if neg then - decimal ds else decimal ds)%Z)
           | _ => None
           end
      else None
  | None => None
  end.

Fixpoint strip_left (l : list ascii) : list ascii :=
  match l with
  | c :: r => if is_space c then strip_left r else l
  | [] => []
  end.

Definition strip (l : list ascii) : list ascii :=
  rev (strip_left (rev (strip_left l))).

Definition float_of_string (s : string) : option parsed :=
  let (neg, body) := sign (strip (list_ascii_of_string s)) in
  let word := string_of_list_ascii (map lower_ascii body) in
  if String.eqb word "nan" then Some NaN
  else if String.eqb word "inf" || String.eqb word "infinity" then Some Infinity
  else match floatnumber body with
       | Some q => Some (Finite (if neg then - q else q))
       | None => None
       end.

(** One entry of an object column on its way into a float64 array: a
    missing entry and the text nan become NaN; text that does not read as a
    number stops the conversion, and so does an infinity, which
    scikit-learn's validation refuses. *)
Definition float_of_object (x : option string) : result (option Q) :=
  match x with
  | None => inr None
  | Some s =>
      match float_of_string s with
      | Some (Finite q) => inr (Some q)
      | Some NaN => inr None
      | Some Infinity => inl (ValueError "Input contains infinity")
      | None => inl (ValueError "could not convert string to float")
      end
  end.

Fixpoint floats_of_objects (v : list (option string)) : result (list (option Q)) :=
  match v with
  | [] => inr []
  | x :: r =>
      match float_of_object x, floats_of_objects r with
      | inl e, _ => inl e
      | _, inl e => inl e
      | inr c, inr cs => inr (c :: cs)
      end
  end.

(** Conversion of one column to float64.  The entries of an object column
    are read one by one. *)
Definition to_float (c : column) : result (list cell) :=
  match c with
  | NumCol v => inr v
  | BoolCol v => inr (map (fun b => Some (b2q b)) v)
  | CatCol v => floats_of_objects v
  end.

(** The values of a column for a pandas reduction such as [idxmin], which
    refuses the object dtype. *)
Definition numeric_values (c : column) : result (list cell) :=
  match c with
  | NumCol v => inr v
  | BoolCol v => inr (map (fun b => Some (b2q b)) v)
  | CatCol _ => inl (TypeError "reduction operation 'argmin' not allowed for this dtype")
  end.

Fixpoint to_floats (cs : list column) : result features :=
  match cs with
  | [] => inr []
  | c :: r =>
      match to_float c, to_floats r with
      | inl e, _ => inl e
      | _, inl e => inl e
      | inr v, inr vs => inr (v :: vs)
      end
  end.

Definition has_nan (X : features) : bool :=
  existsb (fun col => existsb isna col) X.

(** [check_array]: numeric, no NaN unless the estimator allows it, at least
    one sample and one feature. *)
Definition check_array (allow_nan : bool) (n_samples : nat) (cs : list column)
  : result features :=
  match to_floats cs with
  | inl e => inl e
  | inr X =>
      if negb allow_nan && has_nan X then inl (ValueError "Input contains NaN")
      else if Nat.eqb n_samples 0 then inl (ValueError "Found array with 0 sample(s)")
      else if Nat.eqb (length X) 0 then inl (ValueError "Found array with 0 feature(s)")
      else inr X
  end.

(** Sample-major view: row [i] of a feature-major array. *)
Definition row_at {A : Type} (d : A) (X : list (list A)) (i : nat) : list A :=
  map (fun col => nth i col d) X.

Definition rows_of {A : Type} (d : A) (n : nat) (X : list (list A)) : list (list A) :=
  map (row_at d X) (seq 0 n).

(* ------------------------------------------------------------------ *)
(** ** sklearn.preprocessing.MinMaxScaler (feature_range = (0, 1)) *)

Module MinMaxScaler.

(** A zero range is replaced by 1, so a constant feature scales to 0. *)
Definition handle_zeros_in_scale (r : cell) : cell :=
  match r with
  | Some q => if Qeq_bool q 0 then Some 1 else Some q
  | None => None
  end.

Record params : Type := mkParams {
  data_min_ : cell;
  data_max_ : cell;
  scale_ : cell;
  min_ : cell
}.

Definition fit_feature (col : list cell) : params :=
  let lo := nanmin col in
  let hi := nanmax col in
  let data_range := fsub hi lo in
  let scale := fdiv (Some 1) (handle_zeros_in_scale data_range) in
  mkParams lo hi scale (fsub (Some 0) (fmul lo scale)).

(** [X *= scale_; X += min_] : NaN stays NaN. *)
Definition transform_feature (p : params) (col : list cell) : list cell :=
  map (fun x => fadd (fmul x (scale_ p)) (min_ p)) col.

Definition fit (X : features) : list params := map fit_feature X.

Fixpoint transform (ps : list params) (X : features) : features :=
  match ps, X with
  | p :: ps', col :: X' => transform_feature p col :: transform ps' X'
  | _, _ => []
  end.

Definition fit_transform (X : features) : features := transform (fit X) X.

End MinMaxScaler.

(* ------------------------------------------------------------------ *)
(** ** sklearn.impute.SimpleImputer *)

Module SimpleImputer.

Fixpoint insert_sorted (x : Q) (l : list Q) : list Q :=
  match l with
  | [] => [x]
  | y :: r => if Qle_bool x y then x :: l else y :: insert_sorted x r
  end.

Definition sort (l : list Q) : list Q := fold_right insert_sorted [] l.

(** Median of the observed values: the middle one, or the mean of the two
    middle ones; NaN when nothing was observed. *)
Definition median (l : list Q) : cell :=
  let s := sort l in
  let n := length s in
  if Nat.eqb n 0 then None
  else if Nat.even n
       then Some ((nth (n / 2 - 1) s 0 + nth (n / 2) s 0) / 2)
       else Some (nth (n / 2) s 0).

Definition count (x : string) (l : list string) : nat :=
  length (filter (String.eqb x) l).

(** The more frequent of two values, the smaller one on a tie. *)
Definition better (l : list string) (a b : string) : string :=
  if (count a l <? count b l)%nat then b
  else if (count b l =? count a l)%nat && String.ltb b a then b
  else a.

Definition most_frequent (l : list string) : option string :=
  match l with
  | [] => None
  | x :: r => Some (fold_left (better l) r x)
  end.

Definition fill {A : Type} (v : A) (col : list (option A)) : list (option A) :=
  map (fun c => match c with Some x => Some x | None => Some v end) col.

(** [statistics_]: one fill value per feature, from its observed entries. *)
Definition fit {A : Type} (stat : list A -> option A) (X : list (list (option A)))
  : list (option A) :=
  map (fun col => stat (dropna col)) X.

(** A feature without any observed value at fit is discarded. *)
Fixpoint transform {A : Type} (stats : list (option A)) (X : list (list (option A)))
  : list (list (option A)) :=
  match stats, X with
  | Some v :: ss, col :: X' => fill v col :: transform ss X'
  | None :: ss, _ :: X' => transform ss X'
  | _, _ => []
  end.

Definition fit_transform {A : Type} (stat : list A -> option A)
  (X : list (list (option A))) : list (list (option A)) :=
  transform (fit stat X) X.

End SimpleImputer.

(* ------------------------------------------------------------------ *)
(** ** pd.get_dummies, Series.nunique, sklearn LabelEncoder *)

Fixpoint insert_uniq (x : string) (l : list string) : list string :=
  match l with
  | [] => [x]
  | y :: r =>
      if String.eqb x y then l
      else if String.ltb x y then x :: l
      else y :: insert_uniq x r
  end.

(** The distinct values in ascending order ([np.unique]). *)
Definition unique_sorted (l : list string) : list string :=
  fold_right insert_uniq [] l.

(** [Series.nunique()]: distinct values, NaN not counted. *)
Definition nunique (col : list (option string)) : nat :=
  length (unique_sorted (dropna col)).

Definition indicator (level : string) (col : list (option string)) : list bool :=
  map (fun c => match c with Some s => String.eqb s level | None => false end) col.

(** One indicator column [name_level] per level of the column. *)
Definition dummies_of (name : string) (col : list (option string))
  : list (string * column) :=
  map (fun level => (name ++ "_" ++ level, BoolCol (indicator level col)))
      (unique_sorted (dropna col)).

(** [pd.get_dummies(df)] on a frame of object columns: every column is
    expanded. *)
Definition get_dummies (named : list (string * list (option string)))
  : list (string * column) :=
  flat_map (fun kc => dummies_of (fst kc) (snd kc)) named.

Module LabelEncoder.

Fixpoint index_of (x : string) (classes : list string) : nat :=
  match classes with
  | [] => 0
  | y :: r => if String.eqb x y then 0%nat else S (index_of x r)
  end.

(** The code of an entry: the position of its value among the sorted
    classes.  Missing entries are set apart before the values are sorted and
    form a class of their own after the last one. *)
Definition transform (classes_ : list string) (col : list (option string)) : list cell :=
  map (fun x => match x with
                | Some s => Some (of_nat (index_of s classes_))
                | None => Some (of_nat (length classes_))
                end) col.

Definition fit_transform (col : list (option string)) : result (list cell) :=
  inr (transform (unique_sorted (dropna col)) col).

End LabelEncoder.

(** The values of an object column. *)
Definition object_values (c : column) : result (list (option string)) :=
  match c with
  | CatCol v => inr v
  | _ => inl (ValueError "not an object column")
  end.

Fixpoint objects_of (cs : list column) : result (list (list (option string))) :=
  match cs with
  | [] => inr []
  | c :: r =>
      match object_values c, objects_of r with
      | inl e, _ => inl e
      | _, inl e => inl e
      | inr v, inr vs => inr (v :: vs)
      end
  end.

(* ------------------------------------------------------------------ *)
(** ** sklearn.decomposition.PCA(n_components=0.95) *)

(** What the SVD of the centred data delivers: the principal axes by
    decreasing variance and the share of the variance each one explains. *)
Record svd_result : Type := mkSvd {
  components_ : list (list Q);
  explained_variance_ratio_ : list Q
}.

Module PCA.

Fixpoint cumsum_from (acc : Q) (l : list Q) : list Q :=
  match l with
  | [] => []
  | x :: r => (acc + x) :: cumsum_from (acc + x) r
  end.

Definition cumsum (l : list Q) : list Q := cumsum_from 0 l.

(** [np.searchsorted(a, v, side='right')] on an ascending array: the number
    of leading entries that are at most [v]. *)
Fixpoint searchsorted_right (a : list Q) (v : Q) : nat :=
  match a with
  | [] => 0
  | x :: r => if Qle_bool x v then S (searchsorted_right r v) else 0
  end.

(** [n_components_] for a fractional target. *)
Definition n_components (ratios : list Q) (target : Q) : nat :=
  searchsorted_right (cumsum ratios) target + 1.

(** Sums over samples, kept in lowest terms. *)
Definition total (l : list Q) : Q := fold_right (fun x acc => Qred (x + acc)) 0 l.

Definition mean (col : list Q) : Q := total col / of_nat (length col).

Definition dot (a b : list Q) : Q :=
  total (map (fun p => fst p * snd p) (combine a b)).

Definition center (means row : list Q) : list Q :=
  map (fun p => fst p - snd p) (combine row means).

(** Scores of one sample on the retained axes. *)
Definition project (means : list Q) (axes : list (list Q)) (row : list Q) : list Q :=
  map (dot (center means row)) axes.

Record fitted : Type := mkFitted {
  n_components_ : nat;
  mean_ : list Q;
  axes_ : list (list Q)
}.

Definition centre (X : list (list Q)) : list (list Q) :=
  map (fun col => map (fun x => x - mean col) col) X.

(** [fit]: the feature means, and the leading axes of the decomposition of
    the centred data.  [X] is feature-major and free of NaN. *)
Definition fit (svd : list (list Q) -> svd_result) (target : Q) (X : list (list Q))
  : fitted :=
  let d := svd (centre X) in
  let k := n_components (explained_variance_ratio_ d) target in
  mkFitted k (map mean X) (firstn k (components_ d)).

(** [transform]: sample by sample, the scores on the retained axes. *)
Definition transform (m : fitted) (n_samples : nat) (X : list (list Q))
  : list (list Q) :=
  map (project (mean_ m) (axes_ m)) (rows_of 0 n_samples X).

Definition fit_transform (svd : list (list Q) -> svd_result) (target : Q)
  (n_samples : nat) (X : list (list Q)) : nat * list (list Q) :=
  let m := fit svd target X in
  (n_components_ m, transform m n_samples X).

End PCA.

(** [pd.DataFrame(array, columns=names)] for a sample-major array. *)
Definition frame_of_rows (rows : list (list Q)) (names : list string) : result DataFrame :=
  if forallb (fun r => Nat.eqb (length r) (length names)) rows
  then inr (mkFrame (length rows)
              (map (fun jn => (snd jn, NumCol (map (fun r => Some (nth (fst jn) r 0)) rows)))
                   (combine (seq 0 (length names)) names)))
  else inl (ValueError "Shape of passed values does not match the columns").

(* ------------------------------------------------------------------ *)
(** ** sklearn.cluster.KMeans(n_clusters=2, random_state=42) *)

Module KMeans.

Record model : Type := mkModel {
  cluster_centers_ : list (list Q);
  n_features_in_ : nat;
  labels_ : list nat
}.

Definition sqdist (a b : list Q) : Q :=
  Qsum (map (fun p => (fst p - snd p) * (fst p - snd p)) (combine a b)).

(** Index of the closest centre, the first one on a tie ([argmin]). *)
Fixpoint argmin_from (best : nat) (dbest : Q) (i : nat) (ds : list Q) : nat :=
  match ds with
  | [] => best
  | d :: r =>
      if Qle_bool dbest d then argmin_from best dbest (S i) r
      else argmin_from i d (S i) r
  end.

Definition nearest (centers : list (list Q)) (x : list Q) : nat :=
  match map (sqdist x) centers with
  | [] => 0%nat
  | d :: r => argmin_from 0 d 1 r
  end.

(** [fit]: the centres come from the seeded iterations [lloyd]; the model
    remembers how many features it saw, and [labels_] are the training
    samples' closest centres. *)
Definition fit (lloyd : list (list Q) -> list (list Q)) (n_feat : nat)
  (rows : list (list Q)) : result model :=
  if (length rows <? 2)%nat
  then inl (ValueError "n_samples should be >= n_clusters=2")
  else
    let centers := lloyd rows in
    inr (mkModel centers n_feat (map (nearest centers) rows)).

(** [predict]: refuses an array whose width is not the fitted one. *)
Definition predict (m : model) (rows : list (list cell)) : result (list nat) :=
  if existsb (fun r => existsb isna r) rows
  then inl (ValueError "Input contains NaN")
  else if forallb (fun r => Nat.eqb (length r) (n_features_in_ m)) rows
  then inr (map (fun r => nearest (cluster_centers_ m) (dropna r)) rows)
  else inl (ValueError "X has a different number of features than KMeans is expecting").

End KMeans.

(** [Series.idxmin()]: position of the first smallest non-NaN entry. *)
Fixpoint idxmin_from (best : nat) (vbest : Q) (i : nat) (l : list cell) : nat :=
  match l with
  | [] => best
  | None :: r => idxmin_from best vbest (S i) r
  | Some v :: r =>
      if Qle_bool vbest v then idxmin_from best vbest (S i) r
      else idxmin_from i v (S i) r
  end.

Fixpoint idxmin_skip (i : nat) (l : list cell) : result nat :=
  match l with
  | [] => inl (ValueError "attempt to get argmin of an empty sequence")
  | None :: r => idxmin_skip (S i) r
  | Some v :: r => inr (idxmin_from i v (S i) r)
  end.

Definition idxmin (l : list cell) : result nat := idxmin_skip 0 l.

(* ------------------------------------------------------------------ *)
(** ** The numerical kernels taken as given *)

(** The solvers of [PCA]. *)
Inductive svd_solver : Type :=
| covariance_eigh
| full
| randomized.

(** What a solver delivers for a float64 array: the scores of the samples
    on the principal axes, by decreasing variance (one row per sample), and
    the share of the variance each axis explains. *)
Record decomposition : Type := mkDecomposition {
  scores_ : list (list Q);
  ratio_ : list Q
}.

(** [results[name]['shap_summary']] *)
Record summary : Type := mkSummary {
  mean_abs_shap_value : Q;
  top_features : list string
}.

(** [results[name]]: the four figures, and the SHAP summary for the models
    that get one. *)
Record metrics : Type := mkMetrics {
  accuracy : Q;
  precision : Q;
  recall : Q;
  f1_score : Q;
  shap_summary : option summary
}.

Inductive classifier : Type :=
| LogisticRegression
| RandomForestClassifier
| GradientBoostingClassifier
| SVC.

Record estimator : Type := mkEstimator {
  est_name : string;
  est_class : classifier;
  est_params : string;
  random_state : option Z
}.

(** What the bench asks of a fitted model: its predictions for the test
    samples and, through the explainer, the SHAP values of the test samples
    (one row per sample, one entry per feature), unless the explainer
    raises. *)
Record fitted : Type := mkFittedModel {
  predictions : list bool;
  shap_values : result (list (list Q))
}.

Record backend : Type := mkBackend {
  (** SVD of a centred feature-major array *)
  svd : list (list Q) -> svd_result;
  (** centres found by k-means with 2 clusters and seed 42 *)
  lloyd : list (list Q) -> list (list Q);
  (** the shuffled indices [0..n-1] that a generator state yields *)
  permutation : Z -> nat -> list nat;
  (** [StandardScaler] fitted on the first array, applied to both *)
  standardize : list (list cell) -> list (list cell) -> list (list cell) * list (list cell);
  (** an estimator fitted with a generator state on the training data (it
      may refuse them), then asked for the test samples, and the state it
      left *)
  learn : estimator -> Z -> list (list cell) -> list bool -> list (list cell)
          -> result fitted * Z;
  (** the decomposition that LAPACK computes in float64 for a feature-major
      array, with one of the two exact solvers *)
  lapack : svd_solver -> list (list Q) -> decomposition;
  (** the decomposition by random projections, started from a generator
      state, and the state it leaves *)
  randomized_svd : Z -> list (list Q) -> decomposition * Z
}.

(* ------------------------------------------------------------------ *)
(** ** Cell 4: [preprocess_data(data)] *)

(** [check_array] for an array of objects (the categorical imputer). *)
Definition check_objects (n_samples : nat) (cs : list column)
  : result (list (list (option string))) :=
  match objects_of cs with
  | inl e => inl e
  | inr X =>
      if Nat.eqb n_samples 0 then inl (ValueError "Found array with 0 sample(s)")
      else if Nat.eqb (length X) 0 then inl (ValueError "Found array with 0 feature(s)")
      else inr X
  end.

(** [LabelEncoder] on numbers: the rank among the distinct values, NaN
    after the last of them. *)
Definition distinct (l : list Q) : list Q :=
  fold_right (fun y acc => if existsb (Qeq_bool y) acc then acc else y :: acc) [] l.

Definition rank_of (x : Q) (l : list Q) : nat :=
  length (distinct (filter (fun y => negb (Qle_bool x y)) l)).

Definition label_encode (c : column) : result (list cell) :=
  match c with
  | CatCol v => LabelEncoder.fit_transform v
  | NumCol v =>
      inr (map (fun x => match x with
                         | Some q => Some (of_nat (rank_of q (dropna v)))
                         | None => Some (of_nat (length (distinct (dropna v))))
                         end) v)
  | BoolCol v =>
      inr (map (fun b => Some (of_nat (rank_of (b2q b) (map b2q v)))) v)
  end.

(** [for col in high_cardinality_columns:
       data[col + '_encoded'] = label_encoder.fit_transform(data[col])] *)
Fixpoint encode_high_cardinality (names : list string) : Py DataFrame unit :=
  match names with
  | [] => ret tt
  | col :: rest =>
      data <- get ;;
      c <- liftR (getitem data col) ;;
      codes <- liftR (label_encode c) ;;
      data' <- liftR (setitem (col ++ "_encoded") (NumCol codes) data) ;;
      put data' ;;
      encode_high_cardinality rest
  end.

Definition cardinality_threshold : nat := 10.

Definition variance_target : Q := 95 # 100.

Definition pc_names (k : nat) : list string :=
  map (fun i => "PC" ++ string_of_nat (i + 1)) (seq 0 k).

(** The two imputations, on the columns selected by dtype beforehand:
    [data[numeric_columns] = numeric_imputer.fit_transform(data[numeric_columns])]
    and the same with the categorical imputer. *)
Definition impute_missing (numeric_columns categorical_columns : list string)
  : Py DataFrame unit :=
  data <- get ;;
  num <- liftR (getitems data numeric_columns) ;;
  Xn <- liftR (check_array true (index_len data) num) ;;
  data1 <- liftR (setitems numeric_columns
                    (map NumCol (SimpleImputer.fit_transform SimpleImputer.median Xn))
                    data) ;;
  put data1 ;;
  cat <- liftR (getitems data1 categorical_columns) ;;
  Xc <- liftR (check_objects (index_len data1) cat) ;;
  data2 <- liftR (setitems categorical_columns
                    (map CatCol (SimpleImputer.fit_transform SimpleImputer.most_frequent Xc))
                    data1) ;;
  put data2.

(** The combined feature table handed to the reducer:
    [pd.concat([numeric_scaled, categorical_encoded, data[..._encoded]], axis=1)].
    Runs against [data], which it mutates (imputed values, [_encoded]
    columns). *)
Definition combined_features : Py DataFrame (list (string * column)) :=
  data <- get ;;
  let numeric_columns := select_dtypes is_numeric data in
  let categorical_columns := select_dtypes is_object data in
  impute_missing numeric_columns categorical_columns ;;
  (* categorical_encoded = pd.get_dummies(data[categorical_columns]) *)
  data2 <- get ;;
  cat2 <- liftR (getitems data2 categorical_columns) ;;
  objs <- liftR (objects_of cat2) ;;
  let categorical_encoded := get_dummies (combine categorical_columns objs) in
  (* high_cardinality_columns = [col ... if data[col].nunique() > 10] *)
  let high_cardinality_columns :=
    map fst (filter (fun kc => (cardinality_threshold <? nunique (snd kc))%nat)
                    (combine categorical_columns objs)) in
  encode_high_cardinality high_cardinality_columns ;;
  (* numeric_scaled = pd.DataFrame(scaler.fit_transform(data[numeric_columns]), ...) *)
  data3 <- get ;;
  num3 <- liftR (getitems data3 numeric_columns) ;;
  Xs <- liftR (check_array true (index_len data3) num3) ;;
  let numeric_scaled :=
    combine numeric_columns (map NumCol (MinMaxScaler.fit_transform Xs)) in
  let encoded_names := map (fun col => col ++ "_encoded") high_cardinality_columns in
  enc <- liftR (getitems data3 encoded_names) ;;
  ret (numeric_scaled ++ categorical_encoded ++ combine encoded_names enc)%list.

Definition preprocess_data (B : backend) : Py DataFrame DataFrame :=
  combined <- combined_features ;;
  data <- get ;;
  (* pca = PCA(n_components=0.95); pca.fit_transform(processed_data) *)
  X <- liftR (check_array false (index_len data) (map snd combined)) ;;
  let kr := PCA.fit_transform (svd B) variance_target (index_len data) (map dropna X) in
  liftR (frame_of_rows (snd kr) (pc_names (fst kr))).

(* ------------------------------------------------------------------ *)
(** ** Cell 5: [calculate_financial_engagement_score(data, processed_data)] *)

Definition name_matches (needle col : string) : bool := contains needle (lower col).

(** [array.mean(axis=1)] of a feature-major array with [n] samples. *)
Definition row_means (n : nat) (X : features) : list cell :=
  map (fun i => fmean (row_at None X i)) (seq 0 n).

Definition weighted (w1 w2 : Q) (a b : list cell) : list cell :=
  map (fun p => fadd (fmul (Some w1) (fst p)) (fmul (Some w2) (snd p))) (combine a b).

Definition transaction_weight : Q := 6 # 10.
Definition savings_weight : Q := 4 # 10.

Definition calculate_financial_engagement_score (data : DataFrame) : Py DataFrame unit :=
  let transaction_cols := filter (name_matches "transaction") (columns data) in
  let savings_cols := filter (name_matches "savings") (columns data) in
  ct <- liftR (getitems data transaction_cols) ;;
  Xt <- liftR (check_array true (index_len data) ct) ;;
  let normalized_transaction := MinMaxScaler.fit_transform Xt in
  cs <- liftR (getitems data savings_cols) ;;
  Xs <- liftR (check_array true (index_len data) cs) ;;
  let normalized_savings := MinMaxScaler.fit_transform Xs in
  let financial_engagement_score :=
    weighted transaction_weight savings_weight
      (row_means (index_len data) normalized_transaction)
      (row_means (index_len data) normalized_savings) in
  processed_data <- get ;;
  processed_data' <- liftR (setitem "financial_engagement_score"
                              (NumCol financial_engagement_score) processed_data) ;;
  put processed_data'.

(* ------------------------------------------------------------------ *)
(** ** Cell 6: [calculate_financial_literacy_score(data, processed_data)] *)

Definition education_mapping (s : string) : cell :=
  if String.eqb s "Primary" then Some 1
  else if String.eqb s "Secondary" then Some 2
  else if String.eqb s "Tertiary" then Some 3
  else if String.eqb s "University" then Some 4
  else None.

(** [Series.map(education_mapping)]: a value that is not a key becomes NaN. *)
Definition series_map (c : column) : list cell :=
  match c with
  | CatCol v => map (fun x => match x with
                              | Some s => education_mapping s
                              | None => None
                              end) v
  | NumCol v => map (fun _ => None) v
  | BoolCol v => map (fun _ => None) v
  end.

Definition education_weight : Q := 6 # 10.
Definition income_weight : Q := 4 # 10.

Definition calculate_financial_literacy_score (data : DataFrame) : Py DataFrame unit :=
  edu <- liftR (getitem data "education") ;;
  Xe <- liftR (check_array true (index_len data) [NumCol (series_map edu)]) ;;
  let normalized_education := MinMaxScaler.fit_transform Xe in
  quintile <- liftR (getitem data "quintile") ;;
  Xq <- liftR (check_array true (index_len data) [quintile]) ;;
  let normalized_income := MinMaxScaler.fit_transform Xq in
  let financial_literacy_score :=
    weighted education_weight income_weight
      (hd [] normalized_education) (hd [] normalized_income) in
  processed_data <- get ;;
  processed_data' <- liftR (setitem "financial_literacy_score"
                              (NumCol financial_literacy_score) processed_data) ;;
  put processed_data'.

(* ------------------------------------------------------------------ *)
(** ** Cell 7: [cluster_financial_exclusion(processed_data)] *)

Definition cluster_equals (c : nat) (cluster : list cell) : list bool :=
  map (fun x => match x with
                | Some q => Qeq_bool q (of_nat c)
                | None => false
                end) cluster.

Definition cluster_financial_exclusion (B : backend) : Py DataFrame unit :=
  processed_data <- get ;;
  (* processed_data['exclusion_cluster'] = kmeans.fit_predict(processed_data) *)
  X <- liftR (check_array false (index_len processed_data)
                (map snd (cols processed_data))) ;;
  kmeans <- liftR (KMeans.fit (lloyd B) (length X)
                     (rows_of 0 (index_len processed_data) (map dropna X))) ;;
  with_cluster <- liftR (setitem "exclusion_cluster"
                           (NumCol (map (fun l => Some (of_nat l)) (KMeans.labels_ kmeans)))
                           processed_data) ;;
  put with_cluster ;;
  (* processed_data['exclusion_cluster'] ==
       kmeans.predict(processed_data.loc[
           processed_data['financial_engagement_score'].idxmin()
       ].values.reshape(1, -1))[0] *)
  cluster <- liftR (getitem with_cluster "exclusion_cluster") ;;
  cluster_values <- liftR (to_float cluster) ;;
  engagement <- liftR (getitem with_cluster "financial_engagement_score") ;;
  engagement_values <- liftR (numeric_values engagement) ;;
  i <- liftR (idxmin engagement_values) ;;
  all_values <- liftR (to_floats (map snd (cols with_cluster))) ;;
  predicted <- liftR (KMeans.predict kmeans [row_at None all_values i]) ;;
  labelled <- liftR (setitem "financial_exclusion_label"
                       (BoolCol (cluster_equals (hd 0%nat predicted) cluster_values))
                       with_cluster) ;;
  put labelled.

(** Cells 4 to 7 in sequence, as [main()] runs them up to the bench: the
    loaded table is preprocessed, scored and clustered. *)
Definition analysis (B : backend) (raw : DataFrame) : result DataFrame :=
  match run (preprocess_data B) raw with
  | (inl e, _) => inl e
  | (inr processed_data, data) =>
      match run (calculate_financial_engagement_score data ;;
                 calculate_financial_literacy_score data ;;
                 cluster_financial_exclusion B) processed_data with
      | (inl e, _) => inl e
      | (inr _, labelled) => inr labelled
      end
  end.

(* ------------------------------------------------------------------ *)
(** ** Cell 8: [train_classification_models(processed_data)] *)

(** The generator an estimator works with: its own when [random_state] is
    an integer, NumPy's global one (whose state the run inherits and
    advances) when it is [None]. *)
Definition with_random_state {A : Type} (seed : option Z) (f : Z -> A * Z) : state Z A :=
  match seed with
  | Some s => ret (fst (f s))
  | None =>
      g <- get ;;
      put (snd (f g)) ;;
      ret (fst (f g))
  end.

Definition split_random_state : option Z := Some 42%Z.
Definition kmeans_random_state : option Z := Some 42%Z.

(** The estimators as the bench constructs them: none is given a
    [random_state]. *)
Definition logistic_regression : estimator :=
  mkEstimator "Logistic Regression" LogisticRegression "max_iter=1000" None.

Definition random_forest : estimator :=
  mkEstimator "Random Forest" RandomForestClassifier "n_estimators=100" None.

Definition gradient_boosting : estimator :=
  mkEstimator "Gradient Boosting" GradientBoostingClassifier "n_estimators=100" None.

Definition svm : estimator :=
  mkEstimator "SVM" SVC "probability=True" None.

Definition models : list estimator :=
  [logistic_regression; random_forest; gradient_boosting; svm].

Definition count_where (p : bool -> bool -> bool) (y_true y_pred : list bool) : nat :=
  length (filter (fun tp => p (fst tp) (snd tp)) (combine y_true y_pred)).

Definition ratio (a b : nat) : Q :=
  if Nat.eqb b 0 then 0 else of_nat a / of_nat b.

Definition accuracy_score (y_true y_pred : list bool) : Q :=
  ratio (count_where Bool.eqb y_true y_pred) (length y_true).

(** [precision_recall_fscore_support(..., average='binary')] *)
Definition score (y_true y_pred : list bool) : metrics :=
  let tp := count_where andb y_true y_pred in
  let fp := count_where (fun t p => negb t && p) y_true y_pred in
  let fn := count_where (fun t p => t && negb p) y_true y_pred in
  let p := ratio tp (tp + fp) in
  let r := ratio tp (tp + fn) in
  mkMetrics (accuracy_score y_true y_pred) p r
            (if Qeq_bool (p + r) 0 then 0 else 2 * p * r / (p + r))
            None.

Definition take_rows {A : Type} (d : A) (idx : list nat) (l : list A) : list A :=
  map (fun i => nth i l d) idx.

(** A training fold in which every sample has the same label. *)
Definition one_class (y : list bool) : bool :=
  forallb (Bool.eqb (hd false y)) y.

(** [model.fit(X_train_scaled, y_train)] and [model.predict(X_test_scaled)].
    The forest accepts a training fold with a single class; the other three
    estimators refuse it. *)
Definition fit_predict (B : backend) (m : estimator) (g : Z)
  (X_train : list (list cell)) (y_train : list bool) (X_test : list (list cell))
  : result fitted * Z :=
  match est_class m with
  | RandomForestClassifier => learn B m g X_train y_train X_test
  | _ =>
      if one_class y_train
      then (inl (ValueError "the data contains only one class"), g)
      else learn B m g X_train y_train X_test
  end.

(** [np.abs(shap_values).mean()] *)
Definition mean_abs (values : list (list Q)) : Q :=
  Qsum (map Qabs (concat values)) / of_nat (length (concat values)).

(** [np.abs(shap_values).mean(axis=0)]: one mean per feature *)
Definition mean_abs_by_feature (d : nat) (values : list (list Q)) : list Q :=
  map (fun j => Qsum (map (fun row => Qabs (nth j row 0)) values) / of_nat (length values))
      (seq 0 d).

(** [argsort()]: the positions by ascending value, equal values in the
    order of their positions. *)
Fixpoint insert_position (values : list Q) (i : nat) (sorted : list nat) : list nat :=
  match sorted with
  | [] => [i]
  | j :: r =>
      if Qle_bool (nth j values 0) (nth i values 0)
      then j :: insert_position values i r
      else i :: sorted
  end.

Definition argsort (values : list Q) : list nat :=
  fold_left (fun sorted i => insert_position values i sorted) (seq 0 (length values)) [].

(** [l[-5:][::-1]] *)
Definition last_five_reversed {A : Type} (l : list A) : list A :=
  rev (skipn (length l - 5) l).

(** The summary that is added for the forest and for the logistic
    regression:
    [{'mean_abs_shap_value': np.abs(shap_values).mean(),
      'top_features': list(X.columns[np.abs(shap_values).mean(axis=0)
                                       .argsort()[-5:][::-1]])}] *)
Definition explained (m : estimator) : bool :=
  String.eqb (est_name m) "Random Forest" || String.eqb (est_name m) "Logistic Regression".

Definition shap_summary_of (X_columns : list string) (values : list (list Q)) : summary :=
  mkSummary (mean_abs values)
            (map (fun j => nth j X_columns "")
                 (last_five_reversed
                    (argsort (mean_abs_by_feature (length X_columns) values)))).

Definition with_shap_summary (figures : metrics) (s : summary) : metrics :=
  mkMetrics (accuracy figures) (precision figures) (recall figures) (f1_score figures)
            (Some s).

(** One entry of [results]. *)
Definition report (m : estimator) (X_columns : list string) (model : fitted)
  (y_test : list bool) : result metrics :=
  let figures := score y_test (predictions model) in
  if explained m
  then match shap_values model with
       | inl e => inl e
       | inr values => inr (with_shap_summary figures (shap_summary_of X_columns values))
       end
  else inr figures.

(** [for name, model in models.items(): ...]: an exception ends the loop and
    the call; the generator keeps the state the models fitted so far have
    left. *)
Fixpoint fit_all (B : backend) (ms : list estimator) (X_columns : list string)
  (X_train : list (list cell)) (y_train : list bool)
  (X_test : list (list cell)) (y_test : list bool)
  : state Z (result (list (string * metrics))) :=
  match ms with
  | [] => ret (inr [])
  | m :: rest =>
      model <- with_random_state (random_state m)
                 (fun g => fit_predict B m g X_train y_train X_test) ;;
      match model with
      | inl e => ret (inl e)
      | inr model =>
          match report m X_columns model y_test with
          | inl e => ret (inl e)
          | inr entry =>
              others <- fit_all B rest X_columns X_train y_train X_test y_test ;;
              match others with
              | inl e => ret (inl e)
              | inr others => ret (inr ((est_name m, entry) :: others))
              end
          end
      end
  end.

Definition label_values (c : column) : result (list bool) :=
  match c with
  | BoolCol v => inr v
  | NumCol v => inr (map (fun x => match x with
                                   | Some q => negb (Qeq_bool q 0)
                                   | None => true
                                   end) v)
  | CatCol _ => inl (ValueError "Unknown label type")
  end.

(** [X] and [y] as the bench takes them from the labelled table. *)
Definition features_and_target (processed_data : DataFrame)
  : result (DataFrame * list bool) :=
  match drop "financial_exclusion_label" processed_data with
  | inl e => inl e
  | inr X =>
      match getitem processed_data "financial_exclusion_label" with
      | inl e => inl e
      | inr c =>
          match label_values c with
          | inl e => inl e
          | inr y => inr (X, y)
          end
      end
  end.

(** Number of test samples for [test_size=0.2]: the ceiling of [n / 5]. *)
Definition n_test (n : nat) : nat := (n + 4) / 5.

(** The bench with the estimators [ms].  The split refuses a table that
    leaves no training sample; the scaler then converts the features to
    float64. *)
Definition train_models (ms : list estimator) (B : backend) (processed_data : DataFrame)
  : state Z (result (list (string * metrics))) :=
  match features_and_target processed_data with
  | inl e => ret (inl e)
  | inr (X, y) =>
      let n := index_len X in
      if Nat.eqb (n - n_test n) 0
      then ret (inl (ValueError "the resulting train set will be empty"))
      else
        perm <- with_random_state split_random_state
                  (fun g => (permutation B g n, g)) ;;
        let test_idx := firstn (n_test n) perm in
        let train_idx := skipn (n_test n) perm in
        match to_floats (map snd (cols X)) with
        | inl e => ret (inl e)
        | inr Xf =>
            let rows := rows_of None n Xf in
            let scaled := standardize B (take_rows [] train_idx rows)
                                        (take_rows [] test_idx rows) in
            fit_all B ms (columns X) (fst scaled) (take_rows false train_idx y)
                    (snd scaled) (take_rows false test_idx y)
        end
  end.

Definition train_classification_models : backend -> DataFrame
  -> state Z (result (list (string * metrics))) :=
  train_models models.

(* ------------------------------------------------------------------ *)
(** ** The normalizer, the engagement score and the reducer in float64 *)

(** The same statements of cells 4 and 5 with the arithmetic of NumPy: a
    cell that enters a computation is the double nearest to it, and every
    operation gives the double nearest to its exact result.  Magnitudes are
    taken to stay below 2^1024: there is no infinity. *)
Module Float.

Definition of_cell (c : cell) : cell := option_map round64 c.

Definition rounded (op : Q -> Q -> Q) (x y : Q) : Q := round64 (op x y).

Definition fadd : cell -> cell -> cell := lift2 (rounded Qplus).
Definition fsub : cell -> cell -> cell := lift2 (rounded Qminus).
Definition fmul : cell -> cell -> cell := lift2 (rounded Qmult).

Definition fdiv (a b : cell) : cell :=
  match a, b with
  | Some x, Some y => if Qeq_bool y 0 then None else Some (round64 (x / y))
  | _, _ => None
  end.

(** [check_array]: the array holds doubles. *)
Definition check_array (allow_nan : bool) (n_samples : nat) (cs : list column)
  : result features :=
  match check_array allow_nan n_samples cs with
  | inl e => inl e
  | inr X => inr (map (map of_cell) X)
  end.

Module MinMaxScaler.

(** [np.finfo(np.float64).eps] *)
Definition eps : Q := 2 ^ (-52).

(** A range below ten machine epsilons counts as zero and is replaced by
    1. *)
Definition handle_zeros_in_scale (r : cell) : cell :=
  match r with
  | Some q => if Qle_bool (10 * eps) q then Some q else Some 1
  | None => None
  end.

Record params : Type := mkParams {
  data_min_ : cell;
  data_max_ : cell;
  scale_ : cell;
  min_ : cell
}.

(** [data_range = data_max - data_min;
     scale_ = (1 - 0) / _handle_zeros_in_scale(data_range);
     min_ = 0 - data_min * scale_] *)
Definition fit_feature (col : list cell) : params :=
  let lo := nanmin col in
  let hi := nanmax col in
  let data_range := fsub hi lo in
  let scale := fdiv (Some 1) (handle_zeros_in_scale data_range) in
  mkParams lo hi scale (fsub (Some 0) (fmul lo scale)).

(** [X *= scale_; X += min_] *)
Definition transform_feature (p : params) (col : list cell) : list cell :=
  map (fun x => fadd (fmul x (scale_ p)) (min_ p)) col.

Definition fit_transform (X : features) : features :=
  map (fun col => transform_feature (fit_feature col) col) X.

End MinMaxScaler.

(** The median of the observed values: the mean of the two middle ones is
    their rounded sum, halved. *)
Definition median (l : list Q) : cell :=
  let s := SimpleImputer.sort l in
  let n := length s in
  if Nat.eqb n 0 then None
  else if Nat.even n
       then Some (round64 (round64 (nth (n / 2 - 1) s 0 + nth (n / 2) s 0) / 2))
       else Some (nth (n / 2) s 0).

Definition impute_missing (numeric_columns categorical_columns : list string)
  : Py DataFrame unit :=
  data <- get ;;
  num <- liftR (getitems data numeric_columns) ;;
  Xn <- liftR (check_array true (index_len data) num) ;;
  data1 <- liftR (setitems numeric_columns
                    (map NumCol (SimpleImputer.fit_transform median Xn))
                    data) ;;
  put data1 ;;
  cat <- liftR (getitems data1 categorical_columns) ;;
  Xc <- liftR (check_objects (index_len data1) cat) ;;
  data2 <- liftR (setitems categorical_columns
                    (map CatCol (SimpleImputer.fit_transform SimpleImputer.most_frequent Xc))
                    data1) ;;
  put data2.

Definition combined_features : Py DataFrame (list (string * column)) :=
  data <- get ;;
  let numeric_columns := select_dtypes is_numeric data in
  let categorical_columns := select_dtypes is_object data in
  impute_missing numeric_columns categorical_columns ;;
  data2 <- get ;;
  cat2 <- liftR (getitems data2 categorical_columns) ;;
  objs <- liftR (objects_of cat2) ;;
  let categorical_encoded := get_dummies (combine categorical_columns objs) in
  let high_cardinality_columns :=
    map fst (filter (fun kc => (cardinality_threshold <? nunique (snd kc))%nat)
                    (combine categorical_columns objs)) in
  encode_high_cardinality high_cardinality_columns ;;
  data3 <- get ;;
  num3 <- liftR (getitems data3 numeric_columns) ;;
  Xs <- liftR (check_array true (index_len data3) num3) ;;
  let numeric_scaled :=
    combine numeric_columns (map NumCol (MinMaxScaler.fit_transform Xs)) in
  let encoded_names := map (fun col => col ++ "_encoded") high_cardinality_columns in
  enc <- liftR (getitems data3 encoded_names) ;;
  ret (numeric_scaled ++ categorical_encoded ++ combine encoded_names enc)%list.

Module PCA.

(** [svd_solver='auto'] for a dense array.  The randomized solver is only
    chosen for a whole number of components. *)
Definition auto_solver (n_samples n_features : nat) (n_components : Q) : svd_solver :=
  if ((n_features <=? 1000) && (10 * n_features <=? n_samples))%nat
  then covariance_eigh
  else if (Nat.max n_samples n_features <=? 500)%nat
  then full
  else if Qle_bool 1 n_components
          && negb (Qle_bool ((8 # 10) * of_nat (Nat.min n_samples n_features)) n_components)
  then randomized
  else full.

(** [np.cumsum] *)
Fixpoint cumsum_from (acc : Q) (l : list Q) : list Q :=
  match l with
  | [] => []
  | x :: r => round64 (acc + x) :: cumsum_from (round64 (acc + x)) r
  end.

Definition cumsum (l : list Q) : list Q := cumsum_from 0 l.

(** [n_components_]: the target is the double written 0.95. *)
Definition n_components (ratios : list Q) (target : Q) : nat :=
  PCA.searchsorted_right (cumsum ratios) (round64 target) + 1.

(** [fit_transform] with [random_state=None]: only the randomized solver
    consults the generator. *)
Definition fit_transform (B : backend) (target : Q) (n_samples : nat) (X : list (list Q))
  : state Z (nat * list (list Q)) :=
  d <- match auto_solver n_samples (length X) target with
       | randomized => with_random_state None (fun g => randomized_svd B g X)
       | solver => ret (lapack B solver X)
       end ;;
  let k := n_components (ratio_ d) target in
  ret (k, map (firstn k) (scores_ d)).

End PCA.

(** [preprocess_data(data)], started with the global generator in state
    [g]: the reduced table and the state of the generator afterwards. *)
Definition preprocess_data (B : backend) (g : Z) : Py DataFrame (DataFrame * Z) :=
  combined <- combined_features ;;
  data <- get ;;
  X <- liftR (check_array false (index_len data) (map snd combined)) ;;
  let r := runState (PCA.fit_transform B variance_target (index_len data) (map dropna X)) g in
  reduced <- liftR (frame_of_rows (snd (fst r)) (pc_names (fst (fst r)))) ;;
  ret (reduced, snd r).

(** [array.mean(axis=1)]: the entries of a row are added from left to
    right, then divided by their number.  (For rows of eight entries or more
    that lie contiguous in memory NumPy adds in blocks; a frame's array does
    not lie that way.) *)
Definition fsum (l : list cell) : cell := fold_left fadd l (Some 0).

Definition fmean (l : list cell) : cell := fdiv (fsum l) (Some (of_nat (length l))).

Definition row_means (n : nat) (X : features) : list cell :=
  map (fun i => fmean (row_at None X i)) (seq 0 n).

(** [w1 * a + w2 * b] with the weights as Python reads them. *)
Definition weighted (w1 w2 : Q) (a b : list cell) : list cell :=
  map (fun p => fadd (fmul (Some (round64 w1)) (fst p)) (fmul (Some (round64 w2)) (snd p)))
      (combine a b).

Definition calculate_financial_engagement_score (data : DataFrame) : Py DataFrame unit :=
  let transaction_cols := filter (name_matches "transaction") (columns data) in
  let savings_cols := filter (name_matches "savings") (columns data) in
  ct <- liftR (getitems data transaction_cols) ;;
  Xt <- liftR (check_array true (index_len data) ct) ;;
  let normalized_transaction := MinMaxScaler.fit_transform Xt in
  cs <- liftR (getitems data savings_cols) ;;
  Xs <- liftR (check_array true (index_len data) cs) ;;
  let normalized_savings := MinMaxScaler.fit_transform Xs in
  let financial_engagement_score :=
    weighted transaction_weight savings_weight
      (row_means (index_len data) normalized_transaction)
      (row_means (index_len data) normalized_savings) in
  processed_data <- get ;;
  processed_data' <- liftR (setitem "financial_engagement_score"
                              (NumCol financial_engagement_score) processed_data) ;;
  put processed_data'.

End Float.

(* ------------------------------------------------------------------ *)
(** ** Reading results: fractions in lowest terms *)

Definition canon_cell (c : cell) : cell := option_map Qred c.

Definition canon_column (c : column) : column :=
  match c with
  | NumCol v => NumCol (map canon_cell v)
  | other => other
  end.

Definition canon_cols (l : list (string * column)) : list (string * column) :=
  map (fun kc => (fst kc, canon_column (snd kc))) l.

Definition canon (df : DataFrame) : DataFrame :=
  mkFrame (index_len df) (canon_cols (cols df)).

(* ------------------------------------------------------------------ *)
(** ** Sample tables *)

Definition txn_amt : list cell := [Some 10; Some 20; None; Some 40; Some 50].


Definition education : list (option string) :=
  [Some "Primary"; Some "Secondary"; Some "Secondary"; Some "Tertiary"; None].

(** The five-respondent survey of the end-to-end example. *)
Definition survey5 : DataFrame :=
  mkFrame 5 [("txn_amt", NumCol txn_amt); ("education", CatCol education)].

(** Eleven respondents: [county] takes eleven distinct values, [gender]
    two. *)
Definition county : list (option string) :=
  map Some ["Mombasa"; "Kwale"; "Kilifi"; "Lamu"; "Garissa"; "Wajir";
            "Mandera"; "Marsabit"; "Isiolo"; "Meru"; "Embu"].

Definition gender : list (option string) :=
  map Some ["Male"; "Female"; "Male"; "Female"; "Male"; "Female";
            "Male"; "Female"; "Male"; "Female"; "Male"].

Definition survey11 : DataFrame :=
  mkFrame 11
    [("age", NumCol (map (fun a => Some (inject_Z a))
                         [50; 59; 52; 75; 24; 31; 44; 38; 27; 63; 19]%Z));
     ("county", CatCol county);
     ("gender", CatCol gender)].

(** The decomposition of a centred array whose columns are uncorrelated and
    ordered by decreasing variance: the axes are the unit vectors and each
    column's share of the variance is its share of the sum of squares. *)
Definition svd_of_uncorrelated (X : list (list Q)) : svd_result :=
  let squares := map (fun col => PCA.dot col col) X in
  mkSvd (map (fun j => map (fun i => if Nat.eqb i j then 1 else 0) (seq 0 (length X)))
             (seq 0 (length X)))
        (map (fun s => Qred (s / PCA.total squares)) squares).

(** Stand-in learners, to run the examples.  The forest draws: for the
    i-th test sample it answers with the label of the training sample at
    position (g + 3 i) mod n, where g is the state of its generator, which
    it advances.  The other three estimators answer with the label that is
    more frequent in the training fold and leave the generator alone.  The
    SHAP values of a test sample are its feature values. *)
Definition majority (y : list bool) : bool :=
  (length (filter negb y) <? length (filter (fun b => b) y))%nat.

Definition sample_learner (m : estimator) (g : Z)
  (X_train : list (list cell)) (y_train : list bool) (X_test : list (list cell))
  : result fitted * Z :=
  let values := map (map (fun c : cell => match c with Some q => q | None => 0 end)) X_test in
  match est_class m with
  | RandomForestClassifier =>
      (inr (mkFittedModel
              (map (fun i => nth (Z.to_nat ((g + 3 * Z.of_nat i) mod Z.of_nat (length y_train)))
                                 y_train false)
                   (seq 0 (length X_test)))
              (inr values)),
       (g + 1)%Z)
  | _ => (inr (mkFittedModel (map (fun _ => majority y_train) X_test) (inr values)), g)
  end.

(** The float64 decomposition of an array of the same kind: the scores are
    the centred columns, the ratios the shares of the sums of squares. *)
Definition decomposition_of_uncorrelated (X : list (list Q)) : decomposition :=
  let centred := PCA.centre X in
  let squares := map (fun col => PCA.dot col col) centred in
  mkDecomposition
    (map (map round64) (rows_of 0 (length (hd [] X)) centred))
    (map (fun s => round64 (s / PCA.total squares)) squares).

(** Stand-ins for the numerical kernels, to run the examples: the
    decompositions above (the randomized one shifts the scores by the state
    of its generator, which it advances), the first two samples as centres,
    the identity shuffle, no standardization, and the learners above. *)
Definition sample_backend : backend :=
  mkBackend
    svd_of_uncorrelated
    (fun rows => firstn 2 rows)
    (fun _ n => seq 0 n)
    (fun train test => (train, test))
    sample_learner
    (fun _ X => decomposition_of_uncorrelated X)
    (fun g X =>
       let d := decomposition_of_uncorrelated X in
       (mkDecomposition (map (map (fun x => x + inject_Z g)) (scores_ d)) (ratio_ d),
        (g + 1)%Z)).

(** A processed table as the score calculators leave it. *)
Definition scored3 : DataFrame :=
  mkFrame 3
    [("PC1", NumCol [Some (-1 # 2); Some 0; Some (1 # 2)]);
     ("financial_engagement_score", NumCol [Some 0; Some (11 # 20); Some (4 # 5)]);
     ("financial_literacy_score", NumCol [Some 0; Some (1 # 2); Some 1])].

(** The same table after a first call of the clusterer. *)
Definition scored3_after_first_call : DataFrame :=
  snd (run (cluster_financial_exclusion sample_backend) scored3).

(** Three respondents with numeric transaction and savings columns; one
    education level is not a key of the lookup. *)
Definition survey3 : DataFrame :=
  mkFrame 3
    [("transaction_count", NumCol [Some 1; Some 2; Some 5]);
     ("savings_amt", NumCol [Some 0; Some 10; Some 5]);
     ("education", CatCol [Some "Primary"; Some "PhD"; Some "University"]);
     ("quintile", NumCol [Some 1; Some 3; Some 5])].

(** The same respondents with the savings field as the survey delivers it:
    text. *)
Definition survey3_text_savings : DataFrame :=
  mkFrame 3
    [("Transaction count", NumCol [Some 1; Some 2; Some 5]);
     ("C2-2. Savings through mobile banking", CatCol [Some "Yes"; Some "No"; Some "Yes"])].

(** A reduced table for three respondents. *)
Definition reduced3 : DataFrame :=
  mkFrame 3 [("PC1", NumCol [Some (-1 # 2); Some 0; Some (1 # 2)])].

(* ------------------------------------------------------------------ *)
(** ** The score calculators in the words of the specification *)

(** [x' = (x - min) / (max - min)] with the column's observed extremes. *)
Definition normalized (col : list cell) (x : Q) : Q :=
  match nanmin col, nanmax col with
  | Some lo, Some hi => (x - lo) / (hi - lo)
  | _, _ => 0
  end.



(** The education column after [Series.map]. *)
Definition mapped_education (edu : list (option string)) : list cell :=
  series_map (CatCol edu).

(** What the fitted scaler does to a value of the column it was fitted on. *)
Definition scale_value (col : list cell) (x : Q) : Q :=
  let p := MinMaxScaler.fit_feature col in
  match MinMaxScaler.scale_ p, MinMaxScaler.min_ p with
  | Some s, Some m => x * s + m
  | _, _ => 0
  end.


(** The reduced table of the five-respondent survey. *)
Definition reduced5 : DataFrame :=
  value_or (mkFrame 0 []) (fst (run (preprocess_data sample_backend) survey5)).

(** Six scored respondents, and the table once a second call of the
    clusterer has labelled it. *)
Definition scored6 : DataFrame :=
  mkFrame 6
    [("PC1", NumCol [Some (-1 # 2); Some (1 # 2); Some (-2 # 5);
                     Some (2 # 5); Some (-3 # 10); Some (3 # 10)]);
     ("financial_engagement_score",
      NumCol [Some (1 # 10); Some (9 # 10); Some (1 # 5);
              Some (4 # 5); Some (3 # 10); Some (7 # 10)]);
     ("financial_literacy_score",
      NumCol [Some 0; Some 1; Some (1 # 4); Some (3 # 4); Some (1 # 4); Some 1])].

Definition labelled6 : DataFrame :=
  snd (run (cluster_financial_exclusion sample_backend)
           (snd (run (cluster_financial_exclusion sample_backend) scored6))).

(** The cells of [pd.DataFrame(rows, columns=...)] with [k] columns. *)
Definition array_of_rows (rows : list (list Q)) (k : nat) : list (list cell) :=
  map (fun j => map (fun r => Some (nth j r 0)) rows) (seq 0 k).








(* ------------------------------------------------------------------ *)
(** ** Row by row: the columns of the combined feature table *)

(** A column of the combined feature table is computed entry by entry from
    one column of the table as imputation and encoding have left it: a
    numeric column rescaled, the indicator of one level of a categorical
    column, or the integer codes of a categorical column. *)
Inductive from_column (data : DataFrame) : string * column -> Prop :=
| normalized_column (k : string) (col : list cell) :
    lookup k (cols data) = Some (NumCol col) ->
    from_column data (k, NumCol (map (option_map (scale_value col)) col))
| indicator_column (k : string) (col : list (option string)) (level : string) :
    lookup k (cols data) = Some (CatCol col) ->
    from_column data (k ++ "_" ++ level, BoolCol (indicator level col))
| code_column (k : string) (col : list (option string)) :
    lookup k (cols data) = Some (CatCol col) ->
    from_column data
      (k ++ "_encoded", NumCol (LabelEncoder.transform (unique_sorted (dropna col)) col)).

(* ------------------------------------------------------------------ *)
(** ** The reducer's contract in the words of the specification *)

(** The cumulative explained variance ratio of the first [k] components as
    [np.cumsum] computes it. *)
Definition float_cumulative_ratio (ratios : list Q) (k : nat) : Q :=
  fold_left (fun acc x => round64 (acc + x)) (firstn k ratios) 0.

(* ------------------------------------------------------------------ *)
(** ** Cell 1: descriptive column names *)

(** [dict(zip(keys, values))] as the list of its items in the order they
    were inserted; a key that occurs again overrides the earlier entry, so
    [d.get(k)] is the value of the last pair with that key. *)
Definition dict_zip (keys values : list string) : list (string * string) :=
  combine keys values.

Fixpoint dict_get (d : list (string * string)) (k : string) : option string :=
  match d with
  | [] => None
  | (k', v) :: r =>
      match dict_get r k with
      | Some v' => Some v'
      | None => if String.eqb k' k then Some v else None
      end
  end.

(** The name a column has after [rename(columns=mapping)]: the mapped label
    when its name is a key, its own name otherwise. *)
Definition renamed (mapping : list (string * string)) (name : string) : string :=
  match dict_get mapping name with
  | Some label => label
  | None => name
  end.

(** [data.rename(columns=column_mapping, inplace=True)] *)
Definition rename (mapping : list (string * string)) (data : DataFrame) : DataFrame :=
  mkFrame (index_len data)
          (map (fun kc => (renamed mapping (fst kc), snd kc)) (cols data)).

(** [data.columns.duplicated().any()] *)
Fixpoint duplicated_any (names : list string) : bool :=
  match names with
  | [] => false
  | x :: r => existsb (String.eqb x) r || duplicated_any r
  end.

(** The cell up to its test for duplicates: the renamed table and whether
    the branch that makes the labels unique is taken.  (That branch calls a
    private pandas routine and is not part of the model.) *)
Definition descriptive_names (variable label : list string) (data : DataFrame)
  : DataFrame * bool :=
  let column_mapping := dict_zip variable label in
  let data' := rename column_mapping data in
  (data', duplicated_any (columns data')).

(* ------------------------------------------------------------------ *)
(** ** More sample tables, and what is read off a result *)

(** A survey in which nobody answered the income question, and one in
    which nobody named a county. *)
Definition survey_unanswered : DataFrame :=
  mkFrame 3
    [("age", NumCol [Some 31; Some 45; Some 27]);
     ("income", NumCol [None; None; None]);
     ("gender", CatCol [Some "Female"; Some "Male"; Some "Female"])].

Definition survey_unnamed : DataFrame :=
  mkFrame 3
    [("age", NumCol [Some 31; Some 45; Some 27]);
     ("county", CatCol [None; None; None])].





(** A labelled table with a single respondent. *)
Definition labelled1 : DataFrame :=
  mkFrame 1 [("PC1", NumCol [Some 0]); ("financial_exclusion_label", BoolCol [true])].

(** All four figures of a report are fractions. *)
Definition unit_metrics (m : metrics) : Prop :=
  0 <= accuracy m <= 1 /\ 0 <= precision m <= 1 /\
  0 <= recall m <= 1 /\ 0 <= f1_score m <= 1.

(** The number of indicator columns of an encoded table that are set for
    respondent [i]. *)
Definition indicators_set (i : nat) (encoded : list (string * column)) : nat :=
  length (filter (fun kc => match snd kc with
                            | BoolCol v => nth i v false
                            | _ => false
                            end) encoded).

(* ================================================================== *)
(* ------------------------------------------------------------------ *)
(** ** The bench: a table with unrelated features, seeded estimators, and the label read off a feature *)




(** * Properties *)

(** ** float64 rounding *)

(** Rounding to the nearest integer. *)

Lemma rne_floor q : (Qfloor q <= rne q <= Qfloor q + 1)%Z.
Proof.
  unfold rne. destruct (Qcompare _ _); [destruct (Z.even _)| |]; lia.
Qed.

Lemma rne_proper x y : x == y -> rne x = rne y.
Proof.
  intros H. unfold rne. rewrite (Qfloor_comp _ _ H).
  assert (E : x - inject_Z (Qfloor y) == y - inject_Z (Qfloor y)) by (rewrite H; reflexivity).
  rewrite (Qcompare_comp _ _ E _ _ (Qeq_refl (1 # 2))). reflexivity.
Qed.

Lemma rne_Z z : rne (inject_Z z) = z.
Proof.
  unfold rne. rewrite Qfloor_Z.
  assert (E : Qcompare (inject_Z z - inject_Z z) (1 # 2) = Lt).
  { apply Qlt_alt. assert (H : inject_Z z - inject_Z z == 0) by ring. rewrite H. reflexivity. }
  rewrite E. reflexivity.
Qed.

Lemma rne_monotone x y : x <= y -> (rne x <= rne y)%Z.
Proof.
  intros H. pose proof (Qfloor_resp_le x y H) as Hf.
  pose proof (rne_floor x) as Bx. pose proof (rne_floor y) as By.
  destruct (Z.eq_dec (Qfloor x) (Qfloor y)) as [E | E]; [|lia].
  unfold rne in *. rewrite E in *.
  destruct (Qcompare_spec (x - inject_Z (Qfloor y)) (1 # 2)) as [Hx | Hx | Hx];
    destruct (Qcompare_spec (y - inject_Z (Qfloor y)) (1 # 2)) as [Hy | Hy | Hy];
    try lia; try (exfalso; lra); destruct (Z.even (Qfloor y)); lia.
Qed.

Lemma rne_le_Z q z : q <= inject_Z z -> (rne q <= z)%Z.
Proof. intros H. rewrite <- (rne_Z z). apply rne_monotone. exact H. Qed.

Lemma rne_ge_Z q z : inject_Z z <= q -> (z <= rne q)%Z.
Proof. intros H. rewrite <- (rne_Z z). apply rne_monotone. exact H. Qed.

(** Powers of two. *)

Lemma pow2_pos k : 0 < 2 ^ k.
Proof. apply Qpower_0_lt. reflexivity. Qed.

Lemma pow2_le a b : (a <= b)%Z -> 2 ^ a <= 2 ^ b.
Proof. intros H. apply Qpower_le_compat_l; [exact H | discriminate]. Qed.

Lemma pow2_lt a b : (a < b)%Z -> 2 ^ a < 2 ^ b.
Proof. intros H. apply Qpower_lt_compat_l; [exact H | reflexivity]. Qed.

Lemma pow2_plus a b : 2 ^ (a + b) == 2 ^ a * 2 ^ b.
Proof. apply Qpower_plus. discriminate. Qed.

Lemma pow2_succ a : 2 ^ (a + 1) == 2 * 2 ^ a.
Proof. rewrite pow2_plus. simpl (2 ^ 1). ring. Qed.

Lemma pow2_Z a : (0 <= a)%Z -> inject_Z (2 ^ a) == 2 ^ a.
Proof. intros H. rewrite Zpower_Qpower by exact H. reflexivity. Qed.

(** The binary exponent of a positive rational. *)

Lemma ilog2_spec q : 0 < q -> 2 ^ ilog2 q <= q /\ q < 2 ^ (ilog2 q + 1).
Proof.
  intros Hq. destruct q as [n d]. 
  assert (Hn : (0 < n)%Z).
  { unfold Qlt in Hq. simpl in Hq. lia. }
  unfold ilog2. cbn [Qnum Qden].
  set (a := Z.log2 n). set (b := Z.log2 (Z.pos d)).
  assert (Ha : (0 <= a)%Z) by apply Z.log2_nonneg.
  assert (Hb : (0 <= b)%Z) by apply Z.log2_nonneg.
  destruct (Z.log2_spec n Hn) as [Ha1 Ha2]. fold a in Ha1, Ha2.
  destruct (Z.log2_spec (Z.pos d) (Pos2Z.is_pos d)) as [Hb1 Hb2]. fold b in Hb1, Hb2.
  assert (QA1 : 2 ^ a <= inject_Z n).
  { rewrite <- pow2_Z by exact Ha. rewrite <- Zle_Qle. exact Ha1. }
  assert (QA2 : inject_Z n < 2 * 2 ^ a).
  { rewrite <- pow2_succ, <- pow2_Z by lia. rewrite <- Zlt_Qlt.
    replace (a + 1)%Z with (Z.succ a) by lia. exact Ha2. }
  assert (QB1 : 2 ^ b <= inject_Z (Z.pos d)).
  { rewrite <- pow2_Z by exact Hb. rewrite <- Zle_Qle. exact Hb1. }
  assert (QB2 : inject_Z (Z.pos d) < 2 * 2 ^ b).
  { rewrite <- pow2_succ, <- pow2_Z by lia. rewrite <- Zlt_Qlt.
    replace (b + 1)%Z with (Z.succ b) by lia. exact Hb2. }
  pose proof (pow2_pos a) as PA. pose proof (pow2_pos b) as PB.
  assert (Hq' : n # d == inject_Z n / inject_Z (Z.pos d)) by apply Qmake_Qdiv.
  assert (PD : 0 < inject_Z (Z.pos d)) by (rewrite <- (Zlt_Qlt 0); lia).
  assert (Ek : 2 ^ (a - b) == 2 ^ a / 2 ^ b).
  { apply Qpower_minus. discriminate. }
  assert (Ek1 : 2 ^ (a - b + 1) == 2 * 2 ^ a / 2 ^ b).
  { rewrite pow2_succ, Ek. field. intros C. rewrite C in PB. discriminate. }
  assert (Ekm : 2 ^ (a - b) == 2 * 2 ^ (a - b - 1)).
  { rewrite <- pow2_succ. replace (a - b - 1 + 1)%Z with (a - b)%Z by lia. reflexivity. }
  assert (Hup : n # d < 2 ^ (a - b + 1)).
  { rewrite Ek1, Hq'. apply Qlt_shift_div_l; [exact PB|].
    assert (E : inject_Z n / inject_Z (Z.pos d) * 2 ^ b
                == inject_Z n * 2 ^ b / inject_Z (Z.pos d)).
    { field. intros C. rewrite C in PD. discriminate. }
    rewrite E. apply Qlt_shift_div_r; [exact PD|]. nra. }
  assert (Hlo : 2 ^ (a - b - 1) < n # d).
  { assert (E2 : 2 ^ (a - b - 1) == 2 ^ a / (2 * 2 ^ b)).
    { assert (X : 2 * 2 ^ (a - b - 1) == 2 * (2 ^ a / (2 * 2 ^ b))).
      { rewrite <- Ekm, Ek. field. intros C. rewrite C in PB. discriminate. }
      lra. }
    rewrite E2, Hq'. apply Qlt_shift_div_r; [lra|].
    assert (E : inject_Z n / inject_Z (Z.pos d) * (2 * 2 ^ b)
                == inject_Z n * (2 * 2 ^ b) / inject_Z (Z.pos d)).
    { field. intros C. rewrite C in PD. discriminate. }
    rewrite E. apply Qlt_shift_div_l; [exact PD|]. nra. }
  destruct (Qle_bool (2 ^ (a - b)) (n # d)) eqn:Hle.
  - apply Qle_bool_iff in Hle. split; [exact Hle | exact Hup].
  - assert (Hlt : n # d < 2 ^ (a - b)).
    { apply Qnot_le_lt. intros C. apply Qle_bool_iff in C. congruence. }
    split; [apply Qlt_le_weak; exact Hlo|].
    replace (a - b - 1 + 1)%Z with (a - b)%Z by lia. exact Hlt.
Qed.

Lemma ilog2_unique q k : 2 ^ k <= q -> q < 2 ^ (k + 1) -> ilog2 q = k.
Proof.
  intros H1 H2.
  assert (Hq : 0 < q) by (eapply Qlt_le_trans; [apply (pow2_pos k) | exact H1]).
  destruct (ilog2_spec q Hq) as [S1 S2].
  destruct (Z.lt_trichotomy (ilog2 q) k) as [L | [E | L]]; [|exact E|]; exfalso.
  - assert (X : 2 ^ (ilog2 q + 1) <= 2 ^ k) by (apply pow2_le; lia). lra.
  - assert (X : 2 ^ (k + 1) <= 2 ^ ilog2 q) by (apply pow2_le; lia). lra.
Qed.

Lemma ilog2_proper x y : 0 < x -> x == y -> ilog2 x = ilog2 y.
Proof.
  intros Hx E. destruct (ilog2_spec x Hx) as [S1 S2].
  symmetry. apply ilog2_unique; rewrite <- E; assumption.
Qed.

Lemma ilog2_monotone x y : 0 < x -> x <= y -> (ilog2 x <= ilog2 y)%Z.
Proof.
  intros Hx H. assert (Hy : 0 < y) by lra.
  destruct (ilog2_spec x Hx) as [X1 X2]. destruct (ilog2_spec y Hy) as [Y1 Y2].
  destruct (Z.le_gt_cases (ilog2 x) (ilog2 y)) as [L | L]; [exact L|]. exfalso.
  assert (P : 2 ^ (ilog2 y + 1) <= 2 ^ ilog2 x) by (apply pow2_le; lia). lra.
Qed.

(** Rounding a positive rational to a double. *)

Lemma round_pos_eq q : round_pos q = inject_Z (rne (q / 2 ^ exponent q)) * 2 ^ exponent q.
Proof. reflexivity. Qed.

Lemma exponent_proper x y : 0 < x -> x == y -> exponent x = exponent y.
Proof. intros Hx E. unfold exponent. rewrite (ilog2_proper x y Hx E). reflexivity. Qed.

Lemma exponent_monotone x y : 0 < x -> x <= y -> (exponent x <= exponent y)%Z.
Proof.
  intros Hx H. unfold exponent. pose proof (ilog2_monotone x y Hx H). lia.
Qed.

Lemma round_pos_proper x y : 0 < x -> x == y -> round_pos x == round_pos y.
Proof.
  intros Hx E. rewrite !round_pos_eq, (exponent_proper x y Hx E).
  assert (E' : x / 2 ^ exponent y == y / 2 ^ exponent y) by (rewrite E; reflexivity).
  rewrite (rne_proper _ _ E'). reflexivity.
Qed.

Lemma Qdiv_pow2_le x y e : x <= y -> x / 2 ^ e <= y / 2 ^ e.
Proof.
  intros H. unfold Qdiv. apply Qmult_le_compat_r; [exact H|].
  apply Qlt_le_weak, Qinv_lt_0_compat, pow2_pos.
Qed.

Lemma Qdiv_mult_pow2 x e : x / 2 ^ e * 2 ^ e == x.
Proof.
  pose proof (pow2_pos e) as P. generalize dependent (2 ^ e). intros a P.
  field. intros C. rewrite C in P. discriminate.
Qed.

Lemma round_pos_nonneg q : 0 < q -> 0 <= round_pos q.
Proof.
  intros Hq. rewrite round_pos_eq.
  apply Qmult_le_0_compat; [|apply Qlt_le_weak, pow2_pos].
  rewrite <- (Zle_Qle 0). apply rne_ge_Z.
  apply Qle_shift_div_l; [apply pow2_pos|]. rewrite Qmult_0_l. apply Qlt_le_weak, Hq.
Qed.

(** The scaled value lies below 2^53, and at or above 2^52 unless the
    number is subnormal. *)
Lemma scaled_below q : 0 < q -> q / 2 ^ exponent q < 2 ^ 53.
Proof.
  intros Hq. destruct (ilog2_spec q Hq) as [_ S2].
  apply Qlt_shift_div_r; [apply pow2_pos|].
  rewrite <- pow2_plus.
  eapply Qlt_le_trans; [exact S2|]. apply pow2_le. unfold exponent. lia.
Qed.

Lemma scaled_above q : 0 < q -> (-1074 <= ilog2 q - 52)%Z -> 2 ^ 52 <= q / 2 ^ exponent q.
Proof.
  intros Hq Hn. destruct (ilog2_spec q Hq) as [S1 _].
  apply Qle_shift_div_l; [apply pow2_pos|].
  rewrite <- pow2_plus.
  eapply Qle_trans; [|exact S1]. apply pow2_le. unfold exponent. lia.
Qed.

Lemma pow2_Z_const k : (0 <= k)%Z -> 2 ^ k == inject_Z (2 ^ k).
Proof. intros H. symmetry. apply pow2_Z, H. Qed.

Lemma round_pos_monotone x y : 0 < x -> x <= y -> round_pos x <= round_pos y.
Proof.
  intros Hx H. assert (Hy : 0 < y) by lra.
  pose proof (exponent_monotone x y Hx H) as He.
  rewrite !round_pos_eq.
  destruct (Z.eq_dec (exponent x) (exponent y)) as [E | E].
  - rewrite E. apply Qmult_le_compat_r; [|apply Qlt_le_weak, pow2_pos].
    rewrite <- Zle_Qle. apply rne_monotone. apply Qdiv_pow2_le, H.
  - assert (Hlt : (exponent x < exponent y)%Z) by lia.
    assert (Hn : (-1074 <= ilog2 y - 52)%Z) by (unfold exponent in *; lia).
    assert (U : inject_Z (rne (x / 2 ^ exponent x)) <= 2 ^ 53).
    { rewrite (pow2_Z_const 53) by lia. rewrite <- Zle_Qle. apply rne_le_Z.
      rewrite <- pow2_Z_const by lia. apply Qlt_le_weak, scaled_below, Hx. }
    assert (L : 2 ^ 52 <= inject_Z (rne (y / 2 ^ exponent y))).
    { rewrite (pow2_Z_const 52) by lia. rewrite <- Zle_Qle. apply rne_ge_Z.
      rewrite <- pow2_Z_const by lia. apply scaled_above; assumption. }
    apply Qle_trans with (2 ^ 53 * 2 ^ exponent x).
    { apply Qmult_le_compat_r; [exact U | apply Qlt_le_weak, pow2_pos]. }
    apply Qle_trans with (2 ^ 52 * 2 ^ exponent y).
    { rewrite <- !pow2_plus. apply pow2_le. lia. }
    apply Qmult_le_compat_r; [exact L | apply Qlt_le_weak, pow2_pos].
Qed.

(** A number with a significand below 2^53 and an exponent in range is a
    double. *)
Lemma round_pos_exact m e :
  (0 < m)%Z -> (m < 2 ^ 53)%Z -> (-1074 <= e)%Z ->
  round_pos (inject_Z m * 2 ^ e) == inject_Z m * 2 ^ e.
Proof.
  intros Hm Hm53 He.
  set (q := inject_Z m * 2 ^ e).
  assert (Hq : 0 < q).
  { unfold q. apply Qmult_lt_0_compat; [rewrite <- (Zlt_Qlt 0); exact Hm | apply pow2_pos]. }
  assert (Hle : (exponent q <= e)%Z).
  { destruct (ilog2_spec q Hq) as [S1 _].
    assert (Hb : q < 2 ^ (53 + e)).
    { unfold q. rewrite pow2_plus. apply Qmult_lt_compat_r; [apply pow2_pos|].
      rewrite (pow2_Z_const 53) by lia. rewrite <- Zlt_Qlt. exact Hm53. }
    assert (Hi : (ilog2 q < 53 + e)%Z).
    { destruct (Z.lt_ge_cases (ilog2 q) (53 + e)) as [L | L]; [exact L|]. exfalso.
      assert (P : 2 ^ (53 + e) <= 2 ^ ilog2 q) by (apply pow2_le; exact L). lra. }
    unfold exponent. lia. }
  rewrite round_pos_eq.
  set (d := (e - exponent q)%Z).
  assert (Hd : (0 <= d)%Z) by (unfold d; lia).
  assert (E : q / 2 ^ exponent q == inject_Z (m * 2 ^ d)).
  { rewrite inject_Z_mult, pow2_Z by exact Hd.
    pose proof (pow2_plus d (exponent q)) as Hp.
    replace (d + exponent q)%Z with e in Hp by (unfold d; lia).
    pose proof (pow2_pos (exponent q)) as P.
    unfold q at 1. rewrite Hp.
    generalize dependent (2 ^ exponent q). generalize (2 ^ d). intros a b _ Pb.
    field. intros C. rewrite C in Pb. discriminate. }
  rewrite (rne_proper _ _ E), rne_Z, <- E. apply Qdiv_mult_pow2.
Qed.

Lemma round_pos_idem q : 0 < q -> 0 < round_pos q -> round_pos (round_pos q) == round_pos q.
Proof.
  intros Hq Hr. rewrite (round_pos_eq q) in *.
  set (e := exponent q) in *. set (m := rne (q / 2 ^ e)) in *.
  assert (He : (-1074 <= e)%Z) by (unfold e, exponent; lia).
  assert (Hm : (0 < m)%Z).
  { destruct (Z.lt_ge_cases 0 m) as [L | L]; [exact L|]. exfalso.
    assert (P : inject_Z m <= 0) by (rewrite (Zle_Qle m 0) in L; exact L).
    pose proof (pow2_pos e) as P2. nra. }
  assert (Hm53 : (m <= 2 ^ 53)%Z).
  { apply rne_le_Z. rewrite <- pow2_Z_const by lia. apply Qlt_le_weak, scaled_below, Hq. }
  destruct (Z.eq_dec m (2 ^ 53)) as [E | E].
  - assert (X : inject_Z m * 2 ^ e == inject_Z (2 ^ 52) * 2 ^ (e + 1)).
    { rewrite E, pow2_succ, !pow2_Z by lia.
      change (2 ^ 53) with (2 ^ (52 + 1)). rewrite pow2_succ. ring. }
    rewrite (round_pos_proper _ _ Hr X). rewrite X.
    apply round_pos_exact; [reflexivity | reflexivity | lia].
  - apply round_pos_exact; [exact Hm | lia | exact He].
Qed.

(** Rounding to a double is monotone, odd and idempotent. *)

Lemma round64_pos q : 0 < q -> round64 q == round_pos q.
Proof.
  intros H. unfold round64.
  destruct (Qcompare_spec q 0) as [E | L | G]; [lra | lra | apply Qred_correct].
Qed.

Lemma round64_neg q : q < 0 -> round64 q == - round_pos (- q).
Proof.
  intros H. unfold round64.
  destruct (Qcompare_spec q 0) as [E | L | G]; [lra | apply Qred_correct | lra].
Qed.

Lemma round64_zero q : q == 0 -> round64 q = 0.
Proof.
  intros H. unfold round64.
  destruct (Qcompare_spec q 0) as [E | L | G]; [reflexivity | lra | lra].
Qed.

Lemma round64_nonneg q : 0 <= q -> 0 <= round64 q.
Proof.
  intros H. destruct (Qlt_le_dec 0 q) as [L | L].
  - rewrite (round64_pos q L). apply round_pos_nonneg, L.
  - rewrite (round64_zero q) by lra. apply Qle_refl.
Qed.

Lemma round64_nonpos q : q <= 0 -> round64 q <= 0.
Proof.
  intros H. destruct (Qlt_le_dec q 0) as [L | L].
  - rewrite (round64_neg q L).
    assert (P : 0 <= round_pos (- q)) by (apply round_pos_nonneg; lra). lra.
  - rewrite (round64_zero q) by lra. apply Qle_refl.
Qed.

Lemma round64_rounding : rounding round64.
Proof.
  constructor.
  - intros x y E. destruct (Q_dec x 0) as [[L | G] | Z].
    + rewrite (round64_neg x L), (round64_neg y) by (rewrite <- E; exact L).
      assert (P : 0 < - x) by lra.
      rewrite (round_pos_proper (- x) (- y) P) by (rewrite E; reflexivity). reflexivity.
    + rewrite (round64_pos x G), (round64_pos y) by (rewrite <- E; exact G).
      apply round_pos_proper; assumption.
    + rewrite (round64_zero x Z), (round64_zero y) by (rewrite <- E; exact Z). reflexivity.
  - intros x y H. destruct (Qlt_le_dec 0 x) as [Px | Nx].
    + assert (Py : 0 < y) by lra.
      rewrite (round64_pos x Px), (round64_pos y Py). apply round_pos_monotone; assumption.
    + destruct (Qlt_le_dec y 0) as [Ny | Py].
      * assert (Nx' : x < 0) by lra.
        rewrite (round64_neg x Nx'), (round64_neg y Ny).
        assert (M : round_pos (- y) <= round_pos (- x)) by (apply round_pos_monotone; lra).
        lra.
      * eapply Qle_trans; [apply round64_nonpos, Nx | apply round64_nonneg, Py].
  - reflexivity.
  - intros x. destruct (Q_dec x 0) as [[L | G] | Z].
    + assert (P : 0 < - x) by lra.
      rewrite (round64_pos (- x) P), (round64_neg x L). ring.
    + assert (N : - x < 0) by lra.
      rewrite (round64_neg (- x) N), (round64_pos x G).
      rewrite (round_pos_proper (- - x) x) by lra. reflexivity.
    + rewrite (round64_zero x Z), (round64_zero (- x)) by lra. reflexivity.
  - intros x. destruct (Q_dec x 0) as [[L | G] | Z].
    + assert (P : 0 < - x) by lra.
      pose proof (round_pos_nonneg _ P) as R0.
      rewrite (round64_neg x L) at 2.
      destruct (Qlt_le_dec 0 (round_pos (- x))) as [R | R].
      * assert (N : round64 x < 0) by (rewrite (round64_neg x L); lra).
        rewrite (round64_neg _ N).
        assert (E : - round64 x == round_pos (- x)) by (rewrite (round64_neg x L); ring).
        assert (P' : 0 < - round64 x) by lra.
        rewrite (round_pos_proper _ _ P' E), (round_pos_idem _ P R). reflexivity.
      * assert (E : round64 x == 0) by (rewrite (round64_neg x L); lra).
        rewrite (round64_zero _ E). lra.
    + pose proof (round_pos_nonneg _ G) as R0.
      rewrite (round64_pos x G) at 2.
      destruct (Qlt_le_dec 0 (round_pos x)) as [R | R].
      * assert (P : 0 < round64 x) by (rewrite (round64_pos x G); exact R).
        rewrite (round64_pos _ P).
        rewrite (round_pos_proper _ _ P (round64_pos x G)). apply round_pos_idem; assumption.
      * assert (E : round64 x == 0) by (rewrite (round64_pos x G); lra).
        rewrite (round64_zero _ E). lra.
    + rewrite (round64_zero x Z). reflexivity.
Qed.

(** ** Helper lemmas on the monad *)

Lemma run_bind {S A B : Type} (c : Py S A) (k : A -> Py S B) (s : S) :
  run (bind c k) s =
  match run c s with
  | (inl e, s') => (inl e, s')
  | (inr a, s') => run (k a) s'
  end.
Proof.
  unfold run. cbn.
  destruct (runState (unEitherT c) s) as [[e | a] s']; reflexivity.
Qed.

Lemma run_ret {S A : Type} (a : A) (s : S) : run (ret a : Py S A) s = (inr a, s).
Proof. reflexivity. Qed.

Lemma run_get {S : Type} (s : S) : run (get : Py S S) s = (inr s, s).
Proof. reflexivity. Qed.

Lemma run_put {S : Type} (s' s : S) : run (put s' : Py S unit) s = (inr tt, s').
Proof. reflexivity. Qed.

Lemma run_liftR_inl {S A : Type} (e : pyerr) (s : S) :
  run (liftR (inl e) : Py S A) s = (inl e, s).
Proof. reflexivity. Qed.

Lemma run_liftR_inr {S A : Type} (a : A) (s : S) :
  run (liftR (inr a) : Py S A) s = (inr a, s).
Proof. reflexivity. Qed.

Ltac py_simpl :=
  repeat (rewrite ?run_bind, ?run_get, ?run_put, ?run_ret, ?run_liftR_inl, ?run_liftR_inr).

(** Case split on the next fallible call of a run. *)
Tactic Notation "py_case" ident(v) ident(E) :=
  py_simpl;
  match goal with
  | |- context [run (liftR ?r) _] => destruct r as [? | v] eqn:E; py_simpl
  end.

Ltac py_simpl_in H :=
  repeat (progress (rewrite ?run_bind, ?run_get, ?run_put, ?run_ret,
                            ?run_liftR_inl, ?run_liftR_inr in H;
                    cbv beta iota in H)).

Tactic Notation "py_inv" hyp(H) ident(v) ident(E) :=
  py_simpl_in H;
  match type of H with
  | context [run (liftR ?r) _] =>
      destruct r as [? | v] eqn:E; py_simpl_in H; [discriminate H|]
  end.

(** ** Helper lemmas on frames *)

Lemma to_floats_length cs : forall X, to_floats cs = inr X -> length X = length cs.
Proof.
  induction cs as [|c cs IH]; intros X H; simpl in H.
  - injection H as <-. reflexivity.
  - destruct (to_float c); [discriminate|].
    destruct (to_floats cs); [discriminate|].
    injection H as <-. simpl. f_equal. apply IH. reflexivity.
Qed.

Lemma check_array_length a n cs X : check_array a n cs = inr X -> length X = length cs.
Proof.
  unfold check_array. destruct (to_floats cs) eqn:E; [discriminate|].
  destruct (_ && _); [discriminate|].
  destruct (_ =? _)%nat; [discriminate|]. destruct (_ =? _)%nat; [discriminate|].
  intros H. injection H as <-.
  apply to_floats_length, E.
Qed.

Lemma replace_or_append_fresh name c l :
  lookup name l = None -> replace_or_append name c l = (l ++ [(name, c)])%list.
Proof.
  induction l as [|[k c0] l IH]; simpl; [reflexivity|].
  destruct (String.eqb k name); [discriminate|]. intros H. rewrite IH; auto.
Qed.

Lemma lookup_replace_or_append_other k name c l :
  k <> name -> lookup k (replace_or_append name c l) = lookup k l.
Proof.
  intros Hk. induction l as [|[k0 c0] l IH]; simpl.
  - destruct (String.eqb_spec name k); [congruence | reflexivity].
  - destruct (String.eqb_spec k0 name) as [->|]; simpl.
    + destruct (String.eqb_spec name k); [congruence | reflexivity].
    + rewrite IH. reflexivity.
Qed.

Lemma lookup_replace_or_append_same name c l :
  lookup name (replace_or_append name c l) = Some c.
Proof.
  induction l as [|[k0 c0] l IH]; simpl.
  - rewrite String.eqb_refl. reflexivity.
  - destruct (String.eqb_spec k0 name) as [->|N]; simpl.
    + rewrite String.eqb_refl. reflexivity.
    + destruct (String.eqb_spec k0 name); [contradiction | exact IH].
Qed.

Lemma setitem_inv name c df df' :
  setitem name c df = inr df' ->
  col_length c = index_len df /\
  df' = mkFrame (index_len df) (replace_or_append name c (cols df)).
Proof.
  unfold setitem. destruct (Nat.eqb_spec (col_length c) (index_len df)); [|discriminate].
  intros H. injection H as <-. auto.
Qed.

Lemma row_at_length {A} (d : A) X i : length (row_at d X i) = length X.
Proof. apply length_map. Qed.


Lemma getitem_lookup df k c : getitem df k = inr c -> lookup k (cols df) = Some c.
Proof. unfold getitem. destruct (lookup k (cols df)); congruence. Qed.



(** ** Normalizer *)

Lemma Qmin_cases x y : Qmin x y = x \/ Qmin x y = y.
Proof. unfold Qmin, GenericMinMax.gmin. destruct (x ?= y); auto. Qed.

Lemma Qmax_cases x y : Qmax x y = x \/ Qmax x y = y.
Proof. unfold Qmax, GenericMinMax.gmax. destruct (x ?= y); auto. Qed.

Lemma fold_min_le r : forall x, fold_left Qmin r x <= x /\ forall y, In y r -> fold_left Qmin r x <= y.
Proof.
  induction r as [|a r IH]; intros x; simpl.
  - split; [apply Qle_refl | tauto].
  - destruct (IH (Qmin x a)) as [H1 H2]. split.
    + eapply Qle_trans; [exact H1 | apply Q.le_min_l].
    + intros y [<- | Hy]; [eapply Qle_trans; [exact H1 | apply Q.le_min_r] | auto].
Qed.

Lemma fold_min_in r : forall x, In (fold_left Qmin r x) (x :: r).
Proof.
  induction r as [|a r IH]; intros x; simpl; [auto|].
  destruct (IH (Qmin x a)) as [H | H]; [| auto].
  rewrite <- H. destruct (Qmin_cases x a) as [E | E]; rewrite E; auto.
Qed.

Lemma fold_max_ge r : forall x, x <= fold_left Qmax r x /\ forall y, In y r -> y <= fold_left Qmax r x.
Proof.
  induction r as [|a r IH]; intros x; simpl.
  - split; [apply Qle_refl | tauto].
  - destruct (IH (Qmax x a)) as [H1 H2]. split.
    + eapply Qle_trans; [apply Q.le_max_l | exact H1].
    + intros y [<- | Hy]; [eapply Qle_trans; [apply Q.le_max_r | exact H1] | auto].
Qed.

Lemma fold_max_in r : forall x, In (fold_left Qmax r x) (x :: r).
Proof.
  induction r as [|a r IH]; intros x; simpl; [auto|].
  destruct (IH (Qmax x a)) as [H | H]; [| auto].
  rewrite <- H. destruct (Qmax_cases x a) as [E | E]; rewrite E; auto.
Qed.

Lemma In_dropna {A} (x : A) l : In x (dropna l) <-> In (Some x) l.
Proof.
  induction l as [|[a|] l IH]; simpl; [tauto | |].
  - rewrite IH. split; intros [H | H]; auto; [left; congruence | left; congruence].
  - rewrite IH. split; [auto | intros [H | H]; [discriminate | auto]].
Qed.

Lemma nanmin_spec col lo :
  nanmin col = Some lo -> In (Some lo) col /\ forall x, In (Some x) col -> lo <= x.
Proof.
  unfold nanmin. destruct (dropna col) as [|x r] eqn:E; [discriminate|].
  intros H; injection H as <-. split.
  - apply In_dropna. rewrite E. apply fold_min_in.
  - intros y Hy. apply In_dropna in Hy. rewrite E in Hy.
    destruct (fold_min_le r x) as [H1 H2]. destruct Hy as [<- | Hy]; auto.
Qed.

Lemma nanmax_spec col hi :
  nanmax col = Some hi -> In (Some hi) col /\ forall x, In (Some x) col -> x <= hi.
Proof.
  unfold nanmax. destruct (dropna col) as [|x r] eqn:E; [discriminate|].
  intros H; injection H as <-. split.
  - apply In_dropna. rewrite E. apply fold_max_in.
  - intros y Hy. apply In_dropna in Hy. rewrite E in Hy.
    destruct (fold_max_ge r x) as [H1 H2]. destruct Hy as [<- | Hy]; auto.
Qed.

Lemma scaled_value lo hi x :
  lo < hi -> 
  x * (1 / (hi - lo)) + (0 - lo * (1 / (hi - lo))) == (x - lo) / (hi - lo).
Proof. intros H. field. lra. Qed.

Lemma unit_interval lo hi x :
  lo < hi -> lo <= x -> x <= hi -> 0 <= (x - lo) / (hi - lo) <= 1.
Proof.
  intros H H1 H2. split.
  - apply Qle_shift_div_l; lra.
  - apply Qle_shift_div_r; lra.
Qed.

Lemma fit_transform_nth X : forall j col,
  nth_error X j = Some col ->
  nth_error (MinMaxScaler.fit_transform X) j =
  Some (MinMaxScaler.transform_feature (MinMaxScaler.fit_feature col) col).
Proof.
  unfold MinMaxScaler.fit_transform, MinMaxScaler.fit.
  induction X as [|c X IH]; intros [|j] col H; simpl in *; try discriminate.
  - injection H as <-. reflexivity.
  - apply IH, H.
Qed.


(** ** Imputer *)

Import SimpleImputer.

Lemma insert_sorted_perm x l : Permutation (x :: l) (insert_sorted x l).
Proof.
  induction l as [|y l IH]; simpl; [reflexivity|].
  destruct (Qle_bool x y); [reflexivity|].
  rewrite perm_swap. apply perm_skip, IH.
Qed.

Lemma sort_perm l : Permutation l (sort l).
Proof.
  induction l as [|x l IH]; simpl; [constructor|].
  rewrite <- insert_sorted_perm. apply perm_skip, IH.
Qed.





Lemma median_some l : l <> [] -> exists m, median l = Some m.
Proof.
  intros H. unfold median.
  pose proof (Permutation_length (sort_perm l)) as L. rewrite <- L.
  destruct l; [congruence|]. simpl length.
  destruct (Nat.even _); eexists; reflexivity.
Qed.

Lemma count_better_l l a b : (count a l <= count (better l a b) l)%nat.
Proof.
  unfold better. destruct (Nat.ltb_spec (count a l) (count b l)); [lia|].
  destruct (Nat.eqb_spec (count b l) (count a l)); simpl; [|lia].
  destruct (String.ltb b a); lia.
Qed.

Lemma count_better_r l a b : (count b l <= count (better l a b) l)%nat.
Proof.
  unfold better. destruct (Nat.ltb_spec (count a l) (count b l)); [lia|].
  destruct (Nat.eqb_spec (count b l) (count a l)); simpl; [|lia].
  destruct (String.ltb b a); lia.
Qed.

Lemma better_cases l a b : better l a b = a \/ better l a b = b.
Proof.
  unfold better. destruct (_ <? _)%nat; [auto|]. destruct (_ && _); auto.
Qed.

Lemma fold_better l r : forall x,
  In (fold_left (better l) r x) (x :: r) /\
  forall y, In y (x :: r) -> (count y l <= count (fold_left (better l) r x) l)%nat.
Proof.
  induction r as [|a r IH]; intros x; simpl.
  - split; [auto|]. intros y [<- | []]. lia.
  - destruct (IH (better l x a)) as [I C]. split.
    + destruct I as [I | I]; [|auto]. rewrite <- I.
      destruct (better_cases l x a) as [E | E]; rewrite E; auto.
    + intros y [<- | [<- | Hy]].
      * etransitivity; [apply (count_better_l l x a)|]. apply C. left. reflexivity.
      * etransitivity; [apply (count_better_r l x a)|]. apply C. left. reflexivity.
      * apply C. right. assumption.
Qed.

Lemma count_notin x l : ~ In x l -> count x l = 0%nat.
Proof.
  unfold count. induction l as [|y l IH]; simpl; [reflexivity|]. intros H.
  destruct (String.eqb_spec x y) as [->|]; [tauto|]. apply IH. tauto.
Qed.

Lemma most_frequent_spec l m :
  most_frequent l = Some m ->
  In m l /\ forall x, (count x l <= count m l)%nat.
Proof.
  unfold most_frequent. destruct l as [|x r] eqn:E; [discriminate|].
  intros H. injection H as <-. rewrite <- E.
  destruct (fold_better l r x) as [I C]. rewrite <- E in I. split; [assumption|].
  intros y. destruct (in_dec string_dec y l) as [Hy | Hy].
  - apply C. rewrite <- E. assumption.
  - rewrite (count_notin _ _ Hy). lia.
Qed.

Lemma most_frequent_some l : l <> [] -> exists m, most_frequent l = Some m.
Proof. destruct l; [congruence|]. intros _. eexists. reflexivity. Qed.






(** ** Encoder *)

Lemma dummies_of_length name col : length (dummies_of name col) = nunique col.
Proof. unfold dummies_of, nunique. apply length_map. Qed.

Lemma get_dummies_every_level named name col level :
  In (name, col) named -> In level (unique_sorted (dropna col)) ->
  In (name ++ "_" ++ level, BoolCol (indicator level col)) (get_dummies named).
Proof.
  intros Hn Hl. unfold get_dummies. apply in_flat_map.
  exists (name, col). split; [exact Hn|]. unfold dummies_of. simpl.
  apply (in_map (fun level0 => (name ++ "_" ++ level0, BoolCol (indicator level0 col)))).
  exact Hl.
Qed.

(** C2.  The one-hot expansion is applied to every categorical column
    whatever its cardinality; the threshold only decides about the
    additional integer-coded column.  On a table whose [county] has 11
    distinct values and whose [gender] has 2, the combined feature table
    holds the 11 indicator columns of [county] and 'county_encoded', and for
    [gender] its 2 indicator columns only. *)
Theorem high_cardinality_column_gets_both_encodings :
  (forall named name col level,
     In (name, col) named -> In level (unique_sorted (dropna col)) ->
     In (name ++ "_" ++ level, BoolCol (indicator level col)) (get_dummies named)) /\
  nunique county = 11%nat /\
  (cardinality_threshold <? nunique county)%nat = true /\
  nunique gender = 2%nat /\
  match fst (run combined_features survey11) with
  | inr combined =>
      map fst combined =
      ["age";
       "county_Embu"; "county_Garissa"; "county_Isiolo"; "county_Kilifi";
       "county_Kwale"; "county_Lamu"; "county_Mandera"; "county_Marsabit";
       "county_Meru"; "county_Mombasa"; "county_Wajir";
       "gender_Female"; "gender_Male";
       "county_encoded"]
  | inl _ => False
  end.
Proof.
  split; [exact get_dummies_every_level|].
  vm_compute. repeat split; reflexivity.
Qed.

Lemma high_cardinality_column_gets_both_encodings_witness :
  In ("county_Mombasa", BoolCol (indicator "Mombasa" county))
     (get_dummies [("county", county); ("gender", gender)]).
Proof.
  apply (proj1 high_cardinality_column_gets_both_encodings
           [("county", county); ("gender", gender)] "county" county "Mombasa").
  - left. reflexivity.
  - vm_compute. auto 12.
Defined.

(** ** Reducer *)

Lemma searchsorted_right_le a v : (PCA.searchsorted_right a v <= length a)%nat.
Proof. induction a as [|x a IH]; simpl; [lia|]. destruct (Qle_bool x v); lia. Qed.

Lemma searchsorted_right_below a v : forall i c,
  (i < PCA.searchsorted_right a v)%nat -> nth_error a i = Some c -> c <= v.
Proof.
  induction a as [|x a IH]; intros i c Hi Hc; simpl in *; [lia|].
  destruct (Qle_bool x v) eqn:E; [|lia].
  destruct i as [|i]; simpl in Hc.
  - injection Hc as <-. apply Qle_bool_iff, E.
  - apply (IH i); [lia | exact Hc].
Qed.

Lemma searchsorted_right_above a v : forall c,
  nth_error a (PCA.searchsorted_right a v) = Some c -> v < c.
Proof.
  induction a as [|x a IH]; intros c Hc; simpl in *; [discriminate|].
  destruct (Qle_bool x v) eqn:E; simpl in Hc.
  - apply IH, Hc.
  - injection Hc as <-. destruct (Qlt_le_dec v x) as [H|H]; [exact H|].
    apply Qle_bool_iff in H. congruence.
Qed.

(** ** Score calculators *)

Lemma dropna_nil_all_none (col : list cell) :
  dropna col = [] -> forall c, In c col -> c = None.
Proof.
  induction col as [|[x|] col IH]; simpl; intros H c Hc; [tauto | discriminate |].
  destruct Hc as [<- | Hc]; auto.
Qed.

Lemma fit_feature_params col lo hi :
  nanmin col = Some lo -> nanmax col = Some hi ->
  MinMaxScaler.fit_feature col =
  let s := 1 / (if Qeq_bool (hi - lo) 0 then 1 else hi - lo) in
  MinMaxScaler.mkParams (Some lo) (Some hi) (Some s) (Some (0 - lo * s)).
Proof.
  intros El Eh. unfold MinMaxScaler.fit_feature. rewrite El, Eh. simpl.
  destruct (Qeq_bool (hi - lo) 0) eqn:E; simpl; [reflexivity|].
  rewrite E. reflexivity.
Qed.

Lemma nan_exist (col : list cell) x0 r :
  dropna col = x0 :: r ->
  exists lo hi, nanmin col = Some lo /\ nanmax col = Some hi.
Proof. intros E. unfold nanmin, nanmax. rewrite E. eauto. Qed.

Lemma transform_feature_values (col : list cell) :
  MinMaxScaler.transform_feature (MinMaxScaler.fit_feature col) col
  = map (option_map (scale_value col)) col.
Proof.
  unfold MinMaxScaler.transform_feature. apply map_ext_in. intros c Hc.
  unfold scale_value.
  destruct (dropna col) as [|x0 r] eqn:E.
  - rewrite (dropna_nil_all_none col E c Hc). reflexivity.
  - destruct (nan_exist col x0 r E) as (lo & hi & El & Eh).
    rewrite (fit_feature_params col lo hi El Eh). simpl.
    destruct c; reflexivity.
Qed.

Lemma fit_transform_map X :
  MinMaxScaler.fit_transform X
  = map (fun col => map (option_map (scale_value col)) col) X.
Proof.
  unfold MinMaxScaler.fit_transform, MinMaxScaler.fit.
  induction X as [|col X IH]; simpl; [reflexivity|].
  rewrite transform_feature_values, IH. reflexivity.
Qed.

Lemma nan_bounds col x :
  In (Some x) col ->
  exists lo hi, nanmin col = Some lo /\ nanmax col = Some hi /\ lo <= x <= hi.
Proof.
  intros Hx. pose proof Hx as Hd. apply In_dropna in Hd.
  destruct (nanmin col) as [lo|] eqn:El; [| unfold nanmin in El; destruct (dropna col); [destruct Hd | discriminate]].
  destruct (nanmax col) as [hi|] eqn:Eh; [| unfold nanmax in Eh; destruct (dropna col); [destruct Hd | discriminate]].
  exists lo, hi. destruct (nanmin_spec _ _ El) as [_ L]. destruct (nanmax_spec _ _ Eh) as [_ U].
  auto.
Qed.

Lemma scale_value_spec col x :
  In (Some x) col ->
  scale_value col x == normalized col x /\ 0 <= scale_value col x <= 1.
Proof.
  intros Hx. destruct (nan_bounds col x Hx) as (lo & hi & El & Eh & Hlo & Hhi).
  unfold scale_value, normalized.
  rewrite (fit_feature_params col lo hi El Eh), El, Eh. simpl.
  destruct (Qeq_bool (hi - lo) 0) eqn:E.
  - apply Qeq_bool_iff in E.
    assert (Ex : x - lo == 0) by lra.
    assert (En : (x - lo) / (hi - lo) == 0).
    { unfold Qdiv. rewrite Ex. ring. }
    rewrite En.
    setoid_replace (x * (1 / 1) + (0 - lo * (1 / 1))) with (x - lo) by field.
    rewrite Ex. split; [reflexivity | lra].
  - assert (Hlt : lo < hi).
    { destruct (Qlt_le_dec lo hi) as [|Hle]; [assumption|]. exfalso.
      assert (Hz : hi - lo == 0) by lra. apply Qeq_bool_iff in Hz. congruence. }
    rewrite (scaled_value lo hi x Hlt). split; [reflexivity|].
    apply unit_interval; assumption.
Qed.



Lemma of_nat_pos k : 0 < of_nat (S k).
Proof. unfold of_nat, Qlt. simpl. lia. Qed.








Lemma nth_weighted w1 w2 (a b : list cell) i :
  length a = length b ->
  nth i (weighted w1 w2 a b) None
  = fadd (fmul (Some w1) (nth i a None)) (fmul (Some w2) (nth i b None)).
Proof.
  intros H. unfold weighted.
  change (@None Q) with
    ((fun p : cell * cell => fadd (fmul (Some w1) (fst p)) (fmul (Some w2) (snd p)))
       (None, None)) at 1.
  rewrite map_nth, combine_nth by exact H. reflexivity.
Qed.

Lemma weighted_length w1 w2 (a b : list cell) :
  length a = length b -> length (weighted w1 w2 a b) = length a.
Proof. intros H. unfold weighted. rewrite length_map, length_combine, H. lia. Qed.

Lemma nth_option_map {A B} (f : A -> B) (l : list (option A)) i :
  nth i (map (option_map f) l) None = option_map f (nth i l None).
Proof. apply (map_nth (option_map f) l None). Qed.

(** C8, as the code has it.  With a categorical 'education' column and a
    numeric 'quintile' column free of missing entries, the literacy
    calculator never raises.  A respondent whose education value is not a
    key of the lookup gets a missing (NaN) score; every other respondent
    gets 0.6 times the normalized ordinal education value plus 0.4 times the
    normalized quintile, a value in [0,1]. *)
Theorem literacy_score_maps_unknown_levels_to_nan :
  forall (data processed_data : DataFrame) (edu : list (option string))
         (quintile : list Q) (n : nat),
    index_len data = n -> index_len processed_data = n -> (0 < n)%nat ->
    lookup "education" (cols data) = Some (CatCol edu) ->
    lookup "quintile" (cols data) = Some (NumCol (map Some quintile)) ->
    length edu = n -> length quintile = n ->
    exists score : list cell,
      run (calculate_financial_literacy_score data) processed_data
      = (inr tt,
         mkFrame n (replace_or_append "financial_literacy_score"
                      (NumCol score) (cols processed_data))) /\
      length score = n /\
      forall i, (i < n)%nat ->
        match nth i (mapped_education edu) None with
        | Some level =>
            exists y, nth i score None = Some y /\
              y == (6 # 10) * normalized (mapped_education edu) level
                   + (4 # 10) * normalized (map Some quintile) (nth i quintile 0) /\
              0 <= y <= 1
        | None => nth i score None = None
        end.
Proof.
  intros data pd edu qv n Hn Hp Hpos He Hq Le Lq.
  set (me := mapped_education edu).
  assert (Lme : length me = n) by (unfold me, mapped_education; simpl; rewrite length_map; exact Le).
  set (a := map (option_map (scale_value me)) me).
  set (b := map (option_map (scale_value (map Some qv))) (map Some qv)).
  assert (Lab : length a = length b) by (unfold a, b; rewrite !length_map; lia).
  exists (weighted education_weight income_weight a b).
  split; [|split].
  - unfold calculate_financial_literacy_score, getitem. py_simpl.
    rewrite He. py_simpl. fold (mapped_education edu). fold me.
    unfold check_array at 1. simpl to_floats. cbv iota.
    rewrite Hn. simpl Nat.eqb. destruct n as [|n']; [lia|]. simpl Nat.eqb. cbv iota.
    simpl andb. cbv iota. py_simpl.
    rewrite Hq. py_simpl.
    unfold check_array. simpl to_floats. cbv iota. simpl Nat.eqb. cbv iota.
    simpl andb. cbv iota. py_simpl.
    rewrite !fit_transform_map. simpl hd. fold a. fold b.
    unfold setitem. simpl col_length. rewrite weighted_length by exact Lab.
    unfold a. rewrite length_map, Lme, Hp, Nat.eqb_refl. py_simpl. reflexivity.
  - rewrite weighted_length by exact Lab. unfold a. rewrite length_map. exact Lme.
  - intros i Hi. rewrite nth_weighted by exact Lab.
    unfold a, b. rewrite !nth_option_map.
    rewrite (nth_indep (map Some qv) None (Some 0)) by (rewrite length_map; lia).
    rewrite (map_nth Some qv 0). simpl option_map.
    destruct (nth i me None) as [level|] eqn:El; [|reflexivity].
    assert (Hin : In (Some level) me).
    { rewrite <- El. apply nth_In. lia. }
    assert (Hinq : In (Some (nth i qv 0)) (map Some qv)).
    { apply in_map. apply nth_In. lia. }
    destruct (scale_value_spec me level Hin) as (E1 & L1 & U1).
    destruct (scale_value_spec (map Some qv) (nth i qv 0) Hinq) as (E2 & L2 & U2).
    simpl. eexists. split; [reflexivity|].
    unfold education_weight, income_weight.
    split; [rewrite E1, E2; reflexivity | lra].
Qed.

Lemma literacy_score_maps_unknown_levels_to_nan_witness :
  exists score : list cell,
    run (calculate_financial_literacy_score survey3) reduced3
    = (inr tt,
       mkFrame 3 (replace_or_append "financial_literacy_score"
                    (NumCol score) (cols reduced3))) /\
    length score = 3%nat /\
    nth 1 score None = None.
Proof.
  destruct (literacy_score_maps_unknown_levels_to_nan survey3 reduced3
              [Some "Primary"; Some "PhD"; Some "University"] [1; 3; 5] 3)
    as (score & Hrun & Hlen & Hrow); try reflexivity; try lia.
  exists score. split; [exact Hrun|]. split; [exact Hlen|].
  apply (Hrow 1%nat). lia.
Defined.

(** C8 as stated fails: with the education value "PhD", which is not a key
    of the lookup, the calculator returns normally and stores NaN for that
    respondent. *)
Lemma literacy_accepts_unknown_level :
  lookup "education" (cols survey3)
    = Some (CatCol [Some "Primary"; Some "PhD"; Some "University"]) /\
  education_mapping "PhD" = None /\
  fst (run (calculate_financial_literacy_score survey3) reduced3) = inr tt /\
  option_map canon_column
    (lookup "financial_literacy_score"
       (cols (snd (run (calculate_financial_literacy_score survey3) reduced3))))
  = Some (NumCol [Some 0; None; Some 1]).
Proof. vm_compute. repeat split; reflexivity. Qed.

(** ** Exclusion clusterer *)

Lemma fit_n_features lloyd d rows m :
  KMeans.fit lloyd d rows = inr m -> KMeans.n_features_in_ m = d.
Proof.
  unfold KMeans.fit. destruct (_ <? _)%nat; [discriminate|].
  intros H. injection H as <-. reflexivity.
Qed.

Lemma predict_wrong_width m row :
  length row <> KMeans.n_features_in_ m ->
  exists e, KMeans.predict m [row] = inl e.
Proof.
  intros H. unfold KMeans.predict.
  destruct (existsb _ _); [eexists; reflexivity|].
  simpl. destruct (Nat.eqb_spec (length row) (KMeans.n_features_in_ m)); [contradiction|].
  simpl. eexists; reflexivity.
Qed.

(** The re-query of the fitted clusterer on a table without an
    'exclusion_cluster' column. *)
Lemma cluster_raises_on_fresh_table :
  forall (B : backend) (processed_data : DataFrame),
    lookup "exclusion_cluster" (cols processed_data) = None ->
    exists e, fst (run (cluster_financial_exclusion B) processed_data) = inl e /\
              lookup "financial_exclusion_label"
                (cols (snd (run (cluster_financial_exclusion B) processed_data)))
              = lookup "financial_exclusion_label" (cols processed_data).
Proof.
  intros B pd Hfresh. unfold cluster_financial_exclusion.
  py_case X Hchk; [eexists; split; reflexivity|].
  py_case km Hfit; [eexists; split; reflexivity|].
  py_case d Hset; [eexists; split; reflexivity|].
  destruct (setitem_inv _ _ _ _ Hset) as [_ Hd].
  assert (Hlab : lookup "financial_exclusion_label" (cols d)
                 = lookup "financial_exclusion_label" (cols pd)).
  { rewrite Hd. simpl. apply lookup_replace_or_append_other. discriminate. }
  py_case c Hc; [eexists; split; [reflexivity | exact Hlab]|].
  py_case cv Hcv; [eexists; split; [reflexivity | exact Hlab]|].
  py_case g He; [eexists; split; [reflexivity | exact Hlab]|].
  py_case gv Hev; [eexists; split; [reflexivity | exact Hlab]|].
  py_case i Hi; [eexists; split; [reflexivity | exact Hlab]|].
  py_case vals Hall; [eexists; split; [reflexivity | exact Hlab]|].
  assert (Hw : length (row_at None vals i) <> KMeans.n_features_in_ km).
  { pose proof (to_floats_length _ _ Hall) as L1.
    pose proof (check_array_length _ _ _ _ Hchk) as L2.
    rewrite row_at_length, (fit_n_features _ _ _ _ Hfit), L1, L2, Hd.
    simpl. rewrite (replace_or_append_fresh _ _ _ Hfresh), !length_map, length_app.
    simpl. lia. }
  destruct (predict_wrong_width km _ Hw) as [e Hp].
  rewrite Hp. py_simpl. eexists; split; [reflexivity | exact Hlab].
Qed.


(** The query on the sample table: four entries for a clusterer fitted on
    three features. *)
Example cluster_scored3 :
  fst (run (cluster_financial_exclusion sample_backend) scored3)
  = inl (ValueError "X has a different number of features than KMeans is expecting")
  /\ columns (snd (run (cluster_financial_exclusion sample_backend) scored3))
     = ["PC1"; "financial_engagement_score"; "financial_literacy_score";
        "exclusion_cluster"].
Proof. vm_compute. split; reflexivity. Qed.

(** ** Model bench: where its randomness comes from *)


Lemma with_random_state_seeded {A : Type} (s : Z) (f : Z -> A * Z) (g : Z) :
  runState (with_random_state (Some s) f) g = (fst (f s), g).
Proof. reflexivity. Qed.

(** ** Row count and row order *)

Lemma replace_or_append_Forall (P : string * column -> Prop) name c l :
  Forall P l -> (forall k, P (k, c)) -> Forall P (replace_or_append name c l).
Proof.
  intros Hl Hc. induction Hl as [|[k c0] l Hkc Hl IH]; simpl.
  - constructor; [apply Hc | constructor].
  - destruct (String.eqb k name); constructor; auto.
Qed.

Lemma setitem_wf name c df df' :
  wf_frame df -> setitem name c df = inr df' ->
  wf_frame df' /\ index_len df' = index_len df.
Proof.
  intros Hwf H. destruct (setitem_inv _ _ _ _ H) as [Hlen ->]. split; [|reflexivity].
  unfold wf_frame in *. simpl. apply replace_or_append_Forall; [exact Hwf|].
  intros k. exact Hlen.
Qed.

Lemma setitems_wf names : forall cs df df',
  wf_frame df -> setitems names cs df = inr df' ->
  wf_frame df' /\ index_len df' = index_len df.
Proof.
  induction names as [|k names IH]; intros cs df df' Hwf H; destruct cs as [|c cs];
    simpl in H; try discriminate.
  - injection H as <-. auto.
  - destruct (setitem k c df) as [|df1] eqn:E; [discriminate|].
    destruct (setitem_wf _ _ _ _ Hwf E) as [W1 L1].
    destruct (IH _ _ _ W1 H) as [W2 L2]. split; [exact W2 | congruence].
Qed.

Lemma encode_high_cardinality_cons col rest :
  encode_high_cardinality (col :: rest) =
  (data <- get ;;
   c <- liftR (getitem data col) ;;
   codes <- liftR (label_encode c) ;;
   data' <- liftR (setitem (col ++ "_encoded") (NumCol codes) data) ;;
   put data' ;;
   encode_high_cardinality rest).
Proof. reflexivity. Qed.

Lemma encode_high_cardinality_wf names : forall df r df',
  wf_frame df -> run (encode_high_cardinality names) df = (r, df') ->
  wf_frame df' /\ index_len df' = index_len df.
Proof.
  induction names as [|col names IH]; intros df r df' Hwf H.
  - simpl in H. py_simpl_in H. injection H as _ <-. auto.
  - rewrite encode_high_cardinality_cons in H. py_simpl_in H.
    destruct (getitem df col) as [|c] eqn:Ec; py_simpl_in H; [injection H as _ <-; auto|].
    destruct (label_encode c) as [|codes] eqn:El; py_simpl_in H; [injection H as _ <-; auto|].
    destruct (setitem _ _ df) as [|df1] eqn:Es; py_simpl_in H; [injection H as _ <-; auto|].
    destruct (setitem_wf _ _ _ _ Hwf Es) as [W1 L1].
    destruct (IH _ _ _ W1 H) as [W2 L2]. split; [exact W2 | congruence].
Qed.

Lemma combined_features_wf data combined data' :
  wf_frame data -> run combined_features data = (inr combined, data') ->
  wf_frame data' /\ index_len data' = index_len data.
Proof.
  intros Hwf H. unfold combined_features, impute_missing in H.
  py_inv H num Hnum. py_inv H Xn HXn. py_inv H data1 Hs1.
  py_inv H cat Hcat. py_inv H Xc HXc. py_inv H data2 Hs2.
  py_inv H cat2 Hcat2. py_inv H objs Hobjs.
  py_simpl_in H.
  match type of H with
  | context [run (encode_high_cardinality ?l) ?s] =>
      destruct (run (encode_high_cardinality l) s) as [[e | []] data3] eqn:Henc;
        [discriminate H|]
  end.
  py_inv H num3 Hnum3. py_inv H Xs HXs. py_inv H enc Henc3.
  py_simpl_in H. injection H as _ <-.
  destruct (setitems_wf _ _ _ _ Hwf Hs1) as [W1 L1].
  destruct (setitems_wf _ _ _ _ W1 Hs2) as [W2 L2].
  destruct (encode_high_cardinality_wf _ _ _ _ W2 Henc) as [W3 L3].
  split; [exact W3 | congruence].
Qed.

Lemma map_nth_seq {A} (d : A) (r : list A) :
  map (fun j => nth j r d) (seq 0 (length r)) = r.
Proof.
  apply (nth_ext _ _ d d); [rewrite length_map, length_seq; reflexivity|].
  intros n Hn. rewrite length_map, length_seq in Hn.
  rewrite (nth_indep _ d ((fun j => nth j r d) 0%nat))
    by (rewrite length_map, length_seq; exact Hn).
  rewrite (map_nth (fun j => nth j r d)), seq_nth by exact Hn. reflexivity.
Qed.

Lemma nth_map_in {A B} (f : A -> B) (l : list A) (d : A) (e : B) i :
  (i < length l)%nat -> nth i (map f l) e = f (nth i l d).
Proof.
  intros H. rewrite (nth_indep _ e (f d)) by (rewrite length_map; exact H).
  apply map_nth.
Qed.

Lemma map_fst_combine {A B} (l : list A) : forall l' : list B,
  length l = length l' -> map fst (combine l l') = l.
Proof.
  induction l as [|a l IH]; intros [|b l'] H; simpl in *; try discriminate; [reflexivity|].
  f_equal. apply IH. lia.
Qed.

Lemma map_snd_combine {A B} (l : list A) : forall l' : list B,
  length l = length l' -> map snd (combine l l') = l'.
Proof.
  induction l as [|a l IH]; intros [|b l'] H; simpl in *; try discriminate; [reflexivity|].
  f_equal. apply IH. lia.
Qed.

Lemma frame_of_rows_spec rows names pd :
  frame_of_rows rows names = inr pd ->
  index_len pd = length rows /\ wf_frame pd /\ columns pd = names /\
  to_floats (map snd (cols pd)) = inr (array_of_rows rows (length names)) /\
  forall i, (i < length rows)%nat ->
    row_at None (array_of_rows rows (length names)) i = map Some (nth i rows []).
Proof.
  unfold frame_of_rows. destruct (forallb _ rows) eqn:Hall; [|discriminate].
  intros H. injection H as <-. simpl.
  assert (Lc : length (seq 0 (length names)) = length names) by apply length_seq.
  split; [reflexivity|]. split; [|split; [|split]].
  - unfold wf_frame. simpl. apply Forall_forall. intros kc Hin.
    apply in_map_iff in Hin. destruct Hin as (jn & <- & _). simpl. apply length_map.
  - unfold columns. simpl. rewrite map_map. simpl.
    rewrite <- (map_map snd (fun x => x)), map_id.
    rewrite map_snd_combine; [reflexivity | exact Lc].
  - rewrite map_map. simpl. unfold array_of_rows.
    rewrite <- (map_map fst (fun j => NumCol (map (fun r => Some (nth j r 0)) rows))).
    rewrite map_fst_combine by exact Lc.
    generalize (seq 0 (length names)). intros l.
    induction l as [|j l IH]; simpl; [reflexivity|]. rewrite IH. reflexivity.
  - intros i Hi. unfold row_at, array_of_rows. rewrite map_map.
    assert (Hr : length (nth i rows []) = length names).
    { rewrite forallb_forall in Hall. apply Nat.eqb_eq, Hall, nth_In, Hi. }
    replace (map Some (nth i rows []))
      with (map Some (map (fun j => nth j (nth i rows []) 0) (seq 0 (length names))))
      by (rewrite <- Hr, map_nth_seq; reflexivity).
    rewrite map_map.
    apply map_ext. intros j.
    apply (nth_map_in (fun r => Some (nth j r 0)) rows [] None i Hi).
Qed.

Lemma lookup_In k c l : lookup k l = Some c -> In (k, c) l.
Proof.
  induction l as [|[k0 c0] l IH]; simpl; [discriminate|].
  destruct (String.eqb_spec k0 k) as [->|]; [|auto].
  intros H. injection H as <-. auto.
Qed.

Lemma getitems_wf df names : forall cs,
  wf_frame df -> getitems df names = inr cs ->
  Forall (fun c => col_length c = index_len df) cs.
Proof.
  induction names as [|k names IH]; intros cs Hwf H; simpl in H.
  - injection H as <-. constructor.
  - destruct (getitem df k) as [|c] eqn:Ec; [discriminate|].
    destruct (getitems df names) as [|cs'] eqn:Ecs; [discriminate|].
    injection H as <-. constructor; [|apply IH; auto].
    apply getitem_lookup, lookup_In in Ec. unfold wf_frame in Hwf.
    rewrite Forall_forall in Hwf. apply (Hwf _ Ec).
Qed.

Lemma floats_of_objects_length v : forall w,
  floats_of_objects v = inr w -> length w = length v.
Proof.
  induction v as [|x v IH]; intros w H; simpl in H.
  - injection H as <-. reflexivity.
  - destruct (float_of_object x); [discriminate|].
    destruct (floats_of_objects v) as [|w']; [discriminate|].
    injection H as <-. simpl. f_equal. apply IH. reflexivity.
Qed.

Lemma to_float_length c v : to_float c = inr v -> length v = col_length c.
Proof.
  destruct c; simpl; intros H.
  - injection H as <-. reflexivity.
  - apply floats_of_objects_length, H.
  - injection H as <-. apply length_map.
Qed.

Lemma to_floats_lengths n cs : forall X,
  Forall (fun c => col_length c = n) cs -> to_floats cs = inr X ->
  Forall (fun v => length v = n) X.
Proof.
  induction cs as [|c cs IH]; intros X Hcs H; simpl in H.
  - injection H as <-. constructor.
  - destruct (to_float c) as [|v] eqn:Ev; [discriminate|].
    destruct (to_floats cs) as [|vs] eqn:Evs; [discriminate|].
    injection H as <-. inversion Hcs; subst.
    constructor; [rewrite (to_float_length _ _ Ev); reflexivity | apply IH; auto].
Qed.

Lemma objects_of_lengths n cs : forall X,
  Forall (fun c => col_length c = n) cs -> objects_of cs = inr X ->
  Forall (fun v => length v = n) X.
Proof.
  induction cs as [|c cs IH]; intros X Hcs H; simpl in H.
  - injection H as <-. constructor.
  - destruct (object_values c) as [|v] eqn:Ev; [discriminate|].
    destruct (objects_of cs) as [|vs] eqn:Evs; [discriminate|].
    injection H as <-. inversion Hcs; subst.
    constructor; [|apply IH; auto].
    destruct c; simpl in Ev; try discriminate. injection Ev as <-. reflexivity.
Qed.

Lemma check_array_inv a n cs X :
  check_array a n cs = inr X -> to_floats cs = inr X.
Proof.
  unfold check_array. destruct (to_floats cs); [discriminate|].
  destruct (_ && _); [discriminate|].
  destruct (_ =? _)%nat; [discriminate|]. destruct (_ =? _)%nat; [discriminate|].
  auto.
Qed.

Lemma fit_transform_lengths n X :
  Forall (fun v => length v = n) X ->
  Forall (fun v => length v = n) (MinMaxScaler.fit_transform X).
Proof.
  intros H. rewrite fit_transform_map. apply Forall_map.
  eapply Forall_impl; [|exact H]. simpl. intros col Hc. rewrite length_map. exact Hc.
Qed.

Lemma Forall_combine_snd {A B} (P : B -> Prop) (l : list A) : forall l' : list B,
  Forall P l' -> Forall (fun kc => P (snd kc)) (combine l l').
Proof.
  induction l as [|a l IH]; intros l' H; simpl; [constructor|].
  destruct l' as [|b l']; [constructor|]. inversion H; subst. constructor; auto.
Qed.

Lemma get_dummies_lengths n named :
  Forall (fun kc => length (snd kc) = n) named ->
  Forall (fun kc => col_length (snd kc) = n) (get_dummies named).
Proof.
  intros H. unfold get_dummies. apply Forall_flat_map.
  eapply Forall_impl; [|exact H]. intros [k col] Hk. simpl in *.
  unfold dummies_of. apply Forall_map. apply Forall_forall. intros level _. simpl.
  unfold indicator. rewrite length_map. exact Hk.
Qed.

Lemma combined_features_lengths data combined data' :
  wf_frame data -> run combined_features data = (inr combined, data') ->
  Forall (fun kc => col_length (snd kc) = index_len data) combined.
Proof.
  intros Hwf H. unfold combined_features, impute_missing in H.
  py_inv H num Hnum. py_inv H Xn HXn. py_inv H data1 Hs1.
  py_inv H cat Hcat. py_inv H Xc HXc. py_inv H data2 Hs2.
  py_inv H cat2 Hcat2. py_inv H objs Hobjs.
  py_simpl_in H.
  match type of H with
  | context [run (encode_high_cardinality ?l) ?s] =>
      destruct (run (encode_high_cardinality l) s) as [[e | []] data3] eqn:Henc;
        [discriminate H|]
  end.
  py_inv H num3 Hnum3. py_inv H Xs HXs. py_inv H enc Henc3.
  py_simpl_in H. injection H as <- _.
  destruct (setitems_wf _ _ _ _ Hwf Hs1) as [W1 L1].
  destruct (setitems_wf _ _ _ _ W1 Hs2) as [W2 L2].
  destruct (encode_high_cardinality_wf _ _ _ _ W2 Henc) as [W3 L3].
  assert (E2 : index_len data2 = index_len data) by congruence.
  assert (E3 : index_len data3 = index_len data) by congruence.
  apply Forall_app. split; [|apply Forall_app; split].
  - apply (Forall_combine_snd (fun c => col_length c = index_len data)).
    apply Forall_map. simpl.
    apply fit_transform_lengths.
    apply check_array_inv in HXs.
    rewrite <- E3. eapply to_floats_lengths; [|exact HXs].
    eapply getitems_wf; eassumption.
  - apply get_dummies_lengths.
    apply (Forall_combine_snd (fun v => length v = index_len data)).
    rewrite <- E2. eapply objects_of_lengths; [|exact Hobjs].
    eapply getitems_wf; eassumption.
  - apply (Forall_combine_snd (fun c => col_length c = index_len data)).
    rewrite <- E3. eapply getitems_wf; eassumption.
Qed.

Lemma preprocess_rows B raw pd raw' :
  wf_frame raw ->
  run (preprocess_data B) raw = (inr pd, raw') ->
  index_len raw' = index_len raw /\ wf_frame raw' /\
  index_len pd = index_len raw /\ wf_frame pd /\
  exists combined Xc V,
    run combined_features raw = (inr combined, raw') /\
    Forall (fun kc => col_length (snd kc) = index_len raw) combined /\
    check_array false (index_len raw) (map snd combined) = inr Xc /\
    to_floats (map snd (cols pd)) = inr V /\
    forall i, (i < index_len raw)%nat ->
      row_at None V i =
      map Some (PCA.project
                  (PCA.mean_ (PCA.fit (svd B) variance_target (map dropna Xc)))
                  (PCA.axes_ (PCA.fit (svd B) variance_target (map dropna Xc)))
                  (row_at 0 (map dropna Xc) i)).
Proof.
  intros Hwf H. unfold preprocess_data in H. py_simpl_in H.
  destruct (run combined_features raw) as [[e | combined] data1] eqn:Hc;
    [discriminate H|].
  py_inv H Xc HXc.
  destruct (combined_features_wf _ _ _ Hwf Hc) as [W1 L1].
  pose proof (combined_features_lengths _ _ _ Hwf Hc) as Hlen.
  match type of H with
  | run (liftR ?r) _ = _ => destruct r as [|pd0] eqn:Hf; py_simpl_in H; [discriminate H|]
  end.
  injection H as <- <-.
  destruct (frame_of_rows_spec _ _ _ Hf) as (I & W & _ & Hv & Hrow).
  rewrite L1 in *.
  set (X := map dropna Xc) in *.
  assert (Lr : length (snd (PCA.fit_transform (svd B) variance_target (index_len raw) X))
               = index_len raw).
  { unfold PCA.fit_transform, PCA.transform, rows_of. simpl.
    rewrite !length_map, length_seq. reflexivity. }
  rewrite Lr in I, Hrow.
  split; [reflexivity|]. split; [exact W1|]. split; [exact I|]. split; [exact W|].
  exists combined, Xc. eexists. split; [reflexivity|]. split; [exact Hlen|].
  split; [exact HXc|]. split; [exact Hv|].
  intros i Hi. rewrite (Hrow i Hi). f_equal.
  unfold PCA.fit_transform, PCA.transform, rows_of. simpl snd.
  rewrite map_map.
  rewrite (nth_map_in _ (seq 0 (index_len raw)) 0%nat [] i)
    by (rewrite length_seq; exact Hi).
  rewrite seq_nth by exact Hi. reflexivity.
Qed.

Lemma sets_column name c pd pd' :
  wf_frame pd -> setitem name c pd = inr pd' ->
  index_len pd' = index_len pd /\ wf_frame pd' /\
  lookup name (cols pd') = Some c /\
  forall k, k <> name -> lookup k (cols pd') = lookup k (cols pd).
Proof.
  intros Hwf H. destruct (setitem_wf _ _ _ _ Hwf H) as [W L].
  destruct (setitem_inv _ _ _ _ H) as [_ ->]. simpl.
  split; [reflexivity|]. split; [exact W|].
  split; [apply lookup_replace_or_append_same|].
  intros k Hk. apply lookup_replace_or_append_other. exact Hk.
Qed.

Lemma nth_row_means n X i :
  (i < n)%nat -> nth i (row_means n X) None = fmean (row_at None X i).
Proof.
  intros Hi. unfold row_means.
  rewrite (nth_map_in _ (seq 0 n) 0%nat None i) by (rewrite length_seq; exact Hi).
  rewrite seq_nth by exact Hi. reflexivity.
Qed.

Lemma row_at_fit_transform X i :
  row_at None (MinMaxScaler.fit_transform X) i
  = map (fun col => option_map (scale_value col) (nth i col None)) X.
Proof.
  rewrite fit_transform_map. unfold row_at. rewrite map_map.
  apply map_ext. intros col. apply nth_option_map.
Qed.

Lemma row_means_length n X : length (row_means n X) = n.
Proof. unfold row_means. rewrite length_map, length_seq. reflexivity. Qed.

Lemma engagement_rows data pd pd' :
  wf_frame pd ->
  run (calculate_financial_engagement_score data) pd = (inr tt, pd') ->
  index_len pd' = index_len pd /\ wf_frame pd' /\
  (forall k, k <> "financial_engagement_score" ->
             lookup k (cols pd') = lookup k (cols pd)) /\
  exists ct Xt cs Xs score,
    getitems data (filter (name_matches "transaction") (columns data)) = inr ct /\
    to_floats ct = inr Xt /\
    getitems data (filter (name_matches "savings") (columns data)) = inr cs /\
    to_floats cs = inr Xs /\
    lookup "financial_engagement_score" (cols pd') = Some (NumCol score) /\
    length score = index_len data /\
    forall i, (i < index_len data)%nat ->
      nth i score None =
      fadd (fmul (Some transaction_weight)
              (fmean (map (fun col => option_map (scale_value col) (nth i col None)) Xt)))
           (fmul (Some savings_weight)
              (fmean (map (fun col => option_map (scale_value col) (nth i col None)) Xs))).
Proof.
  intros Hwf H. unfold calculate_financial_engagement_score in H.
  py_inv H ct Hct. py_inv H Xt HXt. py_inv H cs Hcs. py_inv H Xs HXs.
  py_inv H out Hset. py_simpl_in H. injection H as <-.
  destruct (sets_column _ _ _ _ Hwf Hset) as (I & W & Lk & Lo).
  split; [exact I|]. split; [exact W|]. split; [exact Lo|].
  exists ct, Xt, cs, Xs. eexists.
  split; [first [exact Hct | reflexivity]|].
  split; [exact (check_array_inv _ _ _ _ HXt)|].
  split; [first [exact Hcs | reflexivity]|].
  split; [exact (check_array_inv _ _ _ _ HXs)|].
  split; [exact Lk|].
  assert (Lw : length (row_means (index_len data) (MinMaxScaler.fit_transform Xt))
               = length (row_means (index_len data) (MinMaxScaler.fit_transform Xs)))
    by (rewrite !row_means_length; reflexivity).
  split; [rewrite weighted_length by exact Lw; apply row_means_length|].
  intros i Hi. rewrite nth_weighted by exact Lw.
  rewrite !nth_row_means by exact Hi. rewrite !row_at_fit_transform. reflexivity.
Qed.

Lemma series_map_length c : length (series_map c) = col_length c.
Proof. destruct c; simpl; apply length_map. Qed.

Lemma lookup_wf df k c :
  wf_frame df -> lookup k (cols df) = Some c -> col_length c = index_len df.
Proof.
  intros Hwf H. apply lookup_In in H. unfold wf_frame in Hwf.
  rewrite Forall_forall in Hwf. apply (Hwf _ H).
Qed.

Lemma literacy_rows data pd pd' :
  wf_frame data -> wf_frame pd ->
  run (calculate_financial_literacy_score data) pd = (inr tt, pd') ->
  index_len pd' = index_len pd /\ wf_frame pd' /\
  (forall k, k <> "financial_literacy_score" ->
             lookup k (cols pd') = lookup k (cols pd)) /\
  exists edu quintile qv score,
    lookup "education" (cols data) = Some edu /\
    lookup "quintile" (cols data) = Some quintile /\
    to_float quintile = inr qv /\
    lookup "financial_literacy_score" (cols pd') = Some (NumCol score) /\
    length score = index_len data /\
    forall i, (i < index_len data)%nat ->
      nth i score None =
      fadd (fmul (Some education_weight)
              (option_map (scale_value (series_map edu)) (nth i (series_map edu) None)))
           (fmul (Some income_weight)
              (option_map (scale_value qv) (nth i qv None))).
Proof.
  intros Hwd Hwf H. unfold calculate_financial_literacy_score in H.
  py_inv H edu He. py_inv H Xe HXe. py_inv H quintile Hq. py_inv H Xq HXq.
  py_inv H out Hset. py_simpl_in H. injection H as <-.
  destruct (sets_column _ _ _ _ Hwf Hset) as (I & W & Lk & Lo).
  apply getitem_lookup in He, Hq.
  apply check_array_inv in HXe, HXq. simpl in HXe, HXq. injection HXe as <-.
  destruct (to_float quintile) as [|qv] eqn:Hqv; [discriminate|]. injection HXq as <-.
  rewrite !fit_transform_map in Lk. simpl in Lk.
  assert (Le : length (series_map edu) = index_len data).
  { rewrite series_map_length. apply (lookup_wf _ _ _ Hwd He). }
  assert (Lq : length qv = index_len data).
  { rewrite (to_float_length _ _ Hqv). apply (lookup_wf _ _ _ Hwd Hq). }
  assert (Lab : length (map (option_map (scale_value (series_map edu))) (series_map edu))
                = length (map (option_map (scale_value qv)) qv))
    by (rewrite !length_map; congruence).
  split; [exact I|]. split; [exact W|]. split; [exact Lo|].
  exists edu, quintile, qv. eexists.
  split; [exact He|]. split; [exact Hq|]. split; [exact Hqv|].
  split; [exact Lk|].
  split; [rewrite weighted_length by exact Lab; rewrite length_map; exact Le|].
  intros i Hi. rewrite nth_weighted by exact Lab. rewrite !nth_option_map. reflexivity.
Qed.

Lemma cluster_rows B pd pd' :
  wf_frame pd ->
  run (cluster_financial_exclusion B) pd = (inr tt, pd') ->
  index_len pd' = index_len pd /\ wf_frame pd' /\
  (forall k, k <> "exclusion_cluster" -> k <> "financial_exclusion_label" ->
             lookup k (cols pd') = lookup k (cols pd)) /\
  exists X clusters c,
    to_floats (map snd (cols pd)) = inr X /\
    lookup "exclusion_cluster" (cols pd') = Some (NumCol clusters) /\
    lookup "financial_exclusion_label" (cols pd')
      = Some (BoolCol (cluster_equals c clusters)) /\
    length clusters = index_len pd /\
    forall i, (i < index_len pd)%nat ->
      nth i clusters None =
      Some (of_nat (KMeans.nearest
                      (lloyd B (rows_of 0 (index_len pd) (map dropna X)))
                      (row_at 0 (map dropna X) i))).
Proof.
  intros Hwf H. unfold cluster_financial_exclusion in H.
  py_inv H X0 Hchk. py_inv H km Hfit. py_inv H d Hset.
  py_inv H c Hc. py_inv H cv Hcv. py_inv H g He. py_inv H gv Hev.
  py_inv H i Hi. py_inv H vals Hall. py_inv H pred Hp. py_inv H lab Hlab.
  py_simpl_in H. injection H as <-.
  destruct (sets_column _ _ _ _ Hwf Hset) as (I1 & W1 & Lk1 & Lo1).
  destruct (sets_column _ _ _ _ W1 Hlab) as (I2 & W2 & Lk2 & Lo2).
  apply getitem_lookup in Hc. rewrite Lk1 in Hc. injection Hc as <-.
  simpl in Hcv. injection Hcv as <-.
  unfold KMeans.fit in Hfit. destruct (_ <? _)%nat; [discriminate|].
  injection Hfit as <-. simpl in *.
  split; [congruence|]. split; [exact W2|].
  split. { intros k K1 K2. rewrite Lo2 by exact K2. apply Lo1. exact K1. }
  exists X0. eexists. exists (hd 0%nat pred).
  split; [exact (check_array_inv _ _ _ _ Hchk)|].
  split. { rewrite Lo2 by discriminate. exact Lk1. }
  split; [exact Lk2|].
  split. { unfold rows_of. rewrite !length_map, length_seq. reflexivity. }
  intros j Hj. unfold rows_of. rewrite !map_map.
  rewrite (nth_map_in _ (seq 0 (index_len pd)) 0%nat None j)
    by (rewrite length_seq; exact Hj).
  rewrite seq_nth by exact Hj. reflexivity.
Qed.

Lemma reduced_columns B raw pd raw' :
  run (preprocess_data B) raw = (inr pd, raw') ->
  exists combined Xc,
    run combined_features raw = (inr combined, raw') /\
    check_array false (index_len raw') (map snd combined) = inr Xc /\
    columns pd =
    pc_names (PCA.n_components
                (explained_variance_ratio_ (svd B (PCA.centre (map dropna Xc))))
                variance_target).
Proof.
  intros H. unfold preprocess_data in H. py_simpl_in H.
  destruct (run combined_features raw) as [[e | combined] data1] eqn:Hc;
    [discriminate H|].
  py_inv H Xc HXc.
  match type of H with
  | run (liftR ?r) _ = _ => destruct r as [|pd0] eqn:Hf; py_simpl_in H; [discriminate H|]
  end.
  injection H as <- <-.
  destruct (frame_of_rows_spec _ _ _ Hf) as (_ & _ & Hn & _).
  exists combined, Xc. split; [reflexivity|]. split; [exact HXc|]. exact Hn.
Qed.

(** ** Exclusion clusterer: the pipeline never gets a label *)

Lemma pc_names_start k x : In x (pc_names k) -> prefix "PC" x = true.
Proof.
  unfold pc_names. intros H. apply in_map_iff in H. destruct H as (i & <- & _).
  generalize (string_of_nat (i + 1)). intros s. destruct s; reflexivity.
Qed.

Lemma lookup_absent k l : ~ In k (map fst l) -> lookup k l = None.
Proof.
  induction l as [|[k0 c0] l IH]; simpl; [reflexivity|]. intros H.
  destruct (String.eqb_spec k0 k) as [->|]; [tauto|]. apply IH. tauto.
Qed.

Lemma reduced_table_is_fresh B raw pd raw' :
  run (preprocess_data B) raw = (inr pd, raw') ->
  wf_frame pd /\ lookup "exclusion_cluster" (cols pd) = None.
Proof.
  intros H. unfold preprocess_data in H. py_simpl_in H.
  destruct (run combined_features raw) as [[e | combined] data1] eqn:Hc;
    [discriminate H|].
  py_inv H Xc HXc.
  match type of H with
  | run (liftR ?r) _ = _ => destruct r as [|pd0] eqn:Hf; py_simpl_in H; [discriminate H|]
  end.
  injection H as <- <-.
  destruct (frame_of_rows_spec _ _ _ Hf) as (_ & W & Hn & _).
  split; [exact W|]. apply lookup_absent. fold (columns pd0). rewrite Hn.
  intros Hin. apply pc_names_start in Hin. discriminate Hin.
Qed.

(** C1.  On a processed table that has no 'exclusion_cluster' column yet
    the clusterer never delivers a label: the row it re-queries the fitted
    clusterer with is read after 'exclusion_cluster' was added, so it is one
    entry wider than what the clusterer was fitted on, and the query raises;
    the label column is left as it was.  Every table the score calculators
    hand over is of that kind, so the pipeline as a whole never yields a
    labelled table. *)
Theorem cluster_requery_always_raises :
  (forall (B : backend) (processed_data : DataFrame),
     lookup "exclusion_cluster" (cols processed_data) = None ->
     exists e, fst (run (cluster_financial_exclusion B) processed_data) = inl e /\
               lookup "financial_exclusion_label"
                 (cols (snd (run (cluster_financial_exclusion B) processed_data)))
               = lookup "financial_exclusion_label" (cols processed_data)) /\
  (forall (B : backend) (raw : DataFrame), exists e, analysis B raw = inl e).
Proof.
  split; [exact cluster_raises_on_fresh_table|].
  intros B raw. unfold analysis.
  destruct (run (preprocess_data B) raw) as [[e | pd] data] eqn:Hp; [eauto|].
  destruct (reduced_table_is_fresh _ _ _ _ Hp) as [W0 F0].
  rewrite run_bind.
  destruct (run (calculate_financial_engagement_score data) pd) as [[e | []] pd1] eqn:He;
    [eauto|].
  destruct (engagement_rows _ _ _ W0 He) as (_ & W1 & K1 & _).
  rewrite run_bind.
  destruct (run (calculate_financial_literacy_score data) pd1) as [[e | []] pd2] eqn:Hl;
    [eauto|].
  assert (F2 : lookup "exclusion_cluster" (cols pd2) = None).
  { unfold calculate_financial_literacy_score in Hl.
    py_inv Hl edu Hedu. py_inv Hl Xe HXe. py_inv Hl quintile Hq. py_inv Hl Xq HXq.
    py_inv Hl out Hset. py_simpl_in Hl. injection Hl as <-.
    destruct (sets_column _ _ _ _ W1 Hset) as (_ & _ & _ & K2).
    rewrite K2 by discriminate. rewrite K1 by discriminate. exact F0. }
  destruct (cluster_raises_on_fresh_table B pd2 F2) as (e & Hr & _).
  destruct (run (cluster_financial_exclusion B) pd2) as [[e' | u] pd3];
    simpl in Hr; [eauto | discriminate Hr].
Qed.

Lemma cluster_requery_always_raises_witness :
  exists e,
    fst (run (cluster_financial_exclusion sample_backend) scored3) = inl e /\
    lookup "financial_exclusion_label"
      (cols (snd (run (cluster_financial_exclusion sample_backend) scored3)))
    = lookup "financial_exclusion_label" (cols scored3).
Proof.
  apply (proj1 cluster_requery_always_raises sample_backend scored3). reflexivity.
Defined.

(** ** Imputer: the table as a whole *)

Lemma transform_length_le {A} (stats : list (option A)) : forall X,
  (length (transform stats X) <= length X)%nat.
Proof.
  induction stats as [|[v|] stats IH]; intros [|col X]; simpl; try lia;
    specialize (IH X); lia.
Qed.

Lemma fit_transform_full {A} (stat : list A -> option A) (X : list (list (option A))) :
  length (fit_transform stat X) = length X ->
  forall j col, nth_error X j = Some col ->
    exists m, stat (dropna col) = Some m /\
              nth_error (fit_transform stat X) j = Some (fill m col).
Proof.
  unfold fit_transform, fit. induction X as [|c X IH]; intros L j col Hj.
  - destruct j; discriminate.
  - simpl in L |- *. destruct (stat (dropna c)) as [m|] eqn:Em.
    + simpl in L. destruct j as [|j]; simpl in Hj.
      * injection Hj as <-. exists m. split; [exact Em | reflexivity].
      * apply IH; [lia | exact Hj].
    + pose proof (transform_length_le
                    (map (fun col0 => stat (dropna col0)) X) X). lia.
Qed.

Lemma setitems_length names : forall cs df df',
  setitems names cs df = inr df' -> length cs = length names.
Proof.
  induction names as [|k names IH]; intros [|c cs] df df' H; simpl in H;
    try discriminate; [reflexivity|].
  destruct (setitem k c df); [discriminate|]. simpl. f_equal. eapply IH, H.
Qed.

Lemma setitems_lookup names : forall cs df df',
  NoDup names -> setitems names cs df = inr df' ->
  (forall k, ~ In k names -> lookup k (cols df') = lookup k (cols df)) /\
  (forall j k c, nth_error names j = Some k -> nth_error cs j = Some c ->
                 lookup k (cols df') = Some c).
Proof.
  induction names as [|k0 names IH]; intros [|c0 cs] df df' Hnd H; simpl in H;
    try discriminate.
  - injection H as <-. split; [reflexivity|]. intros [|j]; discriminate.
  - destruct (setitem k0 c0 df) as [|df1] eqn:E; [discriminate|].
    inversion Hnd as [|? ? Hni Hnd']; subst.
    destruct (IH _ _ _ Hnd' H) as [Ho Hs].
    destruct (setitem_inv _ _ _ _ E) as [_ E1].
    split.
    + intros k Hk. simpl in Hk. rewrite Ho by tauto. rewrite E1. simpl.
      apply lookup_replace_or_append_other. intros ->. tauto.
    + intros [|j] k c Hk Hc; simpl in Hk, Hc.
      * injection Hk as <-. injection Hc as <-. rewrite Ho by exact Hni.
        rewrite E1. simpl. apply lookup_replace_or_append_same.
      * apply (Hs j); assumption.
Qed.

Lemma getitems_nth df names : forall cs,
  getitems df names = inr cs ->
  forall j k, nth_error names j = Some k ->
    exists c, nth_error cs j = Some c /\ lookup k (cols df) = Some c.
Proof.
  induction names as [|k0 names IH]; intros cs H j k Hj; simpl in H.
  - destruct j; discriminate.
  - destruct (getitem df k0) as [|c0] eqn:Ec; [discriminate|].
    destruct (getitems df names) as [|cs'] eqn:Ecs; [discriminate|].
    injection H as <-. destruct j as [|j]; simpl in Hj |- *.
    + injection Hj as <-. exists c0. split; [reflexivity | apply getitem_lookup, Ec].
    + apply (IH cs' eq_refl j k Hj).
Qed.

Lemma to_floats_nth cs : forall X,
  to_floats cs = inr X ->
  forall j col, nth_error cs j = Some (NumCol col) -> nth_error X j = Some col.
Proof.
  induction cs as [|c cs IH]; intros X H j col Hj; simpl in H.
  - destruct j; discriminate.
  - destruct (to_float c) as [|v] eqn:Ev; [discriminate|].
    destruct (to_floats cs) as [|vs] eqn:Evs; [discriminate|].
    injection H as <-. destruct j as [|j]; simpl in Hj |- *.
    + injection Hj as ->. simpl in Ev. congruence.
    + apply (IH vs eq_refl j col Hj).
Qed.

Lemma objects_of_nth cs : forall X,
  objects_of cs = inr X ->
  forall j col, nth_error cs j = Some (CatCol col) -> nth_error X j = Some col.
Proof.
  induction cs as [|c cs IH]; intros X H j col Hj; simpl in H.
  - destruct j; discriminate.
  - destruct (object_values c) as [|v] eqn:Ev; [discriminate|].
    destruct (objects_of cs) as [|vs] eqn:Evs; [discriminate|].
    injection H as <-. destruct j as [|j]; simpl in Hj |- *.
    + injection Hj as ->. simpl in Ev. congruence.
    + apply (IH vs eq_refl j col Hj).
Qed.

Lemma getitems_length df names : forall cs,
  getitems df names = inr cs -> length cs = length names.
Proof.
  induction names as [|k names IH]; intros cs H; simpl in H.
  - injection H as <-. reflexivity.
  - destruct (getitem df k); [discriminate|].
    destruct (getitems df names) as [|cs'] eqn:E; [discriminate|].
    injection H as <-. simpl. f_equal. apply IH. reflexivity.
Qed.

Lemma objects_of_length cs : forall X, objects_of cs = inr X -> length X = length cs.
Proof.
  induction cs as [|c cs IH]; intros X H; simpl in H.
  - injection H as <-. reflexivity.
  - destruct (object_values c); [discriminate|].
    destruct (objects_of cs); [discriminate|].
    injection H as <-. simpl. f_equal. apply IH. reflexivity.
Qed.

Lemma keys_unique (l : list (string * column)) k c1 c2 :
  NoDup (map fst l) -> In (k, c1) l -> In (k, c2) l -> c1 = c2.
Proof.
  induction l as [|[k0 c0] l IH]; simpl; intros Hnd H1 H2; [tauto|].
  inversion Hnd as [|? ? Hni Hnd']; subst.
  destruct H1 as [H1 | H1], H2 as [H2 | H2].
  - congruence.
  - injection H1 as -> ->. exfalso. apply Hni. apply (in_map fst _ _ H2).
  - injection H2 as -> ->. exfalso. apply Hni. apply (in_map fst _ _ H1).
  - apply IH; assumption.
Qed.

Lemma select_dtypes_NoDup p df : NoDup (columns df) -> NoDup (select_dtypes p df).
Proof.
  unfold columns, select_dtypes. induction (cols df) as [|[k c] l IH]; simpl; intros H.
  - constructor.
  - inversion H as [|? ? Hni Hnd]; subst. destruct (p c); simpl; [|auto].
    constructor; [|auto]. intros Hin. apply Hni.
    apply in_map_iff in Hin. destruct Hin as ([k' c'] & Hk & Hin). simpl in Hk. subst k'.
    apply filter_In in Hin. apply (in_map fst _ _ (proj1 Hin)).
Qed.

Lemma select_dtypes_In p df k c :
  lookup k (cols df) = Some c -> p c = true -> In k (select_dtypes p df).
Proof.
  intros H Hp. apply lookup_In in H. unfold select_dtypes.
  apply (in_map fst _ (k, c)). apply filter_In. split; [exact H | exact Hp].
Qed.

Lemma select_dtypes_other p df k c :
  NoDup (columns df) -> lookup k (cols df) = Some c -> p c = false ->
  ~ In k (select_dtypes p df).
Proof.
  intros Hnd H Hp Hin. apply lookup_In in H. unfold select_dtypes in Hin.
  apply in_map_iff in Hin. destruct Hin as ([k' c'] & Hk & Hin). simpl in Hk. subst k'.
  apply filter_In in Hin. destruct Hin as [Hin Hpc]. simpl in Hpc.
  rewrite (keys_unique _ _ _ _ Hnd Hin H) in Hpc. congruence.
Qed.

Lemma impute_missing_columns data data' :
  NoDup (columns data) ->
  run (impute_missing (select_dtypes is_numeric data) (select_dtypes is_object data)) data
    = (inr tt, data') ->
  (forall k col, lookup k (cols data) = Some (NumCol col) ->
     exists m, median (dropna col) = Some m /\
               lookup k (cols data') = Some (NumCol (fill m col))) /\
  (forall k col, lookup k (cols data) = Some (CatCol col) ->
     exists c, most_frequent (dropna col) = Some c /\
               lookup k (cols data') = Some (CatCol (fill c col))).
Proof.
  intros Hnd H. unfold impute_missing in H.
  py_inv H num Hnum. py_inv H Xn HXn. py_inv H data1 Hs1.
  py_inv H cat Hcat. py_inv H Xc HXc. py_inv H data2 Hs2.
  py_simpl_in H. injection H as <-.
  pose proof (select_dtypes_NoDup is_numeric data Hnd) as Nn.
  pose proof (select_dtypes_NoDup is_object data Hnd) as Nc.
  destruct (setitems_lookup _ _ _ _ Nn Hs1) as [O1 S1].
  destruct (setitems_lookup _ _ _ _ Nc Hs2) as [O2 S2].
  apply check_array_inv in HXn.
  assert (HXc' : objects_of cat = inr Xc).
  { unfold check_objects in HXc. destruct (objects_of cat); [discriminate|].
    destruct (_ =? _)%nat; [discriminate|]. destruct (_ =? _)%nat; [discriminate|].
    exact HXc. }
  pose proof (setitems_length _ _ _ _ Hs1) as L1. rewrite length_map in L1.
  pose proof (setitems_length _ _ _ _ Hs2) as L2. rewrite length_map in L2.
  split.
  - intros k col Hk.
    pose proof (select_dtypes_In is_numeric data k _ Hk eq_refl) as Hin.
    apply In_nth_error in Hin. destruct Hin as [j Hj].
    destruct (getitems_nth _ _ _ Hnum j k Hj) as (c & Hc & Hl).
    rewrite Hk in Hl. injection Hl as <-.
    pose proof (to_floats_nth _ _ HXn j col Hc) as HX.
    destruct (fit_transform_full median Xn) with (j := j) (col := col) as (m & Hm & Ho);
      [| exact HX |].
    { rewrite L1, (to_floats_length _ _ HXn). symmetry. apply (getitems_length _ _ _ Hnum). }
    exists m. split; [exact Hm|].
    rewrite O2 by (apply (select_dtypes_other is_object data k (NumCol col) Hnd Hk eq_refl)).
    apply (S1 j); [exact Hj|]. rewrite nth_error_map, Ho. reflexivity.
  - intros k col Hk.
    pose proof (select_dtypes_In is_object data k _ Hk eq_refl) as Hin.
    apply In_nth_error in Hin. destruct Hin as [j Hj].
    destruct (getitems_nth _ _ _ Hcat j k Hj) as (c & Hc & Hl).
    rewrite O1 in Hl
      by (apply (select_dtypes_other is_numeric data k (CatCol col) Hnd Hk eq_refl)).
    rewrite Hk in Hl. injection Hl as <-.
    pose proof (objects_of_nth _ _ HXc' j col Hc) as HX.
    destruct (fit_transform_full most_frequent Xc) with (j := j) (col := col)
      as (m & Hm & Ho); [| exact HX |].
    { rewrite L2, (objects_of_length _ _ HXc'). symmetry.
      apply (getitems_length _ _ _ Hcat). }
    exists m. split; [exact Hm|].
    apply (S2 j); [exact Hj|]. rewrite nth_error_map, Ho. reflexivity.
Qed.



(** ** Score calculators: what makes them raise *)

Lemma check_array_no_features a n : exists e, check_array a n [] = inl e.
Proof.
  unfold check_array. simpl. rewrite andb_false_r.
  destruct (n =? 0)%nat; eexists; reflexivity.
Qed.


(** The next fallible call of a run that ended in an exception: either it
    raised, and the state is the one it was handed, or it returned. *)
Ltac py_fail H :=
  py_simpl_in H;
  match type of H with
  | context [run (liftR ?r) _] =>
      destruct r eqn:?; py_simpl_in H; [congruence|]
  end.

(** X1.  The two score calculators write their column last: when one of
    them raises, the processed table is exactly as it was handed over. *)
Theorem score_calculators_write_nothing_on_failure :
  forall (data processed_data processed_data' : DataFrame) (e : pyerr),
    run (calculate_financial_engagement_score data) processed_data
      = (inl e, processed_data') \/
    run (calculate_financial_literacy_score data) processed_data
      = (inl e, processed_data') ->
    processed_data' = processed_data.
Proof.
  intros data pd pd' e [H | H].
  - unfold calculate_financial_engagement_score in H.
    py_fail H. py_fail H. py_fail H. py_fail H. py_fail H.
    py_simpl_in H. discriminate H.
  - unfold calculate_financial_literacy_score in H.
    py_fail H. py_fail H. py_fail H. py_fail H. py_fail H.
    py_simpl_in H. discriminate H.
Qed.

Lemma score_calculators_write_nothing_on_failure_witness :
  snd (run (calculate_financial_engagement_score survey3_text_savings) reduced3) = reduced3.
Proof.
  apply (score_calculators_write_nothing_on_failure survey3_text_savings reduced3 _
           (ValueError "could not convert string to float")).
  left. vm_compute. reflexivity.
Defined.

(** X2.  The engagement calculator selects its columns by name: a raw table
    without a column whose lower-cased name contains "transaction", or
    without one containing "savings", makes it raise (the normalizer is
    handed an array without features) and no score is written. *)
Theorem engagement_needs_matching_columns :
  forall (data processed_data : DataFrame),
    filter (name_matches "transaction") (columns data) = [] \/
    filter (name_matches "savings") (columns data) = [] ->
    exists e,
      run (calculate_financial_engagement_score data) processed_data
      = (inl e, processed_data).
Proof.
  intros data pd H. unfold calculate_financial_engagement_score.
  destruct H as [H | H].
  - rewrite H. simpl getitems. py_simpl.
    destruct (check_array_no_features true (index_len data)) as [e He].
    rewrite He. py_simpl. eexists; reflexivity.
  - py_case ct Hct; [eexists; reflexivity|].
    py_case Xt HXt; [eexists; reflexivity|].
    rewrite H. simpl getitems. py_simpl.
    destruct (check_array_no_features true (index_len data)) as [e He].
    rewrite He. py_simpl. eexists; reflexivity.
Qed.

Lemma engagement_needs_matching_columns_witness :
  exists e,
    run (calculate_financial_engagement_score survey5) reduced5 = (inl e, reduced5).
Proof.
  apply (engagement_needs_matching_columns survey5 reduced5).
  left. reflexivity.
Defined.




(** ** Preprocessing: tables it cannot handle *)

Lemma check_objects_no_features n : exists e, check_objects n [] = inl e.
Proof.
  unfold check_objects. simpl. destruct (n =? 0)%nat; eexists; reflexivity.
Qed.

Lemma transform_drops {A} (stats : list (option A)) : forall X j,
  nth_error stats j = Some None -> (j < length X)%nat ->
  (length (transform stats X) < length X)%nat.
Proof.
  induction stats as [|s ss IH]; intros X j Hj Hlt; [destruct j; discriminate|].
  destruct X as [|col X]; [simpl in Hlt; lia|].
  destruct j as [|j].
  - injection Hj as ->. simpl. pose proof (transform_length_le ss X). lia.
  - simpl in Hj, Hlt. assert (Hlt' : (j < length X)%nat) by lia.
    specialize (IH X j Hj Hlt').
    destruct s; simpl; lia.
Qed.

Lemma fit_transform_drops {A} (stat : list A -> option A) X j col :
  nth_error X j = Some col -> stat (dropna col) = None ->
  (length (fit_transform stat X) < length X)%nat.
Proof.
  intros Hj Hs. unfold fit_transform, fit.
  apply (transform_drops _ X j).
  - rewrite nth_error_map, Hj. simpl. rewrite Hs. reflexivity.
  - apply nth_error_Some. rewrite Hj. discriminate.
Qed.

Lemma setitems_too_few names cs df :
  length cs <> length names -> exists e, setitems names cs df = inl e.
Proof.
  intros H. destruct (setitems names cs df) as [e | df'] eqn:E; [eexists; reflexivity|].
  apply setitems_length in E. contradiction.
Qed.

Lemma In_select_dtypes_nth p df k c :
  lookup k (cols df) = Some c -> p c = true ->
  exists j, nth_error (select_dtypes p df) j = Some k.
Proof.
  intros Hl Hp. apply In_nth_error. eapply select_dtypes_In; eassumption.
Qed.

Lemma median_nil : median [] = None.
Proof. reflexivity. Qed.

(** The numeric imputation of a table one of whose numeric columns has no
    observed entry. *)
Lemma numeric_imputation_raises raw k col :
  lookup k (cols raw) = Some (NumCol col) -> dropna col = [] ->
  exists e, run combined_features raw = (inl e, raw).
Proof.
  intros Hl Hd. unfold combined_features, impute_missing.
  py_case num Hnum; [eexists; reflexivity|].
  py_case Xn HXn; [eexists; reflexivity|].
  destruct (In_select_dtypes_nth is_numeric raw k _ Hl eq_refl) as [j Hj].
  destruct (getitems_nth _ _ _ Hnum j k Hj) as (c & Hc & Hlc).
  assert (c = NumCol col) by congruence. subst c.
  pose proof (to_floats_nth _ _ (check_array_inv _ _ _ _ HXn) j col Hc) as HX.
  assert (Hlt : (length (fit_transform median Xn) < length Xn)%nat).
  { apply (fit_transform_drops median Xn j col HX). rewrite Hd. reflexivity. }
  destruct (setitems_too_few (select_dtypes is_numeric raw)
              (map NumCol (fit_transform median Xn)) raw) as [e He].
  { rewrite length_map, <- (getitems_length _ _ _ Hnum),
      <- (check_array_length _ _ _ _ HXn). lia. }
  rewrite He. py_simpl. eexists; reflexivity.
Qed.

Lemma most_frequent_nil : most_frequent [] = None.
Proof. reflexivity. Qed.

Lemma categorical_imputation_raises raw k col :
  NoDup (columns raw) ->
  lookup k (cols raw) = Some (CatCol col) -> dropna col = [] ->
  exists e, fst (run combined_features raw) = inl e.
Proof.
  intros Hnd Hl Hd. unfold combined_features, impute_missing.
  py_case num Hnum; [eexists; reflexivity|].
  py_case Xn HXn; [eexists; reflexivity|].
  py_case data1 Hs1; [eexists; reflexivity|].
  py_case cat Hcat; [eexists; reflexivity|].
  py_case Xc HXc; [eexists; reflexivity|].
  destruct (In_select_dtypes_nth is_object raw k _ Hl eq_refl) as [j Hj].
  destruct (getitems_nth _ _ _ Hcat j k Hj) as (c & Hc & Hlc).
  destruct (setitems_lookup _ _ _ _ (select_dtypes_NoDup is_numeric raw Hnd) Hs1)
    as [Hother _].
  rewrite (Hother k) in Hlc
    by (eapply select_dtypes_other; [exact Hnd | exact Hl | reflexivity]).
  assert (c = CatCol col) by congruence. subst c.
  assert (Hobj : objects_of cat = inr Xc).
  { unfold check_objects in HXc. destruct (objects_of cat); [discriminate|].
    destruct (_ =? 0)%nat; [discriminate|]. destruct (_ =? 0)%nat; [discriminate|].
    congruence. }
  pose proof (objects_of_nth _ _ Hobj j col Hc) as HX.
  assert (Hlt : (length (fit_transform most_frequent Xc) < length Xc)%nat).
  { apply (fit_transform_drops most_frequent Xc j col HX). rewrite Hd. reflexivity. }
  destruct (setitems_too_few (select_dtypes is_object raw)
              (map CatCol (fit_transform most_frequent Xc)) data1) as [e He].
  { rewrite length_map, <- (getitems_length _ _ _ Hcat),
      <- (objects_of_length _ _ Hobj). lia. }
  rewrite He. py_simpl. eexists; reflexivity.
Qed.

Lemma preprocess_fails_with_features B raw e s :
  run combined_features raw = (inl e, s) ->
  run (preprocess_data B) raw = (inl e, s).
Proof.
  intros H. unfold preprocess_data. rewrite run_bind, H. reflexivity.
Qed.

Lemma preprocess_fails_with_features_fst B raw e :
  fst (run combined_features raw) = inl e ->
  fst (run (preprocess_data B) raw) = inl e.
Proof.
  intros H. unfold preprocess_data. rewrite run_bind.
  destruct (run combined_features raw) as [[e' | c] s]; simpl in H; [|discriminate].
  injection H as ->. reflexivity.
Qed.

(** X4.  A column without a single observed entry stops the preprocessing.
    The imputer drops such a column, so the array it returns has fewer
    columns than the frame has names to assign.  For a numeric column the
    raw table is left as it was; for a categorical one the numeric
    imputation has already been written. *)
Theorem preprocess_rejects_column_without_observations :
  forall (B : backend) (raw : DataFrame) (k : string),
    (forall col, lookup k (cols raw) = Some (NumCol col) -> dropna col = [] ->
       exists e, run (preprocess_data B) raw = (inl e, raw)) /\
    (forall col, NoDup (columns raw) ->
       lookup k (cols raw) = Some (CatCol col) -> dropna col = [] ->
       exists e, fst (run (preprocess_data B) raw) = inl e).
Proof.
  intros B raw k. split.
  - intros col Hl Hd. destruct (numeric_imputation_raises raw k col Hl Hd) as [e He].
    exists e. apply preprocess_fails_with_features. exact He.
  - intros col Hnd Hl Hd.
    destruct (categorical_imputation_raises raw k col Hnd Hl Hd) as [e He].
    exists e. apply preprocess_fails_with_features_fst. exact He.
Qed.

Lemma preprocess_rejects_column_without_observations_witness :
  (exists e, run (preprocess_data sample_backend) survey_unanswered
             = (inl e, survey_unanswered)) /\
  (exists e, fst (run (preprocess_data sample_backend) survey_unnamed) = inl e).
Proof.
  split.
  - apply (proj1 (preprocess_rejects_column_without_observations
                    sample_backend survey_unanswered "income")
                 [None; None; None]); reflexivity.
  - apply (proj2 (preprocess_rejects_column_without_observations
                    sample_backend survey_unnamed "county")
                 [None; None; None]).
    + repeat constructor; simpl; intuition discriminate.
    + reflexivity.
    + reflexivity.
Defined.

Lemma features_need_numeric raw :
  select_dtypes is_numeric raw = [] ->
  exists e, run combined_features raw = (inl e, raw).
Proof.
  intros H. unfold combined_features, impute_missing. py_simpl.
  rewrite H. simpl getitems. py_simpl.
  destruct (check_array_no_features true (index_len raw)) as [e He].
  rewrite He. py_simpl. eexists; reflexivity.
Qed.

Lemma features_need_categorical raw :
  select_dtypes is_object raw = [] ->
  exists e, fst (run combined_features raw) = inl e.
Proof.
  intros H. unfold combined_features, impute_missing.
  py_case num Hnum; [eexists; reflexivity|].
  py_case Xn HXn; [eexists; reflexivity|].
  py_case data1 Hs1; [eexists; reflexivity|].
  rewrite H. simpl getitems. py_simpl.
  destruct (check_objects_no_features (index_len data1)) as [e He].
  rewrite He. py_simpl. eexists; reflexivity.
Qed.

(** X5.  The preprocessing needs both kinds of column: on a table without
    any numeric column, or without any categorical (object) column, an
    imputer is handed an array without features and the run raises.  In the
    first case the raw table has not been touched. *)
Theorem preprocess_needs_numeric_and_categorical_columns :
  forall (B : backend) (raw : DataFrame),
    (select_dtypes is_numeric raw = [] ->
       exists e, run (preprocess_data B) raw = (inl e, raw)) /\
    (select_dtypes is_object raw = [] ->
       exists e, fst (run (preprocess_data B) raw) = inl e).
Proof.
  intros B raw. split; intros H.
  - destruct (features_need_numeric raw H) as [e He].
    exists e. apply preprocess_fails_with_features. exact He.
  - destruct (features_need_categorical raw H) as [e He].
    exists e. apply preprocess_fails_with_features_fst. exact He.
Qed.

Lemma preprocess_needs_numeric_and_categorical_columns_witness :
  (exists e, run (preprocess_data sample_backend)
                 (mkFrame 11 [("county", CatCol county); ("gender", CatCol gender)])
             = (inl e, mkFrame 11 [("county", CatCol county); ("gender", CatCol gender)])) /\
  (exists e, fst (run (preprocess_data sample_backend) scored3) = inl e).
Proof.
  split.
  - apply (proj1 (preprocess_needs_numeric_and_categorical_columns sample_backend
                    (mkFrame 11 [("county", CatCol county); ("gender", CatCol gender)]))).
    reflexivity.
  - apply (proj2 (preprocess_needs_numeric_and_categorical_columns sample_backend scored3)).
    reflexivity.
Defined.

(** ** Exclusion clusterer: the respondent with the least engagement *)

Lemma idxmin_from_spec (l : list cell) : forall best vbest i,
  let r := idxmin_from best vbest i l in
  (r = best /\ forall j w, nth_error l j = Some (Some w) -> vbest <= w) \/
  (exists j w, r = (i + j)%nat /\ nth_error l j = Some (Some w) /\ w < vbest /\
     (forall j' w', nth_error l j' = Some (Some w') -> w <= w') /\
     (forall j' w', (j' < j)%nat -> nth_error l j' = Some (Some w') -> w < w')).
Proof.
  induction l as [|[v|] l IH]; intros best vbest i; simpl.
  - left. split; [reflexivity|]. intros [|j] w H; discriminate H.
  - destruct (Qle_bool vbest v) eqn:E.
    + apply Qle_bool_iff in E.
      destruct (IH best vbest (S i)) as [[Hr Hall] | (j & w & Hr & Hj & Hlt & Hmin & Hfirst)].
      * left. split; [exact Hr|]. intros [|j] w H; simpl in H.
        -- injection H as <-. exact E.
        -- eapply Hall; exact H.
      * right. exists (S j), w. split; [rewrite Hr; lia|]. split; [exact Hj|].
        split; [exact Hlt|]. split.
        -- intros [|j'] w' H; simpl in H.
           ++ injection H as <-. apply Qlt_le_weak. eapply Qlt_le_trans; eassumption.
           ++ eapply Hmin; exact H.
        -- intros [|j'] w' Hlt' H; simpl in H.
           ++ injection H as <-. eapply Qlt_le_trans; eassumption.
           ++ eapply (Hfirst j'); [lia | exact H].
    + assert (Hv : v < vbest).
      { apply Qnot_le_lt. intros C. apply Qle_bool_iff in C. congruence. }
      right.
      destruct (IH i v (S i)) as [[Hr Hall] | (j & w & Hr & Hj & Hlt & Hmin & Hfirst)].
      * exists 0%nat, v. split; [rewrite Hr; lia|]. split; [reflexivity|].
        split; [exact Hv|]. split.
        -- intros [|j'] w' H; simpl in H.
           ++ injection H as <-. apply Qle_refl.
           ++ eapply Hall; exact H.
        -- intros j' w' Hlt'. lia.
      * exists (S j), w. split; [rewrite Hr; lia|]. split; [exact Hj|].
        split; [eapply Qlt_trans; eassumption|]. split.
        -- intros [|j'] w' H; simpl in H.
           ++ injection H as <-. apply Qlt_le_weak. exact Hlt.
           ++ eapply Hmin; exact H.
        -- intros [|j'] w' Hlt' H; simpl in H.
           ++ injection H as <-. exact Hlt.
           ++ eapply (Hfirst j'); [lia | exact H].
  - destruct (IH best vbest (S i)) as [[Hr Hall] | (j & w & Hr & Hj & Hlt & Hmin & Hfirst)].
    + left. split; [exact Hr|]. intros [|j] w H; simpl in H; [discriminate H|].
      eapply Hall; exact H.
    + right. exists (S j), w. split; [rewrite Hr; lia|]. split; [exact Hj|].
      split; [exact Hlt|]. split.
      * intros [|j'] w' H; simpl in H; [discriminate H|]. eapply Hmin; exact H.
      * intros [|j'] w' Hlt' H; simpl in H; [discriminate H|].
        eapply (Hfirst j'); [lia | exact H].
Qed.

Lemma idxmin_skip_spec (l : list cell) : forall i r,
  idxmin_skip i l = inr r ->
  exists j v, r = (i + j)%nat /\ nth_error l j = Some (Some v) /\
    (forall j' w, nth_error l j' = Some (Some w) -> v <= w) /\
    (forall j' w, (j' < j)%nat -> nth_error l j' = Some (Some w) -> v < w).
Proof.
  induction l as [|[v|] l IH]; intros i r H; simpl in H.
  - discriminate H.
  - injection H as <-.
    destruct (idxmin_from_spec l i v (S i)) as [[Hr Hall] | (j & w & Hr & Hj & Hlt & Hmin & Hfirst)].
    + exists 0%nat, v. split; [rewrite Hr; lia|]. split; [reflexivity|]. split.
      * intros [|j'] w H; simpl in H.
        -- injection H as <-. apply Qle_refl.
        -- eapply Hall; exact H.
      * intros j' w Hlt. lia.
    + exists (S j), w. split; [rewrite Hr; lia|]. split; [exact Hj|]. split.
      * intros [|j'] w' H; simpl in H.
        -- injection H as <-. apply Qlt_le_weak. exact Hlt.
        -- eapply Hmin; exact H.
      * intros [|j'] w' Hlt' H; simpl in H.
        -- injection H as <-. exact Hlt.
        -- eapply (Hfirst j'); [lia | exact H].
  - destruct (IH (S i) r H) as (j & v & Hr & Hj & Hmin & Hfirst).
    exists (S j), v. split; [rewrite Hr; lia|]. split; [exact Hj|]. split.
    + intros [|j'] w H'; simpl in H'; [discriminate H'|]. eapply Hmin; exact H'.
    + intros [|j'] w Hlt H'; simpl in H'; [discriminate H'|].
      eapply (Hfirst j'); [lia | exact H'].
Qed.

Lemma idxmin_skip_raises (l : list cell) : forall i,
  (exists e, idxmin_skip i l = inl e) <-> dropna l = [].
Proof.
  induction l as [|[v|] l IH]; intros i; simpl.
  - split; [reflexivity | intros _; eexists; reflexivity].
  - split; [intros [e H]; discriminate H | discriminate].
  - apply IH.
Qed.

(** X6.  [idxmin] on the engagement column: the position it returns holds a
    smallest observed score (missing scores are skipped), and it is the
    first position that does. *)
Theorem idxmin_is_first_smallest :
  forall (l : list cell) (r : nat),
    idxmin l = inr r ->
    exists v, nth_error l r = Some (Some v) /\
      (forall j w, nth_error l j = Some (Some w) -> v <= w) /\
      (forall j w, (j < r)%nat -> nth_error l j = Some (Some w) -> v < w).
Proof.
  intros l r H. destruct (idxmin_skip_spec l 0 r H) as (j & v & Hr & Hj & Hmin & Hfirst).
  simpl in Hr. subst r. exists v. split; [exact Hj|]. split; assumption.
Qed.

Lemma idxmin_is_first_smallest_witness :
  exists v, nth_error [Some (11 # 20); None; Some 0; Some 0] 2 = Some (Some v) /\
    (forall j w, nth_error [Some (11 # 20); None; Some 0; Some 0] j = Some (Some w) -> v <= w) /\
    (forall j w, (j < 2)%nat ->
       nth_error [Some (11 # 20); None; Some 0; Some 0] j = Some (Some w) -> v < w).
Proof.
  apply (idxmin_is_first_smallest [Some (11 # 20); None; Some 0; Some 0] 2%nat).
  reflexivity.
Defined.

(** ** Exclusion clusterer: the closest centre *)

Lemma argmin_from_spec (ds : list Q) : forall best dbest i,
  let r := KMeans.argmin_from best dbest i ds in
  (r = best /\ forall j w, nth_error ds j = Some w -> dbest <= w) \/
  (exists j w, r = (i + j)%nat /\ nth_error ds j = Some w /\ w < dbest /\
     (forall j' w', nth_error ds j' = Some w' -> w <= w') /\
     (forall j' w', (j' < j)%nat -> nth_error ds j' = Some w' -> w < w')).
Proof.
  induction ds as [|v l IH]; intros best vbest i; simpl.
  - left. split; [reflexivity|]. intros [|j] w H; discriminate H.
  - destruct (Qle_bool vbest v) eqn:E.
    + apply Qle_bool_iff in E.
      destruct (IH best vbest (S i)) as [[Hr Hall] | (j & w & Hr & Hj & Hlt & Hmin & Hfirst)].
      * left. split; [exact Hr|]. intros [|j] w H; simpl in H.
        -- injection H as <-. exact E.
        -- eapply Hall; exact H.
      * right. exists (S j), w. split; [rewrite Hr; lia|]. split; [exact Hj|].
        split; [exact Hlt|]. split.
        -- intros [|j'] w' H; simpl in H.
           ++ injection H as <-. apply Qlt_le_weak. eapply Qlt_le_trans; eassumption.
           ++ eapply Hmin; exact H.
        -- intros [|j'] w' Hlt' H; simpl in H.
           ++ injection H as <-. eapply Qlt_le_trans; eassumption.
           ++ eapply (Hfirst j'); [lia | exact H].
    + assert (Hv : v < vbest).
      { apply Qnot_le_lt. intros C. apply Qle_bool_iff in C. congruence. }
      right.
      destruct (IH i v (S i)) as [[Hr Hall] | (j & w & Hr & Hj & Hlt & Hmin & Hfirst)].
      * exists 0%nat, v. split; [rewrite Hr; lia|]. split; [reflexivity|].
        split; [exact Hv|]. split.
        -- intros [|j'] w' H; simpl in H.
           ++ injection H as <-. apply Qle_refl.
           ++ eapply Hall; exact H.
        -- intros j' w' Hlt'. lia.
      * exists (S j), w. split; [rewrite Hr; lia|]. split; [exact Hj|].
        split; [eapply Qlt_trans; eassumption|]. split.
        -- intros [|j'] w' H; simpl in H.
           ++ injection H as <-. apply Qlt_le_weak. exact Hlt.
           ++ eapply Hmin; exact H.
        -- intros [|j'] w' Hlt' H; simpl in H.
           ++ injection H as <-. exact Hlt.
           ++ eapply (Hfirst j'); [lia | exact H].
Qed.

Lemma nearest_spec (centers : list (list Q)) (x : list Q) :
  centers <> [] ->
  exists c, nth_error centers (KMeans.nearest centers x) = Some c /\
    (forall j c', nth_error centers j = Some c' ->
       KMeans.sqdist x c <= KMeans.sqdist x c') /\
    (forall j c', (j < KMeans.nearest centers x)%nat -> nth_error centers j = Some c' ->
       KMeans.sqdist x c < KMeans.sqdist x c').
Proof.
  intros Hne. destruct centers as [|c0 cs]; [contradiction|].
  unfold KMeans.nearest. simpl map.
  assert (Hd : forall j c', nth_error cs j = Some c' ->
                 nth_error (map (KMeans.sqdist x) cs) j = Some (KMeans.sqdist x c')).
  { intros j c' H. rewrite nth_error_map, H. reflexivity. }
  assert (Hd' : forall j w, nth_error (map (KMeans.sqdist x) cs) j = Some w ->
                  exists c', nth_error cs j = Some c' /\ w = KMeans.sqdist x c').
  { intros j w H. rewrite nth_error_map in H.
    destruct (nth_error cs j) as [c'|]; [|discriminate H].
    injection H as <-. exists c'. split; reflexivity. }
  destruct (argmin_from_spec (map (KMeans.sqdist x) cs) 0%nat (KMeans.sqdist x c0) 1%nat)
    as [[Hr Hall] | (j & w & Hr & Hj & Hlt & Hmin & Hfirst)].
  - rewrite Hr. exists c0. split; [reflexivity|]. split.
    + intros [|j] c' H; simpl in H.
      * injection H as <-. apply Qle_refl.
      * apply (Hall j). apply Hd. exact H.
    + intros j c' Hlt. lia.
  - rewrite Hr. destruct (Hd' j w Hj) as (c & Hc & ->).
    exists c. split; [exact Hc|]. split.
    + intros [|j'] c' H; simpl in H.
      * injection H as <-. apply Qlt_le_weak. exact Hlt.
      * apply (Hmin j'). apply Hd. exact H.
    + intros [|j'] c' Hlt' H; simpl in H.
      * injection H as <-. exact Hlt.
      * apply (Hfirst j'); [lia|]. apply Hd. exact H.
Qed.

(** X7.  The cluster ids of a fitted clusterer: every training sample is
    assigned a centre the clusterer holds, none of the centres is closer to
    the sample (squared Euclidean distance), and of equally close centres
    the first is taken. *)
Theorem kmeans_labels_are_closest_centres :
  forall (lloyd : list (list Q) -> list (list Q)) (d : nat) (rows : list (list Q))
         (m : KMeans.model),
    KMeans.fit lloyd d rows = inr m ->
    KMeans.cluster_centers_ m <> [] ->
    length (KMeans.labels_ m) = length rows /\
    forall i row, nth_error rows i = Some row ->
      exists l c,
        nth_error (KMeans.labels_ m) i = Some l /\
        nth_error (KMeans.cluster_centers_ m) l = Some c /\
        (forall j c', nth_error (KMeans.cluster_centers_ m) j = Some c' ->
           KMeans.sqdist row c <= KMeans.sqdist row c') /\
        (forall j c', (j < l)%nat -> nth_error (KMeans.cluster_centers_ m) j = Some c' ->
           KMeans.sqdist row c < KMeans.sqdist row c').
Proof.
  intros lloyd d rows m H Hne. unfold KMeans.fit in H.
  destruct (length rows <? 2)%nat; [discriminate H|].
  injection H as <-. simpl in *. split; [apply length_map|].
  intros i row Hi.
  destruct (nearest_spec (lloyd rows) row Hne) as (c & Hc & Hmin & Hfirst).
  exists (KMeans.nearest (lloyd rows) row), c.
  split; [rewrite nth_error_map, Hi; reflexivity|].
  split; [exact Hc|]. split; assumption.
Qed.

Lemma kmeans_labels_are_closest_centres_witness :
  length (KMeans.labels_ (KMeans.mkModel [[0]; [3]] 1 [0; 0; 1]%nat)) = 3%nat /\
  forall i row, nth_error [[0]; [1]; [3]] i = Some row ->
    exists l c,
      nth_error [0; 0; 1]%nat i = Some l /\
      nth_error [[0]; [3]] l = Some c /\
      (forall j c', nth_error [[0]; [3]] j = Some c' ->
         KMeans.sqdist row c <= KMeans.sqdist row c') /\
      (forall j c', (j < l)%nat -> nth_error [[0]; [3]] j = Some c' ->
         KMeans.sqdist row c < KMeans.sqdist row c').
Proof.
  apply (kmeans_labels_are_closest_centres (fun _ => [[0]; [3]]) 1 [[0]; [1]; [3]]
           (KMeans.mkModel [[0]; [3]] 1 [0; 0; 1]%nat)).
  - reflexivity.
  - discriminate.
Defined.

(** ** Exclusion clusterer: when it returns *)

Lemma has_nan_false (X : list (list cell)) :
  has_nan X = false -> forall col, In col X -> forall c, In c col -> c <> None.
Proof.
  intros H col Hc c Hin ->. unfold has_nan in H.
  assert (E : existsb (fun col => existsb isna col) X = true).
  { apply existsb_exists. exists col. split; [exact Hc|].
    apply existsb_exists. exists None. split; [exact Hin | reflexivity]. }
  congruence.
Qed.

Lemma has_nan_true (X : list (list cell)) col :
  In col X -> In None col -> has_nan X = true.
Proof.
  intros Hc Hin. apply existsb_exists. exists col. split; [exact Hc|].
  apply existsb_exists. exists None. split; [exact Hin | reflexivity].
Qed.

Lemma to_floats_In cs : forall X,
  to_floats cs = inr X -> forall c, In c cs -> exists v, to_float c = inr v /\ In v X.
Proof.
  induction cs as [|c0 cs IH]; intros X H c Hin; [contradiction|].
  simpl in H. destruct (to_float c0) as [|v0] eqn:E0; [discriminate|].
  destruct (to_floats cs) as [|vs] eqn:Es; [discriminate|].
  injection H as <-. destruct Hin as [<- | Hin].
  - exists v0. split; [exact E0 | left; reflexivity].
  - destruct (IH vs eq_refl c Hin) as (v & Hv & Hi). exists v. split; [exact Hv | right; exact Hi].
Qed.

(** The float array of a table in which one numeric column was written. *)
Lemma to_floats_replace k v (l : list (string * column)) : forall X,
  to_floats (map snd l) = inr X ->
  exists X',
    to_floats (map snd (replace_or_append k (NumCol v) l)) = inr X' /\
    length X' = match lookup k l with Some _ => length X | None => S (length X) end /\
    In v X' /\
    forall col, In col X' -> col = v \/ In col X.
Proof.
  induction l as [|[k0 c0] l IH]; intros X H; simpl in H.
  - injection H as <-. exists [v]. simpl. split; [reflexivity|]. split; [reflexivity|].
    split; [left; reflexivity|]. intros col [<- | []]. left; reflexivity.
  - destruct (to_float c0) as [|v0] eqn:E0; [discriminate|].
    destruct (to_floats (map snd l)) as [|vs] eqn:Es; [discriminate|].
    injection H as <-. simpl. destruct (String.eqb k0 k).
    + exists (v :: vs). simpl. rewrite Es. split; [reflexivity|]. split; [reflexivity|].
      split; [left; reflexivity|].
      intros col [<- | Hin]; [left; reflexivity | right; right; exact Hin].
    + destruct (IH vs eq_refl) as (X' & HX' & HL & Hv & Hin).
      exists (v0 :: X'). simpl. rewrite E0, HX'. split; [reflexivity|].
      split; [destruct (lookup k l); simpl; lia|].
      split; [right; exact Hv|].
      intros col [<- | Hc]; [right; left; reflexivity|].
      destruct (Hin col Hc) as [-> | Hc']; [left; reflexivity | right; right; exact Hc'].
Qed.

Lemma no_nan_replace (v : list cell) (X X' : list (list cell)) :
  has_nan X = false -> (forall c, In c v -> c <> None) ->
  (forall col, In col X' -> col = v \/ In col X) ->
  has_nan X' = false.
Proof.
  intros Hnan Hv Hin. destruct (has_nan X') eqn:E; [|reflexivity].
  apply existsb_exists in E. destruct E as (col & Hc & Hna).
  apply existsb_exists in Hna. destruct Hna as (c & Hcin & Hcna).
  destruct c; [discriminate Hcna|].
  destruct (Hin col Hc) as [-> | Hc'].
  - exfalso. exact (Hv None Hcin eq_refl).
  - exfalso. exact (has_nan_false X Hnan col Hc' None Hcin eq_refl).
Qed.

Lemma cluster_ids_observed (labels : list nat) :
  forall c, In c (map (fun l => Some (of_nat l)) labels) -> c <> None.
Proof.
  intros c Hc. apply in_map_iff in Hc. destruct Hc as (l & <- & _). discriminate.
Qed.

Lemma of_nat_eqb a b : Qeq_bool (of_nat a) (of_nat b) = Nat.eqb a b.
Proof.
  unfold of_nat. destruct (Nat.eqb_spec a b) as [-> | Hne].
  - apply Qeq_bool_iff. apply Qeq_refl.
  - destruct (Qeq_bool _ _) eqn:E; [|reflexivity].
    apply Qeq_bool_iff in E. unfold Qeq in E. simpl in E. lia.
Qed.

Lemma idxmin_returns (v : list cell) x :
  In (Some x) v -> exists i, idxmin v = inr i /\ (i < length v)%nat.
Proof.
  intros Hin. unfold idxmin.
  destruct (idxmin_skip 0 v) as [e | i] eqn:E.
  - assert (Hd : dropna v = []) by (apply (idxmin_skip_raises v 0); eexists; exact E).
    apply In_dropna in Hin. rewrite Hd in Hin. contradiction.
  - exists i. split; [reflexivity|].
    destruct (idxmin_skip_spec v 0 i E) as (j & w & -> & Hj & _).
    simpl. apply nth_error_Some. rewrite Hj. discriminate.
Qed.

Lemma rows_of_length {A} (d : A) n X : length (rows_of d n X) = n.
Proof. unfold rows_of. rewrite length_map, length_seq. reflexivity. Qed.

Lemma row_without_nan (X : list (list cell)) n i :
  Forall (fun col => length col = n) X -> has_nan X = false -> (i < n)%nat ->
  existsb isna (row_at None X i) = false.
Proof.
  intros Hlen Hnan Hi. unfold row_at.
  destruct (existsb isna (map (fun col => nth i col None) X)) eqn:E; [|reflexivity].
  apply existsb_exists in E. destruct E as (c & Hc & Hna).
  apply in_map_iff in Hc. destruct Hc as (col & <- & Hcol).
  assert (Hl : length col = n) by (rewrite Forall_forall in Hlen; apply Hlen; exact Hcol).
  assert (Hin : In (nth i col None) col) by (apply nth_In; lia).
  pose proof (has_nan_false X Hnan col Hcol _ Hin) as Hne.
  destruct (nth i col None); [discriminate Hna | contradiction].
Qed.

(** What a call of the clusterer does to a numeric table without missing
    entries that has an engagement column and at least two rows. *)
Lemma cluster_run_labels B pd X :
  wf_frame pd -> (2 <= index_len pd)%nat ->
  to_floats (map snd (cols pd)) = inr X -> has_nan X = false ->
  lookup "financial_engagement_score" (cols pd) <> None ->
  (forall text, lookup "financial_engagement_score" (cols pd) <> Some (CatCol text)) ->
  let rows := rows_of 0 (index_len pd) (map dropna X) in
  let labels := map (KMeans.nearest (lloyd B rows)) rows in
  let cluster := map (fun l => Some (of_nat l)) labels in
  let with_cluster :=
    mkFrame (index_len pd)
      (replace_or_append "exclusion_cluster" (NumCol cluster) (cols pd)) in
  (lookup "exclusion_cluster" (cols pd) = None ->
   run (cluster_financial_exclusion B) pd
   = (inl (ValueError "X has a different number of features than KMeans is expecting"),
      with_cluster)) /\
  (lookup "exclusion_cluster" (cols pd) <> None ->
   exists c,
     run (cluster_financial_exclusion B) pd
     = (inr tt,
        mkFrame (index_len pd)
          (replace_or_append "financial_exclusion_label"
             (BoolCol (cluster_equals c cluster)) (cols with_cluster)))).
Proof.
  intros Hwf Hn HX Hnan Heng Hobj. cbv zeta.
  set (n := index_len pd) in *.
  set (rows := rows_of 0 n (map dropna X)).
  set (labels := map (KMeans.nearest (lloyd B rows)) rows).
  assert (Ll : length labels = n).
  { unfold labels, rows. rewrite length_map. apply rows_of_length. }
  set (cluster := map (fun l => Some (of_nat l)) labels).
  assert (Lc : length cluster = n) by (unfold cluster; rewrite length_map; exact Ll).
  assert (Hcn : forall c, In c cluster -> c <> None) by apply cluster_ids_observed.
  assert (HXn : length X <> 0%nat).
  { rewrite (to_floats_length _ _ HX), length_map.
    destruct (cols pd); [contradiction Heng; reflexivity | discriminate]. }
  assert (Hchk : check_array false n (map snd (cols pd)) = inr X).
  { unfold check_array. rewrite HX, Hnan. simpl.
    destruct (Nat.eqb_spec n 0); [lia|].
    destruct (Nat.eqb_spec (length X) 0); [contradiction | reflexivity]. }
  assert (Hfit : KMeans.fit (lloyd B) (length X) rows
                 = inr (KMeans.mkModel (lloyd B rows) (length X) labels)).
  { unfold KMeans.fit. unfold rows at 1. rewrite rows_of_length.
    destruct (Nat.ltb_spec n 2); [lia | reflexivity]. }
  assert (Hset : setitem "exclusion_cluster" (NumCol cluster) pd
                 = inr (mkFrame n (replace_or_append "exclusion_cluster"
                                     (NumCol cluster) (cols pd)))).
  { unfold setitem. simpl col_length. fold n. rewrite Lc, Nat.eqb_refl. reflexivity. }
  set (with_cluster := mkFrame n (replace_or_append "exclusion_cluster"
                                    (NumCol cluster) (cols pd))) in *.
  destruct (lookup "financial_engagement_score" (cols pd)) as [eng|] eqn:Hlk;
    [clear Heng | contradiction Heng; reflexivity].
  assert (Hnum : numeric_values eng = to_float eng).
  { destruct eng as [v | text | v]; [reflexivity | | reflexivity].
    contradiction (Hobj text). reflexivity. }
  assert (Hge : getitem with_cluster "financial_engagement_score" = inr eng).
  { unfold getitem, with_cluster. simpl cols.
    rewrite lookup_replace_or_append_other by discriminate. rewrite Hlk. reflexivity. }
  destruct (to_floats_In _ _ HX eng) as (ev & Hev & HevX).
  { apply in_map_iff. exists ("financial_engagement_score", eng).
    split; [reflexivity | apply lookup_In; exact Hlk]. }
  assert (HlenX : Forall (fun v => length v = n) X).
  { eapply to_floats_lengths; [|exact HX]. apply Forall_map. exact Hwf. }
  assert (Lev : length ev = n) by (rewrite Forall_forall in HlenX; apply HlenX; exact HevX).
  destruct (idxmin_returns ev (match nth 0 ev None with Some x => x | None => 0 end))
    as (i & Hi & Hlt).
  { assert (Hin : In (nth 0 ev None) ev) by (apply nth_In; lia).
    pose proof (has_nan_false X Hnan ev HevX _ Hin) as Hne.
    destruct (nth 0 ev None); [exact Hin | contradiction]. }
  destruct (to_floats_replace "exclusion_cluster" cluster (cols pd) X HX)
    as (X' & HX' & HL' & _ & Hin').
  assert (HlenX' : Forall (fun v => length v = n) X').
  { apply Forall_forall. intros col Hc. destruct (Hin' col Hc) as [-> | Hc'];
      [exact Lc | rewrite Forall_forall in HlenX; apply HlenX; exact Hc']. }
  assert (Hnan' : has_nan X' = false) by (eapply no_nan_replace; eassumption).
  assert (Hrow : existsb isna (row_at None X' i) = false).
  { apply (row_without_nan X' n i HlenX' Hnan'). lia. }
  assert (Hlab : forall c,
            setitem "financial_exclusion_label" (BoolCol (cluster_equals c cluster)) with_cluster
            = inr (mkFrame n (replace_or_append "financial_exclusion_label"
                                (BoolCol (cluster_equals c cluster)) (cols with_cluster)))).
  { intros c. unfold setitem. simpl col_length. unfold cluster_equals.
    rewrite length_map, Lc. simpl index_len. rewrite Nat.eqb_refl. reflexivity. }
  assert (Hrun : forall k : KMeans.model -> Py DataFrame unit,
            run (cluster_financial_exclusion B) pd
            = match KMeans.predict (KMeans.mkModel (lloyd B rows) (length X) labels)
                      [row_at None X' i] with
              | inl e => (inl e, with_cluster)
              | inr predicted =>
                  (inr tt, mkFrame n (replace_or_append "financial_exclusion_label"
                                        (BoolCol (cluster_equals (hd 0%nat predicted) cluster))
                                        (cols with_cluster)))
              end).
  { intros _. unfold cluster_financial_exclusion. py_simpl. fold n.
    rewrite Hchk. py_simpl. fold rows. rewrite Hfit. py_simpl.
    simpl KMeans.labels_. fold cluster. rewrite Hset. py_simpl.
    fold with_cluster.
    assert (Hgc : getitem with_cluster "exclusion_cluster" = inr (NumCol cluster)).
    { unfold getitem, with_cluster. simpl cols.
      rewrite lookup_replace_or_append_same. reflexivity. }
    rewrite Hgc. py_simpl. simpl to_float. py_simpl.
    rewrite Hge. py_simpl. rewrite Hnum, Hev. py_simpl. rewrite Hi. py_simpl.
    unfold with_cluster at 1. simpl cols. rewrite HX'. py_simpl.
    destruct (KMeans.predict _ _) as [e | predicted]; py_simpl; [reflexivity|].
    rewrite Hlab. py_simpl. reflexivity. }
  specialize (Hrun (fun _ => ret tt)).
  unfold KMeans.predict in Hrun. simpl existsb in Hrun.
  rewrite Hrow in Hrun. simpl orb in Hrun.
  simpl forallb in Hrun. simpl KMeans.n_features_in_ in Hrun.
  rewrite row_at_length, HL' in Hrun.
  split.
  - intros Hfresh. rewrite Hfresh in Hrun.
    destruct (Nat.eqb_spec (S (length X)) (length X)); [lia|].
    simpl in Hrun. exact Hrun.
  - intros Hold. destruct (lookup "exclusion_cluster" (cols pd)); [|contradiction Hold; reflexivity].
    rewrite Nat.eqb_refl in Hrun. simpl andb in Hrun. cbv iota in Hrun.
    eexists. exact Hrun.
Qed.

Lemma cluster_run B pd X :
  wf_frame pd -> (2 <= index_len pd)%nat ->
  to_floats (map snd (cols pd)) = inr X -> has_nan X = false ->
  lookup "financial_engagement_score" (cols pd) <> None ->
  (forall text, lookup "financial_engagement_score" (cols pd) <> Some (CatCol text)) ->
  exists labels : list nat,
    length labels = index_len pd /\
    let cluster := map (fun l => Some (of_nat l)) labels in
    let with_cluster :=
      mkFrame (index_len pd)
        (replace_or_append "exclusion_cluster" (NumCol cluster) (cols pd)) in
    (lookup "exclusion_cluster" (cols pd) = None ->
     run (cluster_financial_exclusion B) pd
     = (inl (ValueError "X has a different number of features than KMeans is expecting"),
        with_cluster)) /\
    (lookup "exclusion_cluster" (cols pd) <> None ->
     exists c,
       run (cluster_financial_exclusion B) pd
       = (inr tt,
          mkFrame (index_len pd)
            (replace_or_append "financial_exclusion_label"
               (BoolCol (cluster_equals c cluster)) (cols with_cluster)))).
Proof.
  intros Hwf Hn HX Hnan Heng Hobj.
  eexists. split; [|exact (cluster_run_labels B pd X Hwf Hn HX Hnan Heng Hobj)].
  rewrite length_map. apply rows_of_length.
Qed.

(** X8.  On a table that already carries an 'exclusion_cluster' column (as a
    first call leaves it), with an engagement column of a numeric dtype, at
    least two rows and only numeric entries none of which is missing, the
    clusterer returns:
    the row it re-queries has the width the clusterer was fitted on.  The
    label is true for the respondents of one cluster id and false for the
    others. *)
Theorem cluster_returns_on_clustered_table :
  forall (B : backend) (processed_data : DataFrame) (X : list (list cell)),
    wf_frame processed_data -> (2 <= index_len processed_data)%nat ->
    to_floats (map snd (cols processed_data)) = inr X -> has_nan X = false ->
    lookup "financial_engagement_score" (cols processed_data) <> None ->
    (forall text,
       lookup "financial_engagement_score" (cols processed_data) <> Some (CatCol text)) ->
    lookup "exclusion_cluster" (cols processed_data) <> None ->
    exists (labels : list nat) (c : nat) (labelled : DataFrame),
      run (cluster_financial_exclusion B) processed_data = (inr tt, labelled) /\
      length labels = index_len processed_data /\
      lookup "exclusion_cluster" (cols labelled)
        = Some (NumCol (map (fun l => Some (of_nat l)) labels)) /\
      lookup "financial_exclusion_label" (cols labelled)
        = Some (BoolCol (map (fun l => Nat.eqb l c) labels)).
Proof.
  intros B pd X Hwf Hn HX Hnan Heng Hobj Hold.
  destruct (cluster_run B pd X Hwf Hn HX Hnan Heng Hobj) as (labels & Ll & _ & Hret).
  destruct (Hret Hold) as [c Hc].
  exists labels, c. eexists. split; [exact Hc|]. split; [exact Ll|]. simpl cols. split.
  - rewrite lookup_replace_or_append_other by discriminate.
    apply lookup_replace_or_append_same.
  - rewrite lookup_replace_or_append_same. f_equal. f_equal.
    unfold cluster_equals. rewrite map_map. apply map_ext. intros l.
    apply of_nat_eqb.
Qed.

Lemma cluster_returns_on_clustered_table_witness :
  exists (labels : list nat) (c : nat) (labelled : DataFrame),
    run (cluster_financial_exclusion sample_backend) scored3_after_first_call
      = (inr tt, labelled) /\
    length labels = index_len scored3_after_first_call /\
    lookup "exclusion_cluster" (cols labelled)
      = Some (NumCol (map (fun l => Some (of_nat l)) labels)) /\
    lookup "financial_exclusion_label" (cols labelled)
      = Some (BoolCol (map (fun l => Nat.eqb l c) labels)).
Proof.
  apply (cluster_returns_on_clustered_table sample_backend scored3_after_first_call
           [[Some (-1 # 2); Some 0; Some (1 # 2)];
            [Some 0; Some (11 # 20); Some (4 # 5)];
            [Some 0; Some (1 # 2); Some 1];
            [Some 0; Some 1; Some 1]]).
  - vm_compute. repeat constructor.
  - vm_compute. lia.
  - vm_compute. reflexivity.
  - reflexivity.
  - vm_compute. discriminate.
  - intros text. vm_compute. discriminate.
  - vm_compute. discriminate.
Defined.

(** X9.  Calling the clusterer twice.  On a freshly scored table (numeric
    columns, nothing missing, at least two rows, no 'exclusion_cluster'
    column yet)
    the first call raises after it has appended 'exclusion_cluster'; a
    second call on the table it leaves behind returns and writes the
    label. *)
Theorem cluster_second_call_returns :
  forall (B : backend) (processed_data : DataFrame) (X : list (list cell)),
    wf_frame processed_data -> (2 <= index_len processed_data)%nat ->
    to_floats (map snd (cols processed_data)) = inr X -> has_nan X = false ->
    lookup "financial_engagement_score" (cols processed_data) <> None ->
    (forall text,
       lookup "financial_engagement_score" (cols processed_data) <> Some (CatCol text)) ->
    lookup "exclusion_cluster" (cols processed_data) = None ->
    exists (e : pyerr) (after_first labelled : DataFrame),
      run (cluster_financial_exclusion B) processed_data = (inl e, after_first) /\
      columns after_first = (columns processed_data ++ ["exclusion_cluster"])%list /\
      run (cluster_financial_exclusion B) after_first = (inr tt, labelled) /\
      lookup "financial_exclusion_label" (cols labelled) <> None.
Proof.
  intros B pd X Hwf Hn HX Hnan Heng Hobj Hfresh.
  destruct (cluster_run B pd X Hwf Hn HX Hnan Heng Hobj) as (labels & Ll & Hraise & _).
  specialize (Hraise Hfresh). cbv zeta in Hraise.
  set (cluster := map (fun l => Some (of_nat l)) labels) in *.
  set (after := mkFrame (index_len pd)
                  (replace_or_append "exclusion_cluster" (NumCol cluster) (cols pd))) in *.
  destruct (to_floats_replace "exclusion_cluster" cluster (cols pd) X HX)
    as (X' & HX' & _ & _ & Hin').
  assert (Hwf' : wf_frame after).
  { unfold wf_frame, after. simpl. apply replace_or_append_Forall; [exact Hwf|].
    intros k. simpl. unfold cluster. rewrite length_map. exact Ll. }
  assert (Hnan' : has_nan X' = false).
  { eapply no_nan_replace; [exact Hnan | apply cluster_ids_observed | exact Hin']. }
  destruct (cluster_run B after X' Hwf' Hn HX' Hnan') as (labels2 & _ & _ & Hret).
  { unfold after. simpl cols. rewrite lookup_replace_or_append_other by discriminate.
    exact Heng. }
  { intros text. unfold after. simpl cols.
    rewrite lookup_replace_or_append_other by discriminate. apply Hobj. }
  destruct Hret as [c Hc].
  { unfold after. simpl cols. rewrite lookup_replace_or_append_same. discriminate. }
  eexists. exists after. eexists. split; [exact Hraise|]. split.
  - unfold after, columns. simpl cols.
    rewrite (replace_or_append_fresh _ _ _ Hfresh), map_app. reflexivity.
  - split; [exact Hc|]. simpl cols. rewrite lookup_replace_or_append_same. discriminate.
Qed.

Lemma cluster_second_call_returns_witness :
  exists (e : pyerr) (after_first labelled : DataFrame),
    run (cluster_financial_exclusion sample_backend) scored3 = (inl e, after_first) /\
    columns after_first = (columns scored3 ++ ["exclusion_cluster"])%list /\
    run (cluster_financial_exclusion sample_backend) after_first = (inr tt, labelled) /\
    lookup "financial_exclusion_label" (cols labelled) <> None.
Proof.
  apply (cluster_second_call_returns sample_backend scored3
           [[Some (-1 # 2); Some 0; Some (1 # 2)];
            [Some 0; Some (11 # 20); Some (4 # 5)];
            [Some 0; Some (1 # 2); Some 1]]).
  - vm_compute. repeat constructor.
  - vm_compute. lia.
  - reflexivity.
  - reflexivity.
  - vm_compute. discriminate.
  - intros text. vm_compute. discriminate.
  - reflexivity.
Defined.

(** X10.  An education level outside the lookup stops the clusterer.  The
    literacy calculator returns with a missing score for that respondent
    (on a processed table of numeric columns), and the clusterer, handed the
    table, raises on the missing entry before it writes anything. *)
Theorem unknown_education_level_stops_clustering :
  forall (B : backend) (data processed_data scored : DataFrame)
         (X : list (list cell)) (edu : list (option string)) (i : nat) (s : string),
    wf_frame data -> wf_frame processed_data ->
    to_floats (map snd (cols processed_data)) = inr X ->
    lookup "education" (cols data) = Some (CatCol edu) ->
    nth_error edu i = Some (Some s) -> education_mapping s = None ->
    run (calculate_financial_literacy_score data) processed_data = (inr tt, scored) ->
    run (cluster_financial_exclusion B) scored
    = (inl (ValueError "Input contains NaN"), scored).
Proof.
  intros B data pd pd' X edu i s Hwd Hwf HX Hedu Hi Hs Hrun.
  destruct (literacy_rows data pd pd' Hwd Hwf Hrun)
    as (_ & _ & _ & ec & qc & qv & score & Hec & _ & _ & Hsc & Lsc & Hrows).
  assert (ec = CatCol edu) by congruence. subst ec.
  assert (Hlt : (i < index_len data)%nat).
  { rewrite <- (lookup_wf data "education" _ Hwd Hedu). simpl.
    apply nth_error_Some. rewrite Hi. discriminate. }
  assert (Hnone : nth i score None = None).
  { rewrite (Hrows i Hlt). simpl series_map.
    rewrite (nth_map_in _ edu None None i)
      by (apply nth_error_Some; rewrite Hi; discriminate).
    rewrite (nth_error_nth _ _ _ Hi), Hs. reflexivity. }
  unfold calculate_financial_literacy_score in Hrun.
  py_inv Hrun e1 He1. py_inv Hrun Xe HXe. py_inv Hrun q1 Hq1. py_inv Hrun Xq HXq.
  py_inv Hrun pd1 Hset. py_simpl_in Hrun. injection Hrun as <-.
  destruct (setitem_inv _ _ _ _ Hset) as [_ Hpd1].
  rewrite Hpd1 in Hsc. simpl cols in Hsc.
  rewrite lookup_replace_or_append_same in Hsc. injection Hsc as Hsc.
  destruct (to_floats_replace "financial_literacy_score" score (cols pd) X HX)
    as (X' & HX' & _ & Hin & _).
  unfold cluster_financial_exclusion. py_simpl.
  unfold check_array. rewrite Hpd1. simpl cols. rewrite Hsc, HX'.
  rewrite (has_nan_true X' score Hin).
  - simpl. py_simpl. reflexivity.
  - rewrite <- Hnone. apply nth_In. rewrite Lsc. exact Hlt.
Qed.

Lemma unknown_education_level_stops_clustering_witness :
  run (cluster_financial_exclusion sample_backend)
      (snd (run (calculate_financial_literacy_score survey3) reduced3))
  = (inl (ValueError "Input contains NaN"),
     snd (run (calculate_financial_literacy_score survey3) reduced3)).
Proof.
  apply (unknown_education_level_stops_clustering sample_backend survey3 reduced3 _
           [[Some (-1 # 2); Some 0; Some (1 # 2)]]
           [Some "Primary"; Some "PhD"; Some "University"] 1 "PhD").
  - vm_compute. repeat constructor.
  - vm_compute. repeat constructor.
  - reflexivity.
  - reflexivity.
  - reflexivity.
  - reflexivity.
  - vm_compute. reflexivity.
Defined.

(** ** Model bench: errors and reported metrics *)

Lemma runState_ret {S A : Type} (a : A) (s : S) : runState (ret a) s = (a, s).
Proof. reflexivity. Qed.

Lemma of_nat_le a b : (a <= b)%nat -> of_nat a <= of_nat b.
Proof. intros H. unfold of_nat. rewrite <- Zle_Qle. lia. Qed.

Lemma of_nat_nonneg a : 0 <= of_nat a.
Proof. apply (of_nat_le 0 a). lia. Qed.

Lemma ratio_bounds a b : (a <= b)%nat -> 0 <= ratio a b <= 1.
Proof.
  intros H. unfold ratio. destruct (Nat.eqb_spec b 0) as [-> | Hb].
  - split; [apply Qle_refl | discriminate].
  - assert (Hpos : 0 < of_nat b).
    { destruct b; [contradiction | apply of_nat_pos]. }
    split.
    + apply Qle_shift_div_l; [exact Hpos|]. rewrite Qmult_0_l. apply of_nat_nonneg.
    + apply Qle_shift_div_r; [exact Hpos|]. rewrite Qmult_1_l. apply of_nat_le. exact H.
Qed.

Lemma count_where_le p y_true y_pred : (count_where p y_true y_pred <= length y_true)%nat.
Proof.
  unfold count_where.
  etransitivity; [apply filter_length_le|].
  rewrite length_combine. lia.
Qed.

Lemma harmonic_bounds p r :
  0 <= p <= 1 -> 0 <= r <= 1 ->
  0 <= (if Qeq_bool (p + r) 0 then 0 else 2 * p * r / (p + r)) <= 1.
Proof.
  intros [Hp0 Hp1] [Hr0 Hr1]. destruct (Qeq_bool (p + r) 0) eqn:E.
  - split; [apply Qle_refl | discriminate].
  - assert (Hne : ~ p + r == 0).
    { intros C. apply Qeq_bool_iff in C. congruence. }
    assert (Hpos : 0 < p + r).
    { destruct (Qlt_le_dec 0 (p + r)) as [H | H]; [exact H|].
      exfalso. apply Hne. lra. }
    split.
    + apply Qle_shift_div_l; [exact Hpos|]. nra.
    + apply Qle_shift_div_r; [exact Hpos|]. nra.
Qed.


Lemma score_bounds y_true y_pred : unit_metrics (score y_true y_pred).
Proof.
  unfold unit_metrics, score. cbn [accuracy precision recall f1_score].
  split; [apply ratio_bounds, count_where_le|].
  split; [apply ratio_bounds; lia|].
  split; [apply ratio_bounds; lia|].
  apply harmonic_bounds; apply ratio_bounds; lia.
Qed.

Lemma runState_bind {S A B : Type} (c : state S A) (k : A -> state S B) (s : S) :
  runState (bind c k) s = (let (a, s') := runState c s in runState (k a) s').
Proof. reflexivity. Qed.

Lemma report_bounds m X_columns model y_test entry :
  report m X_columns model y_test = inr entry -> unit_metrics entry.
Proof.
  unfold report. pose proof (score_bounds y_test (predictions model)) as Hb.
  destruct (explained m).
  - destruct (shap_values model) as [e | values]; [discriminate|].
    intros H. injection H as <-. exact Hb.
  - intros H. injection H as <-. exact Hb.
Qed.

(** One turn of the loop over the models. *)
Lemma fit_all_cons B m ms X_columns X_train y_train X_test y_test g :
  runState (fit_all B (m :: ms) X_columns X_train y_train X_test y_test) g
  = let (model, g1) := runState (with_random_state (random_state m)
                                   (fun g => fit_predict B m g X_train y_train X_test)) g in
    match model with
    | inl e => (inl e, g1)
    | inr model =>
        match report m X_columns model y_test with
        | inl e => (inl e, g1)
        | inr entry =>
            let (others, g2) :=
              runState (fit_all B ms X_columns X_train y_train X_test y_test) g1 in
            match others with
            | inl e => (inl e, g2)
            | inr others => (inr ((est_name m, entry) :: others), g2)
            end
        end
    end.
Proof.
  cbn [fit_all]. rewrite runState_bind.
  destruct (runState (with_random_state (random_state m) _) g) as [[e | model] g1];
    [reflexivity|].
  destruct (report m X_columns model y_test) as [e | entry]; [reflexivity|].
  rewrite runState_bind.
  match goal with
  | |- context [@runState ?S ?A (fit_all B ms ?c ?xs ?ys ?xt ?yt) g1] =>
      set (r := @runState S A (fit_all B ms c xs ys xt yt) g1)
  end.
  match goal with
  | |- context [@runState ?S ?A (fit_all B ms ?c ?xs ?ys ?xt ?yt) g1] =>
      change (@runState S A (fit_all B ms c xs ys xt yt) g1) with r
  end.
  destruct r as [[e | others] g2]; reflexivity.
Qed.

Lemma fit_all_bounds B ms X_columns X_train y_train X_test y_test : forall g results g',
  runState (fit_all B ms X_columns X_train y_train X_test y_test) g = (inr results, g') ->
  length results = length ms /\
  Forall (fun r => unit_metrics (snd r)) results.
Proof.
  induction ms as [|m ms IH]; intros g results g' H.
  - cbn in H. injection H as <- _. split; [reflexivity | constructor].
  - rewrite fit_all_cons in H.
    destruct (runState (with_random_state (random_state m) _) g) as [[e | model] g1];
      [discriminate H|].
    destruct (report m X_columns model y_test) as [e | entry] eqn:Hr; [discriminate H|].
    destruct (runState (fit_all B ms X_columns X_train y_train X_test y_test) g1)
      as [[e | others] g2] eqn:Ho; [discriminate H|].
    injection H as <- _. destruct (IH _ _ _ Ho) as [IHl IHb].
    split; [simpl; f_equal; exact IHl|].
    constructor; [exact (report_bounds _ _ _ _ _ Hr) | exact IHb].
Qed.

Lemma drop_index_len name df X : drop name df = inr X -> index_len X = index_len df.
Proof.
  unfold drop. destruct (lookup name (cols df)); [|discriminate].
  intros H. injection H as <-. reflexivity.
Qed.

Lemma train_needs_two n : (n - n_test n =? 0)%nat = (n <? 2)%nat.
Proof.
  unfold n_test.
  destruct (Nat.ltb_spec n 2) as [H | H].
  - apply Nat.eqb_eq. assert (n = 0 \/ n = 1)%nat as [-> | ->] by lia; reflexivity.
  - apply Nat.eqb_neq.
    pose proof (Nat.Div0.mul_div_le (n + 4) 5). lia.
Qed.

(** X11.  What the bench refuses before any model is fitted: a table without
    the 'financial_exclusion_label' column is a KeyError, and a labelled
    numeric table with fewer than two respondents leaves no training
    sample.  In both cases the global generator is not advanced. *)
Theorem bench_needs_label_and_two_rows :
  forall (B : backend) (processed_data : DataFrame) (g : Z),
    (lookup "financial_exclusion_label" (cols processed_data) = None ->
     runState (train_classification_models B processed_data) g
     = (inl (KeyError "financial_exclusion_label"), g)) /\
    (forall X y Xf,
       features_and_target processed_data = inr (X, y) ->
       to_floats (map snd (cols X)) = inr Xf ->
       (index_len processed_data < 2)%nat ->
       runState (train_classification_models B processed_data) g
       = (inl (ValueError "the resulting train set will be empty"), g)).
Proof.
  intros B pd g. split.
  - intros H. unfold train_classification_models, train_models, features_and_target, drop.
    rewrite H. reflexivity.
  - intros X y Xf Hf HX Hn. unfold train_classification_models, train_models. rewrite Hf.
    assert (HL : index_len X = index_len pd).
    { unfold features_and_target in Hf.
      destruct (drop _ pd) as [|X0] eqn:Hd; [discriminate|].
      destruct (getitem pd _); [discriminate|].
      destruct (label_values _); [discriminate|].
      injection Hf as <- _. eapply drop_index_len; exact Hd. }
    rewrite train_needs_two, HL.
    destruct (Nat.ltb_spec (index_len pd) 2); [reflexivity | lia].
Qed.

Lemma bench_needs_label_and_two_rows_witness :
  runState (train_classification_models sample_backend scored3) 7%Z
    = (inl (KeyError "financial_exclusion_label"), 7%Z) /\
  runState (train_classification_models sample_backend labelled1) 7%Z
    = (inl (ValueError "the resulting train set will be empty"), 7%Z).
Proof.
  split.
  - apply (proj1 (bench_needs_label_and_two_rows sample_backend scored3 7%Z)).
    reflexivity.
  - apply (proj2 (bench_needs_label_and_two_rows sample_backend labelled1 7%Z)
             (mkFrame 1 [("PC1", NumCol [Some 0])]) [true] [[Some 0]]).
    + reflexivity.
    + reflexivity.
    + simpl. lia.
Defined.

(** X12.  Whatever the learners predict, the accuracy, precision, recall
    and F1 that the bench reports for each of the four models are fractions:
    they lie between 0 and 1 (a ratio with an empty denominator is reported
    as 0). *)
Theorem bench_reports_fractions :
  forall (B : backend) (processed_data : DataFrame) (g g' : Z)
         (results : list (string * metrics)),
    runState (train_classification_models B processed_data) g = (inr results, g') ->
    length results = 4%nat /\
    forall name m, In (name, m) results ->
      0 <= accuracy m <= 1 /\ 0 <= precision m <= 1 /\
      0 <= recall m <= 1 /\ 0 <= f1_score m <= 1.
Proof.
  intros B pd g g' results H. unfold train_classification_models, train_models in H.
  destruct (features_and_target pd) as [e | [X y]]; [discriminate H|].
  destruct (_ =? 0)%nat; [discriminate H|].
  unfold split_random_state in H.
  rewrite runState_bind, with_random_state_seeded in H.
  destruct (to_floats _) as [e | Xf]; [discriminate H|].
  destruct (fit_all_bounds _ _ _ _ _ _ _ _ _ _ H) as [Hl Hb].
  split; [exact Hl|]. intros name m Hin.
  rewrite Forall_forall in Hb. exact (Hb (name, m) Hin).
Qed.

Lemma bench_reports_fractions_witness :
  let results :=
    value_or [] (fst (runState (train_classification_models sample_backend labelled6) 7%Z)) in
  length results = 4%nat /\
  forall name m, In (name, m) results ->
    0 <= accuracy m <= 1 /\ 0 <= precision m <= 1 /\
    0 <= recall m <= 1 /\ 0 <= f1_score m <= 1.
Proof.
  apply (bench_reports_fractions sample_backend labelled6 7%Z
           (snd (runState (train_classification_models sample_backend labelled6) 7%Z))).
  vm_compute. reflexivity.
Defined.

Lemma count_where_all p (y_true : list bool) : forall y_pred,
  length y_pred = length y_true ->
  (count_where p y_true y_pred = length y_true <->
   Forall (fun tp => p (fst tp) (snd tp) = true) (combine y_true y_pred)).
Proof.
  unfold count_where.
  induction y_true as [|t y IH]; intros [|q y'] HL; simpl in *; try discriminate.
  - split; [constructor | reflexivity].
  - injection HL as HL. specialize (IH y' HL).
    destruct (p t q) eqn:E; simpl.
    + split.
      * intros H. constructor; [exact E|]. apply IH. lia.
      * intros H. inversion H; subst. f_equal. apply IH. assumption.
    + split.
      * intros H. pose proof (filter_length_le (fun tp => p (fst tp) (snd tp)) (combine y y')).
        rewrite length_combine in H0. lia.
      * intros H. inversion H; subst. simpl in *. congruence.
Qed.

Lemma combine_eqb_all (y_true : list bool) : forall y_pred,
  length y_pred = length y_true ->
  (Forall (fun tp => Bool.eqb (fst tp) (snd tp) = true) (combine y_true y_pred)
   <-> y_pred = y_true).
Proof.
  induction y_true as [|t y IH]; intros [|q y'] HL; simpl in *; try discriminate.
  - split; [reflexivity | constructor].
  - injection HL as HL. specialize (IH y' HL). split.
    + intros H. inversion H; subst. simpl in *. apply eqb_prop in H2. subst.
      f_equal. apply IH. assumption.
    + intros H. injection H as -> ->. constructor; [apply eqb_reflx|].
      apply IH. reflexivity.
Qed.

(** X13.  The reported accuracy is 1 exactly when every test sample is
    predicted as labelled. *)
Theorem accuracy_is_one_iff_all_right :
  forall y_true y_pred : list bool,
    y_true <> [] -> length y_pred = length y_true ->
    (accuracy (score y_true y_pred) == 1 <-> y_pred = y_true).
Proof.
  intros y p Hne HL. unfold score. cbn [accuracy]. unfold accuracy_score, ratio.
  destruct (Nat.eqb_spec (length y) 0) as [H0 | H0].
  { destruct y; [contradiction | discriminate]. }
  assert (Hpos : 0 < of_nat (length y)).
  { destruct (length y); [contradiction | apply of_nat_pos]. }
  rewrite <- (combine_eqb_all y p HL), <- (count_where_all Bool.eqb y p HL).
  split.
  - intros H.
    assert (E : of_nat (count_where Bool.eqb y p) == of_nat (length y)).
    { rewrite <- (Qmult_1_l (of_nat (length y))), <- H. field.
      intros C. rewrite C in Hpos. discriminate. }
    unfold of_nat, Qeq in E. simpl in E. lia.
  - intros ->. field. intros C. rewrite C in Hpos. discriminate.
Qed.

Lemma accuracy_is_one_iff_all_right_witness :
  accuracy (score [true; false; false] [true; false; false]) == 1
  <-> [true; false; false] = [true; false; false].
Proof.
  apply (accuracy_is_one_iff_all_right [true; false; false] [true; false; false]).
  - discriminate.
  - reflexivity.
Defined.

Lemma count_where_no_positive p (y_true : list bool) : forall y_pred,
  Forall (fun t => t = false) y_true ->
  (forall q, p false q = false) ->
  count_where p y_true y_pred = 0%nat.
Proof.
  unfold count_where. induction y_true as [|t y IH]; intros [|q y'] Hall Hf; simpl;
    try reflexivity.
  inversion Hall; subst. simpl. rewrite Hf. apply IH; assumption.
Qed.

(** X14.  A test fold without any excluded respondent: precision, recall
    and F1 are reported as 0 whatever the model predicts, also when every
    prediction is right and the accuracy is 1. *)
Theorem metrics_without_positive_test_sample :
  forall y_true y_pred : list bool,
    Forall (fun t => t = false) y_true ->
    precision (score y_true y_pred) == 0 /\
    recall (score y_true y_pred) == 0 /\
    f1_score (score y_true y_pred) == 0.
Proof.
  intros y p Hall. unfold score. cbn [precision recall f1_score].
  assert (Htp : count_where andb y p = 0%nat).
  { apply count_where_no_positive; [exact Hall | intros q; reflexivity]. }
  assert (Hfn : count_where (fun t q => t && negb q) y p = 0%nat).
  { apply count_where_no_positive; [exact Hall | intros q; reflexivity]. }
  rewrite Htp, Hfn. simpl Nat.add.
  assert (Hr : forall b, ratio 0 b == 0).
  { intros b. unfold ratio. destruct (b =? 0)%nat; [reflexivity|].
    unfold of_nat. simpl. unfold Qdiv. apply Qmult_0_l. }
  split; [apply Hr|]. split; [apply Hr|].
  destruct (Qeq_bool _ _) eqn:E; [reflexivity|].
  exfalso. assert (C : Qeq_bool (ratio 0 (count_where (fun t p0 => negb t && p0) y p)
                                 + ratio 0 0) 0 = true).
  { apply Qeq_bool_iff. rewrite !Hr. reflexivity. }
  congruence.
Qed.

Lemma metrics_without_positive_test_sample_witness :
  precision (score [false; false] [false; false]) == 0 /\
  recall (score [false; false] [false; false]) == 0 /\
  f1_score (score [false; false] [false; false]) == 0.
Proof.
  apply (metrics_without_positive_test_sample [false; false] [false; false]).
  repeat constructor.
Defined.

(** ** Encoder: the levels of a column *)

Lemma ascii_compare_lt a b : Ascii.compare a b = Lt <-> (N_of_ascii a < N_of_ascii b)%N.
Proof. unfold Ascii.compare. apply N.compare_lt_iff. Qed.

Lemma ascii_compare_eq a b : Ascii.compare a b = Eq <-> a = b.
Proof.
  split; [apply Ascii.compare_eq_iff|]. intros ->. unfold Ascii.compare. apply N.compare_refl.
Qed.

Lemma string_compare_refl s : String.compare s s = Eq.
Proof.
  induction s as [|c s IH]; [reflexivity|]. simpl.
  rewrite (proj2 (ascii_compare_eq c c) eq_refl). exact IH.
Qed.

Lemma string_compare_trans a : forall b c,
  String.compare a b = Lt -> String.compare b c = Lt -> String.compare a c = Lt.
Proof.
  induction a as [|x a IH]; intros [|y b] [|z c] H1 H2; simpl in *;
    try discriminate; try reflexivity.
  destruct (Ascii.compare x y) eqn:Exy; try discriminate.
  - apply ascii_compare_eq in Exy. subst y.
    destruct (Ascii.compare x z); try discriminate; [|reflexivity].
    eapply IH; eassumption.
  - apply ascii_compare_lt in Exy.
    destruct (Ascii.compare y z) eqn:Eyz; try discriminate.
    + apply ascii_compare_eq in Eyz. subst z.
      rewrite (proj2 (ascii_compare_lt x y) Exy). reflexivity.
    + apply ascii_compare_lt in Eyz.
      rewrite (proj2 (ascii_compare_lt x z) (N.lt_trans _ _ _ Exy Eyz)). reflexivity.
Qed.

Lemma ltb_trans a b c :
  String.ltb a b = true -> String.ltb b c = true -> String.ltb a c = true.
Proof.
  unfold String.ltb. intros H1 H2.
  destruct (String.compare a b) eqn:E1; try discriminate.
  destruct (String.compare b c) eqn:E2; try discriminate.
  rewrite (string_compare_trans a b c E1 E2). reflexivity.
Qed.

Lemma ltb_irrefl a : String.ltb a a = false.
Proof. unfold String.ltb. rewrite string_compare_refl. reflexivity. Qed.

Lemma ltb_total a b : String.ltb a b = false -> a <> b -> String.ltb b a = true.
Proof.
  unfold String.ltb. intros H Hne. rewrite String.compare_antisym.
  destruct (String.compare a b) eqn:E; try discriminate; [|reflexivity].
  apply String.compare_eq_iff in E. contradiction.
Qed.

Lemma In_insert_uniq z x l : In z (insert_uniq x l) <-> z = x \/ In z l.
Proof.
  induction l as [|y l IH]; simpl.
  - intuition.
  - destruct (String.eqb_spec x y) as [-> | Hne].
    + simpl. intuition.
    + destruct (String.ltb x y); simpl; [intuition|]. rewrite IH. intuition.
Qed.

Lemma In_unique_sorted z l : In z (unique_sorted l) <-> In z l.
Proof.
  induction l as [|x l IH]; simpl; [reflexivity|].
  rewrite In_insert_uniq, IH. intuition.
Qed.

Lemma insert_uniq_ascending x l :
  StronglySorted (fun a b => String.ltb a b = true) l ->
  StronglySorted (fun a b => String.ltb a b = true) (insert_uniq x l).
Proof.
  induction l as [|y l IH]; intros Hs; simpl.
  - constructor; [constructor | constructor].
  - inversion Hs as [|? ? Hl Hy]; subst.
    destruct (String.eqb_spec x y) as [-> | Hne]; [exact Hs|].
    destruct (String.ltb x y) eqn:E.
    + constructor; [exact Hs|]. constructor; [exact E|].
      rewrite Forall_forall in *. intros z Hz. eapply ltb_trans; [exact E | apply Hy; exact Hz].
    + constructor; [apply IH; exact Hl|].
      rewrite Forall_forall in *. intros z Hz. apply In_insert_uniq in Hz.
      destruct Hz as [-> | Hz]; [apply ltb_total; [exact E | exact Hne] | apply Hy; exact Hz].
Qed.

Lemma unique_sorted_ascending l :
  StronglySorted (fun a b => String.ltb a b = true) (unique_sorted l).
Proof.
  induction l as [|x l IH]; simpl; [constructor | apply insert_uniq_ascending; exact IH].
Qed.

Lemma ascending_NoDup l :
  StronglySorted (fun a b => String.ltb a b = true) l -> NoDup l.
Proof.
  induction 1 as [|x l Hs IH Hx]; constructor; [|exact IH].
  intros Hin. rewrite Forall_forall in Hx. specialize (Hx x Hin).
  rewrite ltb_irrefl in Hx. discriminate.
Qed.

Lemma filter_eqb_one s l : NoDup l -> In s l -> length (filter (String.eqb s) l) = 1%nat.
Proof.
  induction 1 as [|x l Hx Hnd IH]; intros Hin; [contradiction|]. simpl.
  destruct (String.eqb_spec s x) as [-> | Hne].
  - simpl. f_equal.
    fold (count x l). apply count_notin. exact Hx.
  - destruct Hin as [-> | Hin]; [contradiction|]. apply IH. exact Hin.
Qed.

Lemma nth_indicator level col i :
  nth i (indicator level col) false
  = match nth i col None with Some s => String.eqb s level | None => false end.
Proof.
  unfold indicator. destruct (Nat.lt_ge_cases i (length col)) as [H | H].
  - exact (nth_map_in (fun c => match c with Some s => String.eqb s level | None => false end)
             col None false i H).
  - rewrite !nth_overflow; [reflexivity | exact H | rewrite length_map; exact H].
Qed.

Lemma indicators_set_dummies name col i :
  indicators_set i (dummies_of name col)
  = match nth i col None with
    | Some s => length (filter (String.eqb s) (unique_sorted (dropna col)))
    | None => 0%nat
    end.
Proof.
  unfold indicators_set, dummies_of.
  set (p := fun kc : string * column =>
              match snd kc with BoolCol v => nth i v false | _ => false end).
  set (g := fun level => (name ++ "_" ++ level, BoolCol (indicator level col))).
  induction (unique_sorted (dropna col)) as [|level L IH]; cbn [map filter].
  - destruct (nth i col None); reflexivity.
  - replace (p (g level))
      with (match nth i col None with Some s => String.eqb s level | None => false end)
      by (unfold p, g; cbn [snd]; symmetry; apply nth_indicator).
    destruct (nth i col None) as [s|].
    + destruct (String.eqb s level); cbn [length]; rewrite IH; reflexivity.
    + exact IH.
Qed.

Lemma indicators_set_app i a b :
  indicators_set i (a ++ b) = (indicators_set i a + indicators_set i b)%nat.
Proof. unfold indicators_set. rewrite filter_app, length_app. reflexivity. Qed.

(** X15.  One-hot encoding: for every categorical column exactly one of its
    indicator columns is set for a respondent with an observed value, namely
    the one named after that value, and none for a respondent whose value is
    missing.  Over a table without missing values a respondent therefore has
    as many indicators set as there are categorical columns. *)
Theorem one_hot_sets_one_indicator_per_column :
  (forall (name : string) (col : list (option string)) (i : nat),
     match nth_error col i with
     | Some (Some s) =>
         indicators_set i (dummies_of name col) = 1%nat /\
         exists v, In (name ++ "_" ++ s, BoolCol v) (dummies_of name col) /\
                   nth i v false = true
     | _ => indicators_set i (dummies_of name col) = 0%nat
     end) /\
  (forall (named : list (string * list (option string))) (i : nat),
     Forall (fun kc => exists s, nth_error (snd kc) i = Some (Some s)) named ->
     indicators_set i (get_dummies named) = length named).
Proof.
  assert (H1 : forall name col i s, nth_error col i = Some (Some s) ->
                 indicators_set i (dummies_of name col) = 1%nat).
  { intros name col i s Hi. rewrite indicators_set_dummies.
    rewrite (nth_error_nth _ _ _ Hi).
    apply filter_eqb_one.
    - apply ascending_NoDup, unique_sorted_ascending.
    - apply In_unique_sorted, In_dropna. eapply nth_error_In; exact Hi. }
  split.
  - intros name col i. destruct (nth_error col i) as [[s|]|] eqn:Hi.
    + split; [eapply H1; exact Hi|].
      exists (indicator s col). split.
      * unfold dummies_of. apply in_map_iff. exists s. split; [reflexivity|].
        apply In_unique_sorted, In_dropna. eapply nth_error_In; exact Hi.
      * rewrite nth_indicator, (nth_error_nth _ _ _ Hi). apply String.eqb_refl.
    + rewrite indicators_set_dummies, (nth_error_nth _ _ _ Hi). reflexivity.
    + rewrite indicators_set_dummies.
      rewrite nth_overflow by (apply nth_error_None; exact Hi). reflexivity.
  - intros named i Hall. unfold get_dummies.
    induction Hall as [|[name col] named [s Hs] _ IH]; [reflexivity|].
    simpl in *. rewrite indicators_set_app, IH, (H1 name col i s Hs). reflexivity.
Qed.

Lemma one_hot_sets_one_indicator_per_column_witness :
  indicators_set 0 (get_dummies [("county", county); ("gender", gender)]) = 2%nat.
Proof.
  apply (proj2 one_hot_sets_one_indicator_per_column
           [("county", county); ("gender", gender)] 0%nat).
  repeat constructor; simpl; eexists; reflexivity.
Defined.

(** ** Encoder: integer codes *)

Lemma index_of_nth s classes :
  In s classes -> nth_error classes (LabelEncoder.index_of s classes) = Some s.
Proof.
  induction classes as [|y l IH]; intros Hin; [contradiction|]. simpl.
  destruct (String.eqb_spec s y) as [-> | Hne]; [reflexivity|].
  destruct Hin as [-> | Hin]; [contradiction|]. simpl. apply IH. exact Hin.
Qed.

(** X16.  The integer code of a high-cardinality column.  The encoder
    always returns one code per respondent.  The code of a recorded value is
    its position among the column's distinct values in ascending order, so
    equal values share a code, distinct values get distinct codes, and these
    codes run from 0 to the number of distinct values minus one; a missing
    entry gets the next code after them. *)
Theorem label_codes_are_ranks :
  forall (col : list (option string)),
    exists (codes : list cell) (classes : list string),
      LabelEncoder.fit_transform col = inr codes /\
      length codes = length col /\
      StronglySorted (fun a b => String.ltb a b = true) classes /\
      (forall s, In s classes <-> In (Some s) col) /\
      length classes = nunique col /\
      (forall i s, nth_error col i = Some (Some s) ->
         exists k, nth_error codes i = Some (Some (of_nat k)) /\
                   nth_error classes k = Some s) /\
      (forall i, nth_error col i = Some None ->
         nth_error codes i = Some (Some (of_nat (length classes)))).
Proof.
  intros col. unfold LabelEncoder.fit_transform, LabelEncoder.transform.
  eexists. exists (unique_sorted (dropna col)).
  split; [reflexivity|].
  split; [apply length_map|].
  split; [apply unique_sorted_ascending|].
  split; [intros s; rewrite In_unique_sorted; apply In_dropna|].
  split; [reflexivity|].
  split.
  - intros i s Hi.
    exists (LabelEncoder.index_of s (unique_sorted (dropna col))). split.
    + rewrite nth_error_map, Hi. reflexivity.
    + apply index_of_nth. apply In_unique_sorted. apply In_dropna.
      eapply nth_error_In; exact Hi.
  - intros i Hi. rewrite nth_error_map, Hi. reflexivity.
Qed.

(** ** Imputer: ties between categories *)

Lemma better_choice l a b :
  (better l a b = b /\
   ((count a l < count b l)%nat \/ (count b l = count a l /\ String.ltb b a = true))) \/
  (better l a b = a /\ (count b l <= count a l)%nat /\
   (count b l = count a l -> String.ltb b a = false)).
Proof.
  unfold better. destruct (Nat.ltb_spec (count a l) (count b l)) as [H | H].
  - left. split; [reflexivity | left; exact H].
  - destruct (Nat.eqb_spec (count b l) (count a l)) as [E | E]; simpl.
    + destruct (String.ltb b a) eqn:L.
      * left. split; [reflexivity | right; split; [exact E | reflexivity]].
      * right. split; [reflexivity|]. split; [exact H | intros _; reflexivity].
    + right. split; [reflexivity|]. split; [exact H | intros C; contradiction].
Qed.

Lemma fold_better_tie l r : forall x y,
  In y (x :: r) -> count y l = count (fold_left (better l) r x) l ->
  String.ltb y (fold_left (better l) r x) = false.
Proof.
  induction r as [|b r IH]; intros x y Hy Hc; simpl in *.
  - destruct Hy as [<- | []]. apply ltb_irrefl.
  - set (m := fold_left (better l) r (better l x b)) in *.
    pose proof (proj2 (fold_better l r (better l x b)) (better l x b) (or_introl eq_refl))
      as Hge. fold m in Hge.
    pose proof (IH (better l x b) (better l x b) (or_introl eq_refl)) as Hbest.
    fold m in Hbest.
    destruct Hy as [<- | [<- | Hy]].
    + destruct (better_choice l x b) as [[Hb [Hlt | [He Hl]]] | [Hb _]];
        rewrite Hb in Hge, Hbest.
      * lia.
      * specialize (Hbest (eq_trans He Hc)).
        destruct (String.ltb x m) eqn:E; [|reflexivity].
        rewrite (ltb_trans b x m Hl E) in Hbest. discriminate.
      * apply Hbest. exact Hc.
    + destruct (better_choice l x b) as [[Hb _] | [Hb [Hle Htie]]];
        rewrite Hb in Hge, Hbest.
      * apply Hbest. exact Hc.
      * assert (He : count b l = count x l) by lia.
        specialize (Htie He). specialize (Hbest (eq_trans (eq_sym He) Hc)).
        destruct (String.ltb b m) eqn:E; [|reflexivity].
        destruct (String.eqb_spec x m) as [Hxm | Hxm].
        -- rewrite Hxm in Htie. congruence.
        -- pose proof (ltb_total x m Hbest Hxm) as Hmx.
           rewrite (ltb_trans b m x E Hmx) in Htie. discriminate.
    + apply (IH (better l x b) y); [right; exact Hy | exact Hc].
Qed.

(** X17.  The categorical fill value on a tie: of the categories observed
    most often, the imputer takes the smallest in alphabetical order. *)
Theorem most_frequent_takes_smallest_on_tie :
  forall (l : list string) (m : string),
    most_frequent l = Some m ->
    In m l /\
    (forall x, (count x l <= count m l)%nat) /\
    (forall x, In x l -> count x l = count m l -> String.ltb x m = false).
Proof.
  intros l m H. destruct (most_frequent_spec l m H) as [Hin Hmax].
  split; [exact Hin|]. split; [exact Hmax|].
  intros x Hx Hc. destruct l as [|x0 r]; [discriminate H|].
  unfold most_frequent in H. injection H as <-.
  apply (fold_better_tie (x0 :: r) r x0 x Hx Hc).
Qed.

Lemma most_frequent_takes_smallest_on_tie_witness :
  In "Female" ["Male"; "Female"; "Male"; "Female"] /\
  (forall x, (count x ["Male"; "Female"; "Male"; "Female"]
              <= count "Female" ["Male"; "Female"; "Male"; "Female"])%nat) /\
  (forall x, In x ["Male"; "Female"; "Male"; "Female"] ->
     count x ["Male"; "Female"; "Male"; "Female"]
     = count "Female" ["Male"; "Female"; "Male"; "Female"] ->
     String.ltb x "Female" = false).
Proof.
  apply (most_frequent_takes_smallest_on_tie ["Male"; "Female"; "Male"; "Female"] "Female").
  reflexivity.
Defined.

(** ** Column names: renaming and matching *)

Lemma duplicated_any_NoDup names : duplicated_any names = false <-> NoDup names.
Proof.
  induction names as [|x r IH]; simpl.
  - split; [constructor | reflexivity].
  - rewrite orb_false_iff, IH. split.
    + intros [Hx Hr]. constructor; [|exact Hr].
      intros Hin. assert (C : existsb (String.eqb x) r = true).
      { apply existsb_exists. exists x. split; [exact Hin | apply String.eqb_refl]. }
      congruence.
    + intros H. inversion H as [|? ? Hx Hr]; subst. split; [|exact Hr].
      destruct (existsb (String.eqb x) r) eqn:E; [|reflexivity].
      apply existsb_exists in E. destruct E as (y & Hy & Exy).
      apply String.eqb_eq in Exy. subst y. contradiction.
Qed.

Lemma lookup_unique (l : list (string * column)) k c :
  NoDup (map fst l) -> In (k, c) l -> lookup k l = Some c.
Proof.
  induction l as [|[k0 c0] l IH]; intros Hnd Hin; [contradiction|].
  simpl in *. inversion Hnd as [|? ? Hk Hl]; subst.
  destruct Hin as [E | Hin].
  - injection E as -> ->. rewrite String.eqb_refl. reflexivity.
  - destruct (String.eqb_spec k0 k) as [-> | Hne].
    + exfalso. apply Hk. apply in_map_iff. exists (k, c). split; [reflexivity | exact Hin].
    + apply IH; assumption.
Qed.

Lemma dict_get_last d k v : dict_get (d ++ [(k, v)])%list k = Some v.
Proof.
  induction d as [|[k0 v0] d IH]; simpl.
  - rewrite String.eqb_refl. reflexivity.
  - rewrite IH. reflexivity.
Qed.

Lemma dict_get_absent d k : ~ In k (map fst d) -> dict_get d k = None.
Proof.
  induction d as [|[k0 v0] d IH]; intros H; simpl in *; [reflexivity|].
  rewrite IH by tauto.
  destruct (String.eqb_spec k0 k) as [-> | _]; [exfalso; tauto | reflexivity].
Qed.

Lemma combine_app_one {A B} (l : list A) (l' : list B) a b :
  length l = length l' -> combine (l ++ [a]) (l' ++ [b]) = (combine l l' ++ [(a, b)])%list.
Proof.
  revert l'. induction l as [|x l IH]; intros [|y l'] H; simpl in *; try discriminate.
  - reflexivity.
  - f_equal. apply IH. lia.
Qed.

(** X18.  Renaming the survey's columns to their descriptive labels keeps
    the respondents and the data of every column, position by position; a
    column whose name is not listed in the sheet keeps its name, and a
    variable listed more than once takes the label of its last row.  When
    the renamed table has no duplicate names (so the branch for duplicates
    is not taken), every column is found under its new name. *)
Theorem descriptive_names_keep_the_data :
  forall (variable label : list string) (data : DataFrame),
    let column_mapping := dict_zip variable label in
    let data' := fst (descriptive_names variable label data) in
    index_len data' = index_len data /\
    map snd (cols data') = map snd (cols data) /\
    columns data' = map (renamed column_mapping) (columns data) /\
    (forall k, ~ In k variable -> renamed column_mapping k = k) /\
    (forall k v, length variable = length label ->
       renamed (dict_zip (variable ++ [k]) (label ++ [v])) k = v) /\
    (snd (descriptive_names variable label data) = false ->
     forall k c, In (k, c) (cols data) ->
       lookup (renamed column_mapping k) (cols data') = Some c).
Proof.
  intros variable label data. cbv zeta. unfold descriptive_names. cbn [fst snd].
  unfold rename, columns. cbn [index_len cols]. rewrite !map_map. cbn [fst snd].
  split; [reflexivity|]. split; [reflexivity|]. split; [reflexivity|].
  split; [|split].
  - intros k Hk. unfold renamed. rewrite dict_get_absent; [reflexivity|].
    intros Hin. apply Hk. unfold dict_zip in Hin.
    apply in_map_iff in Hin. destruct Hin as ([a b] & <- & Hab).
    eapply in_combine_l; exact Hab.
  - intros k v HL. unfold renamed, dict_zip.
    rewrite (combine_app_one _ _ _ _ HL), dict_get_last. reflexivity.
  - intros Hdup k c Hin. apply duplicated_any_NoDup in Hdup.
    apply lookup_unique.
    + rewrite map_map. exact Hdup.
    + apply in_map_iff. exists (k, c). split; [reflexivity | exact Hin].
Qed.

Lemma descriptive_names_keep_the_data_witness :
  lookup "Education level of Respondent"
    (cols (fst (descriptive_names ["A8"; "A9"; "A8"]
                  ["Education"; "Age"; "Education level of Respondent"]
                  (mkFrame 2 [("A8", CatCol [Some "Primary"; Some "Tertiary"]);
                              ("hh_id", NumCol [Some 1; Some 2])]))))
  = Some (CatCol [Some "Primary"; Some "Tertiary"]).
Proof.
  apply (proj2 (proj2 (proj2 (proj2 (proj2
           (descriptive_names_keep_the_data ["A8"; "A9"; "A8"]
              ["Education"; "Age"; "Education level of Respondent"]
              (mkFrame 2 [("A8", CatCol [Some "Primary"; Some "Tertiary"]);
                          ("hh_id", NumCol [Some 1; Some 2])]))))))
           eq_refl "A8" (CatCol [Some "Primary"; Some "Tertiary"])).
  left. reflexivity.
Defined.

Lemma prefix_iff needle : forall s,
  prefix needle s = true <-> exists post, s = needle ++ post.
Proof.
  induction needle as [|c needle IH]; intros s; simpl.
  - split; [intros _; exists s; reflexivity | intros _; destruct s; reflexivity].
  - destruct s as [|d s]; simpl.
    + split; [discriminate | intros [post H]; discriminate H].
    + destruct (Ascii.ascii_dec c d) as [-> | Hne].
      * rewrite IH. split; intros [post H]; exists post; [rewrite H; reflexivity|].
        injection H as ->. reflexivity.
      * split; [discriminate|]. intros [post H]. injection H as <- _. contradiction.
Qed.

Lemma contains_iff needle : forall s,
  contains needle s = true <-> exists pre post, s = pre ++ needle ++ post.
Proof.
  induction s as [|d s IH].
  - cbn [contains]. rewrite orb_false_r, prefix_iff. split.
    + intros [post H]. exists "", post. exact H.
    + intros (pre & post & H). destruct pre as [|x pre]; [|discriminate H].
      exists post. exact H.
  - cbn [contains]. rewrite orb_true_iff, prefix_iff, IH. split.
    + intros [[post H] | (pre & post & H)].
      * exists "", post. exact H.
      * exists (String d pre), post. simpl. rewrite H. reflexivity.
    + intros (pre & post & H). destruct pre as [|x pre].
      * left. exists post. exact H.
      * right. simpl in H. injection H as _ H. exists pre, post. exact H.
Qed.

Lemma lower_ascii_idem c : lower_ascii (lower_ascii c) = lower_ascii c.
Proof.
  unfold lower_ascii.
  destruct ((65 <=? nat_of_ascii c) && (nat_of_ascii c <=? 90))%nat eqn:E.
  - apply andb_prop in E. destruct E as [E1 E2].
    apply Nat.leb_le in E1. apply Nat.leb_le in E2.
    rewrite nat_ascii_embedding by lia.
    destruct (Nat.leb_spec (nat_of_ascii c + 32) 90); [lia|].
    rewrite andb_false_r. reflexivity.
  - rewrite E. reflexivity.
Qed.

Lemma lower_idem s : lower (lower s) = lower s.
Proof.
  induction s as [|c s IH]; simpl; [reflexivity|]. rewrite lower_ascii_idem, IH. reflexivity.
Qed.

(** X19.  Which columns the engagement calculator selects: exactly those
    whose lower-cased name contains the keyword as a substring.  The test
    does not depend on the case of the column name, and a keyword with
    a capital letter would match no column at all. *)
Theorem name_matches_is_substring_test :
  forall needle col : string,
    (name_matches needle col = true <->
     exists pre post, lower col = pre ++ needle ++ post) /\
    name_matches needle (lower col) = name_matches needle col /\
    (lower needle <> needle -> name_matches needle col = false).
Proof.
  intros needle col. unfold name_matches. split; [apply contains_iff|].
  split; [rewrite lower_idem; reflexivity|].
  intros Hcap. destruct (contains needle (lower col)) eqn:E; [|reflexivity].
  exfalso. apply contains_iff in E. destruct E as (pre & post & H).
  apply Hcap.
  assert (Happ : forall a b, lower (a ++ b) = lower a ++ lower b).
  { intros a b. induction a as [|c a IH]; simpl; [reflexivity | rewrite IH; reflexivity]. }
  assert (Hl : lower (pre ++ needle ++ post) = pre ++ needle ++ post).
  { rewrite <- H. apply lower_idem. }
  rewrite !Happ in Hl.
  assert (Hinj : forall a a' b b', String.length a = String.length a' ->
                   a ++ b = a' ++ b' -> a = a' /\ b = b').
  { induction a as [|c a IH]; intros [|c' a'] b b' HL Hab; simpl in *; try discriminate.
    - split; [reflexivity | exact Hab].
    - injection Hab as -> Hab. injection HL as HL.
      destruct (IH a' b b' HL Hab) as [-> ->]. split; reflexivity. }
  assert (Hlen : forall a, String.length (lower a) = String.length a).
  { induction a as [|c a IH]; simpl; [reflexivity | rewrite IH; reflexivity]. }
  destruct (Hinj _ _ _ _ (Hlen pre) Hl) as [_ Hl'].
  destruct (Hinj _ _ _ _ (Hlen needle) Hl') as [Hn _].
  exact Hn.
Qed.

Lemma name_matches_is_substring_test_witness :
  name_matches "Savings" "C2-2. Savings through mobile banking" = false.
Proof.
  apply (proj2 (proj2 (name_matches_is_substring_test
                         "Savings" "C2-2. Savings through mobile banking"))).
  discriminate.
Defined.

(** ** The scored table *)

Lemma pc_names_not_score k name :
  prefix "PC" name = false -> ~ In name (pc_names k).
Proof.
  intros Hp Hin. apply pc_names_start in Hin. congruence.
Qed.

(** X20.  The table handed to the clusterer.  When the preprocessing and
    the two score calculators return, the processed table consists of the
    retained components PC1 .. PCk (at least one), followed by
    'financial_engagement_score' and 'financial_literacy_score', in this
    order and nothing else. *)
Theorem scored_table_columns :
  forall (B : backend) (raw raw' pd pd1 pd2 : DataFrame),
    run (preprocess_data B) raw = (inr pd, raw') ->
    run (calculate_financial_engagement_score raw') pd = (inr tt, pd1) ->
    run (calculate_financial_literacy_score raw') pd1 = (inr tt, pd2) ->
    exists k, (1 <= k)%nat /\
      columns pd2 = (pc_names k ++ ["financial_engagement_score";
                                    "financial_literacy_score"])%list.
Proof.
  intros B raw raw' pd pd1 pd2 Hpre Heng Hlit.
  destruct (reduced_columns B raw pd raw' Hpre) as (combined & Xc & _ & _ & Hcols).
  set (k := PCA.n_components _ _) in Hcols.
  exists k. split; [unfold k, PCA.n_components; lia|].
  unfold calculate_financial_engagement_score in Heng.
  py_inv Heng ct Hct. py_inv Heng Xt HXt. py_inv Heng cs Hcs. py_inv Heng Xs HXs.
  py_inv Heng p1 Hs1. py_simpl_in Heng. injection Heng as <-.
  destruct (setitem_inv _ _ _ _ Hs1) as [_ ->].
  unfold calculate_financial_literacy_score in Hlit.
  py_inv Hlit e1 He1. py_inv Hlit Xe HXe. py_inv Hlit q1 Hq1. py_inv Hlit Xq HXq.
  py_inv Hlit p2 Hs2. py_simpl_in Hlit. injection Hlit as <-.
  destruct (setitem_inv _ _ _ _ Hs2) as [_ ->].
  unfold columns in *. cbn [cols].
  assert (F1 : lookup "financial_engagement_score" (cols pd) = None).
  { apply lookup_absent. rewrite Hcols. apply pc_names_not_score. reflexivity. }
  rewrite (replace_or_append_fresh _ _ _ F1).
  assert (F2 : lookup "financial_literacy_score" (cols pd) = None).
  { apply lookup_absent. rewrite Hcols. apply pc_names_not_score. reflexivity. }
  rewrite replace_or_append_fresh.
  - rewrite !map_app, Hcols, <- app_assoc. reflexivity.
  - apply lookup_absent. rewrite map_app, Hcols. simpl. intros Hin.
    apply in_app_or in Hin. destruct Hin as [Hin | [Hin | []]]; [|discriminate Hin].
    revert Hin. apply pc_names_not_score. reflexivity.
Qed.

Lemma scored_table_columns_witness :
  exists k, (1 <= k)%nat /\
    columns (snd (run (calculate_financial_literacy_score
                         (snd (run (preprocess_data sample_backend) survey3)))
                      (snd (run (calculate_financial_engagement_score
                                   (snd (run (preprocess_data sample_backend) survey3)))
                                (value_or (mkFrame 0 [])
                                   (fst (run (preprocess_data sample_backend) survey3)))))))
    = (pc_names k ++ ["financial_engagement_score"; "financial_literacy_score"])%list.
Proof.
  apply (scored_table_columns sample_backend survey3
           (snd (run (preprocess_data sample_backend) survey3))
           (value_or (mkFrame 0 []) (fst (run (preprocess_data sample_backend) survey3)))
           (snd (run (calculate_financial_engagement_score
                        (snd (run (preprocess_data sample_backend) survey3)))
                     (value_or (mkFrame 0 [])
                        (fst (run (preprocess_data sample_backend) survey3)))))).
  - vm_compute. reflexivity.
  - vm_compute. reflexivity.
  - vm_compute. reflexivity.
Defined.

(** ** Normalizer: a column without spread *)

Lemma scale_value_constant (col : list cell) x y :
  In (Some x) col -> (forall z, In (Some z) col -> z == x) -> y == x ->
  scale_value col y == 0.
Proof.
  intros Hin Hall Hy.
  destruct (nan_bounds col x Hin) as (lo & hi & Hlo & Hhi & _).
  destruct (nanmin_spec col lo Hlo) as [Hlo_in _].
  destruct (nanmax_spec col hi Hhi) as [Hhi_in _].
  pose proof (Hall lo Hlo_in) as El. pose proof (Hall hi Hhi_in) as Eh.
  unfold scale_value. rewrite (fit_feature_params col lo hi Hlo Hhi).
  cbn [MinMaxScaler.scale_ MinMaxScaler.min_].
  assert (E0 : Qeq_bool (hi - lo) 0 = true).
  { apply Qeq_bool_iff. rewrite El, Eh. ring. }
  rewrite E0. rewrite Hy, El. field.
Qed.

(** X21.  A numeric column whose observed entries all have the same value
    has no range to divide by: the normalizer maps every observed entry of
    it to 0 (the zero range is replaced by 1), and a missing entry stays
    missing. *)
Theorem normalizer_maps_constant_column_to_zero :
  forall (X : features) (j : nat) (col : list cell) (x : Q),
    nth_error X j = Some col ->
    In (Some x) col -> (forall z, In (Some z) col -> z == x) ->
    exists out,
      nth_error (MinMaxScaler.fit_transform X) j = Some out /\
      length out = length col /\
      forall i,
        match nth_error col i with
        | Some (Some _) => exists z, nth_error out i = Some (Some z) /\ z == 0
        | Some None => nth_error out i = Some None
        | None => nth_error out i = None
        end.
Proof.
  intros X j col x Hj Hin Hall.
  exists (map (option_map (scale_value col)) col).
  split; [rewrite (fit_transform_nth X j col Hj), transform_feature_values; reflexivity|].
  split; [apply length_map|].
  intros i. rewrite nth_error_map.
  destruct (nth_error col i) as [[y|]|] eqn:Hi; simpl; try reflexivity.
  exists (scale_value col y). split; [reflexivity|].
  apply (scale_value_constant col x y Hin Hall).
  apply Hall. eapply nth_error_In; exact Hi.
Qed.

Lemma normalizer_maps_constant_column_to_zero_witness :
  exists out,
    nth_error (MinMaxScaler.fit_transform [[Some 7; None; Some 7]]) 0 = Some out /\
    length out = 3%nat /\
    forall i,
      match nth_error [Some 7; None; Some 7] i with
      | Some (Some _) => exists z, nth_error out i = Some (Some z) /\ z == 0
      | Some None => nth_error out i = Some None
      | None => nth_error out i = None
      end.
Proof.
  apply (normalizer_maps_constant_column_to_zero [[Some 7; None; Some 7]] 0
           [Some 7; None; Some 7] 7).
  - reflexivity.
  - left. reflexivity.
  - intros z [E | [E | [E | []]]]; try discriminate E; injection E as <-; reflexivity.
Defined.

(** ** Imputer: imputing twice *)

Lemma fill_fill {A} (v m : A) col : fill v (fill m col) = fill m col.
Proof.
  unfold fill. rewrite map_map. apply map_ext. intros [x|]; reflexivity.
Qed.

Lemma dropna_fill {A} (m : A) col : col <> [] -> dropna (fill m col) <> [].
Proof. destruct col as [|[x|] col]; [contradiction | discriminate | discriminate]. Qed.

Lemma fit_transform_cons {A} (stat : list A -> option A) col X :
  fit_transform stat (col :: X)
  = match stat (dropna col) with
    | Some v => fill v col :: fit_transform stat X
    | None => fit_transform stat X
    end.
Proof. unfold fit_transform, fit. simpl. destruct (stat (dropna col)); reflexivity. Qed.

Lemma fit_transform_idempotent {A} (stat : list A -> option A) :
  stat [] = None -> (forall l, l <> [] -> exists m, stat l = Some m) ->
  forall X, length (fit_transform stat X) = length X ->
    fit_transform stat (fit_transform stat X) = fit_transform stat X.
Proof.
  intros Hnil Hsome. induction X as [|col X IH]; intros HL; [reflexivity|].
  rewrite fit_transform_cons in *.
  pose proof (transform_length_le (fit stat X) X) as Hle. fold (fit_transform stat X) in Hle.
  destruct (stat (dropna col)) as [v|] eqn:Hs; simpl in HL; [|lia].
  injection HL as HL.
  assert (Hne : col <> []).
  { intros ->. simpl in Hs. congruence. }
  destruct (Hsome _ (dropna_fill v col Hne)) as [v' Hv'].
  rewrite fit_transform_cons, Hv', fill_fill, (IH HL). reflexivity.
Qed.

(** X22.  Imputing twice changes nothing: on an array from which the
    imputer dropped no column, a second fit and transform, with either
    strategy, returns the array the first one produced. *)
Theorem imputation_is_idempotent :
  forall (Xn : list (list cell)) (Xc : list (list (option string))),
    (length (fit_transform median Xn) = length Xn ->
     fit_transform median (fit_transform median Xn) = fit_transform median Xn) /\
    (length (fit_transform most_frequent Xc) = length Xc ->
     fit_transform most_frequent (fit_transform most_frequent Xc)
     = fit_transform most_frequent Xc).
Proof.
  intros Xn Xc. split.
  - apply fit_transform_idempotent; [reflexivity | apply median_some].
  - apply fit_transform_idempotent; [reflexivity | apply most_frequent_some].
Qed.

Lemma imputation_is_idempotent_witness :
  fit_transform median (fit_transform median [txn_amt]) = fit_transform median [txn_amt] /\
  fit_transform most_frequent (fit_transform most_frequent [education])
  = fit_transform most_frequent [education].
Proof.
  split.
  - apply (proj1 (imputation_is_idempotent [txn_amt] [education])). reflexivity.
  - apply (proj2 (imputation_is_idempotent [txn_amt] [education])). reflexivity.
Defined.


(** ** Preprocessing: what it does to the caller's table *)

Lemma columns_replace_or_append k c l :
  map fst (replace_or_append k c l)
  = if existsb (String.eqb k) (map fst l) then map fst l else (map fst l ++ [k])%list.
Proof.
  induction l as [|[k0 c0] l IH]; simpl; [reflexivity|].
  rewrite (String.eqb_sym k k0).
  destruct (String.eqb k0 k); simpl; [reflexivity|].
  rewrite IH. destruct (existsb _ _); reflexivity.
Qed.

Lemma setitem_columns_present k c df df' :
  In k (columns df) -> setitem k c df = inr df' -> columns df' = columns df.
Proof.
  intros Hin H. destruct (setitem_inv _ _ _ _ H) as [_ ->].
  unfold columns. simpl cols. rewrite columns_replace_or_append.
  assert (E : existsb (String.eqb k) (map fst (cols df)) = true).
  { apply existsb_exists. exists k. split; [exact Hin | apply String.eqb_refl]. }
  rewrite E. reflexivity.
Qed.

Lemma setitems_columns names : forall cs df df',
  (forall k, In k names -> In k (columns df)) ->
  setitems names cs df = inr df' -> columns df' = columns df.
Proof.
  induction names as [|k names IH]; intros [|c cs] df df' Hsub H; simpl in H;
    try discriminate.
  - injection H as <-. reflexivity.
  - destruct (setitem k c df) as [|df1] eqn:Hs; [discriminate|].
    pose proof (setitem_columns_present k c df df1 (Hsub k (or_introl eq_refl)) Hs) as E1.
    rewrite (IH cs df1 df'); [exact E1 | | exact H].
    intros k' Hk'. rewrite E1. apply Hsub. right. exact Hk'.
Qed.

Lemma select_dtypes_columns p df k : In k (select_dtypes p df) -> In k (columns df).
Proof.
  unfold select_dtypes, columns. intros H. apply in_map_iff in H.
  destruct H as (kc & <- & Hkc). apply filter_In in Hkc. apply in_map. tauto.
Qed.

Lemma encode_high_cardinality_columns names : forall df df',
  run (encode_high_cardinality names) df = (inr tt, df') ->
  exists added,
    columns df' = (columns df ++ added)%list /\
    Forall (fun a => exists c, In c names /\ a = c ++ "_encoded") added.
Proof.
  induction names as [|col names IH]; intros df df' H.
  - cbn [encode_high_cardinality] in H. rewrite run_ret in H. injection H as <-.
    exists []. rewrite app_nil_r. split; [reflexivity | constructor].
  - rewrite encode_high_cardinality_cons in H.
    py_inv H c Hc. py_inv H codes Hcodes. py_inv H df1 Hset. py_simpl_in H.
    destruct (IH df1 df' H) as (added & Hcols & Hall).
    destruct (setitem_inv _ _ _ _ Hset) as [_ Hdf1].
    assert (Hsub : Forall (fun a => exists c0, In c0 (col :: names) /\ a = c0 ++ "_encoded")
                     added).
    { eapply Forall_impl; [|exact Hall]. intros a (c0 & Hin & ->).
      exists c0. split; [right; exact Hin | reflexivity]. }
    rewrite Hcols, Hdf1. unfold columns. simpl cols. rewrite columns_replace_or_append.
    destruct (existsb _ _).
    + exists added. split; [reflexivity | exact Hsub].
    + exists ((col ++ "_encoded") :: added). split; [rewrite <- app_assoc; reflexivity|].
      constructor; [|exact Hsub]. exists col. split; [left; reflexivity | reflexivity].
Qed.

(** X25.  Preprocessing works on the caller's table.  When it returns, the
    raw table still has all its columns, in their order; what it has gained
    are columns named '<col>_encoded' for categorical columns <col>,
    appended at the end. *)
Theorem preprocessing_only_appends_encoded_columns :
  forall (B : backend) (raw raw' processed_data : DataFrame),
    run (preprocess_data B) raw = (inr processed_data, raw') ->
    exists added,
      columns raw' = (columns raw ++ added)%list /\
      Forall (fun a => exists c, In c (select_dtypes is_object raw) /\ a = c ++ "_encoded")
             added.
Proof.
  intros B raw raw' pd Hpre.
  destruct (reduced_columns B raw pd raw' Hpre) as (combined & Xc & H & _ & _).
  unfold combined_features, impute_missing in H.
  py_inv H num Hnum. py_inv H Xn HXn. py_inv H data1 Hs1.
  py_inv H cat Hcat. py_inv H Xo HXo. py_inv H data2 Hs2.
  py_inv H cat2 Hcat2. py_inv H objs Hobjs.
  py_simpl_in H.
  match type of H with
  | context [run (encode_high_cardinality ?l) ?s] =>
      destruct (run (encode_high_cardinality l) s) as [[e | []] data3] eqn:Henc;
        [discriminate H|]
  end.
  py_inv H num3 Hnum3. py_inv H Xs HXs. py_inv H enc Henc3.
  py_simpl_in H. injection H as _ <-.
  pose proof (setitems_columns _ _ _ _ (select_dtypes_columns is_numeric raw) Hs1) as C1.
  assert (C2 : columns data2 = columns raw).
  { rewrite <- C1. eapply setitems_columns; [|exact Hs2].
    intros k Hk. rewrite C1. eapply select_dtypes_columns; exact Hk. }
  destruct (encode_high_cardinality_columns _ _ _ Henc) as (added & Hcols & Hall).
  exists added. split; [rewrite Hcols, C2; reflexivity|].
  eapply Forall_impl; [|exact Hall]. intros a (c & Hin & ->).
  exists c. split; [|reflexivity].
  apply in_map_iff in Hin. destruct Hin as ([k v] & <- & Hkv).
  apply filter_In in Hkv. destruct Hkv as [Hkv _].
  eapply in_combine_l; exact Hkv.
Qed.

Lemma preprocessing_only_appends_encoded_columns_witness :
  exists added,
    columns (snd (run (preprocess_data sample_backend) survey11))
      = (columns survey11 ++ added)%list /\
    Forall (fun a => exists c, In c (select_dtypes is_object survey11) /\ a = c ++ "_encoded")
           added.
Proof.
  apply (preprocessing_only_appends_encoded_columns sample_backend survey11 _
           (value_or (mkFrame 0 []) (fst (run (preprocess_data sample_backend) survey11)))).
  vm_compute. reflexivity.
Defined.

(** ** Normalizer in float64 *)






Lemma round64_0 : round64 0 == 0.
Proof. apply (fl_zero _ round64_rounding). Qed.

Lemma round64_le x y : x <= y -> round64 x <= round64 y.
Proof. apply (fl_monotone _ round64_rounding). Qed.


Lemma round64_ge0 x : 0 <= x -> 0 <= round64 x.
Proof. intros H. rewrite <- round64_0. apply round64_le, H. Qed.













(** ** Engagement score in float64 *)






















(** ** Reducer in float64 *)

Lemma float_cumsum_from_length l : forall acc, length (Float.PCA.cumsum_from acc l) = length l.
Proof. induction l; intros; simpl; auto. Qed.

Lemma float_cumsum_from_nth l : forall acc k,
  (k < length l)%nat ->
  nth_error (Float.PCA.cumsum_from acc l) k
  = Some (fold_left (fun acc x => round64 (acc + x)) (firstn (S k) l) acc).
Proof.
  induction l as [|x l IH]; intros acc k Hk; simpl in Hk; [lia|].
  destruct k as [|k]; cbn [nth_error Float.PCA.cumsum_from].
  - destruct l; reflexivity.
  - rewrite IH by lia. reflexivity.
Qed.

Lemma float_cumsum_nth ratios k :
  (k < length ratios)%nat ->
  nth_error (Float.PCA.cumsum ratios) k = Some (float_cumulative_ratio ratios (S k)).
Proof. apply float_cumsum_from_nth. Qed.

(** A cumulative sum is a double. *)
Lemma float_sum_double (m : list Q) : forall a,
  round64 (fold_left (fun acc x => round64 (acc + x)) m (round64 a))
  == fold_left (fun acc x => round64 (acc + x)) m (round64 a).
Proof.
  induction m as [|y m IH]; intros a; simpl.
  - apply (fl_idem _ round64_rounding).
  - apply IH.
Qed.

Lemma float_cumulative_ratio_double ratios k :
  (1 <= k)%nat -> ratios <> [] ->
  round64 (float_cumulative_ratio ratios k) == float_cumulative_ratio ratios k.
Proof.
  intros Hk Hr. unfold float_cumulative_ratio.
  destruct k as [|k]; [lia|]. destruct ratios as [|x l]; [congruence|].
  cbn [firstn fold_left]. apply float_sum_double.
Qed.

Lemma firstn_succ {A} (d : A) (l : list A) : forall k,
  (k < length l)%nat -> firstn (S k) l = (firstn k l ++ [nth k l d])%list.
Proof.
  induction l as [|x l IH]; intros k Hk; simpl in Hk; [lia|].
  destruct k as [|k]; [reflexivity|].
  cbn [firstn nth app]. f_equal. apply IH. lia.
Qed.

Lemma float_cumulative_ratio_succ ratios k :
  (k < length ratios)%nat ->
  float_cumulative_ratio ratios (S k)
  = round64 (float_cumulative_ratio ratios k + nth k ratios 0).
Proof.
  intros Hk. unfold float_cumulative_ratio.
  rewrite (firstn_succ 0 ratios k Hk), fold_left_app. reflexivity.
Qed.

Lemma float_cumulative_ratio_step ratios k :
  (k < length ratios)%nat -> Forall (fun r => 0 <= r) ratios ->
  float_cumulative_ratio ratios k <= float_cumulative_ratio ratios (S k).
Proof.
  intros Hk Hr. rewrite (float_cumulative_ratio_succ ratios k Hk).
  assert (Hn : 0 <= nth k ratios 0).
  { rewrite Forall_forall in Hr. apply Hr, nth_In, Hk. }
  destruct k as [|k].
  - unfold float_cumulative_ratio at 1. simpl. apply round64_ge0.
    unfold float_cumulative_ratio. simpl. lra.
  - assert (Hne : ratios <> []) by (destruct ratios; [simpl in Hk; lia | discriminate]).
    rewrite <- (float_cumulative_ratio_double ratios (S k)) at 1 by (lia || exact Hne).
    apply round64_le. lra.
Qed.

(** No double lies between the double written 0.95 and the number 0.95. *)
Lemma target_below : round64 variance_target < variance_target.
Proof. reflexivity. Qed.

Lemma double_reaches_target c :
  round64 c == c -> (variance_target <= c <-> ~ c <= round64 variance_target).
Proof.
  intros Hc. pose proof target_below as T. split.
  - intros H C. lra.
  - intros H. destruct (Qlt_le_dec c variance_target) as [L | L]; [|exact L].
    exfalso. apply H. rewrite <- Hc. apply round64_le. lra.
Qed.

Lemma float_n_components_least :
  forall ratios : list Q,
    variance_target <= float_cumulative_ratio ratios (length ratios) ->
    let k := Float.PCA.n_components ratios variance_target in
    (1 <= k <= length ratios)%nat /\
    variance_target <= float_cumulative_ratio ratios k /\
    forall j, (1 <= j < k)%nat -> float_cumulative_ratio ratios j < variance_target.
Proof.
  intros ratios Htot k. unfold k, Float.PCA.n_components.
  set (cs := Float.PCA.cumsum ratios).
  set (p := PCA.searchsorted_right cs (round64 variance_target)).
  assert (Hlen : length cs = length ratios) by apply float_cumsum_from_length.
  assert (Hne : ratios <> []).
  { intros E. rewrite E in Htot. unfold float_cumulative_ratio in Htot. simpl in Htot.
    unfold variance_target, Qle in Htot. simpl in Htot. lia. }
  assert (Hp : (p < length ratios)%nat).
  { pose proof (searchsorted_right_le cs (round64 variance_target)) as Hle. fold p in Hle.
    destruct (Nat.eq_dec p (length ratios)) as [E|]; [|lia]. exfalso.
    assert (Hpos : (0 < length ratios)%nat) by (destruct ratios; [congruence | simpl; lia]).
    assert (Hl : (length ratios - 1 < length ratios)%nat) by lia.
    pose proof (float_cumsum_nth ratios _ Hl) as Hc. fold cs in Hc.
    replace (S (length ratios - 1)) with (length ratios) in Hc by lia.
    assert (float_cumulative_ratio ratios (length ratios) <= round64 variance_target).
    { apply (searchsorted_right_below cs _ (length ratios - 1)); [fold p; lia | exact Hc]. }
    pose proof target_below. lra. }
  split; [lia|].
  pose proof (float_cumsum_nth ratios p Hp) as Hc. fold cs in Hc.
  replace (p + 1)%nat with (S p) by lia.
  split.
  - apply double_reaches_target.
    + apply float_cumulative_ratio_double; [lia | exact Hne].
    + pose proof (searchsorted_right_above cs (round64 variance_target) _ Hc) as Hv.
      intros C. lra.
  - intros j Hj. destruct j as [|j]; [lia|].
    assert (Hj' : (j < length ratios)%nat) by lia.
    pose proof (float_cumsum_nth ratios j Hj') as Hd. fold cs in Hd.
    assert (float_cumulative_ratio ratios (S j) <= round64 variance_target).
    { apply (searchsorted_right_below cs _ j); [fold p; lia | exact Hd]. }
    pose proof target_below. lra.
Qed.

(** For a fractional number of components the solver is never the
    randomized one. *)
Lemma auto_solver_exact n p t :
  t < 1 -> Float.PCA.auto_solver n p t <> randomized.
Proof.
  intros Ht. unfold Float.PCA.auto_solver.
  destruct (_ && _)%bool; [discriminate|].
  destruct (_ <=? _)%nat; [discriminate|].
  destruct (Qle_bool 1 t) eqn:E; [|discriminate].
  apply Qle_bool_iff in E. lra.
Qed.

Lemma float_fit_transform_run B n X g :
  runState (Float.PCA.fit_transform B variance_target n X) g
  = (let d := lapack B (Float.PCA.auto_solver n (length X) variance_target) X in
     let k := Float.PCA.n_components (ratio_ d) variance_target in
     (k, map (firstn k) (scores_ d)), g).
Proof.
  unfold Float.PCA.fit_transform.
  pose proof (auto_solver_exact n (length X) variance_target eq_refl) as Hs.
  destruct (Float.PCA.auto_solver n (length X) variance_target); [reflexivity | reflexivity|].
  contradiction Hs. reflexivity.
Qed.

Lemma pc_names_length k : length (pc_names k) = k.
Proof. unfold pc_names. rewrite length_map, length_seq. reflexivity. Qed.

(** C6.  The reducer as [preprocess_data] runs it, in float64.  Let the
    solver deliver non-negative explained variance ratios whose cumulative
    sum (as [np.cumsum] computes it) reaches 0.95, with one score per axis
    for every sample.  Then the run returns a table with the columns
    PC1..PCk, where k is the least number of leading components whose
    cumulative ratio is at least 0.95; row i of the table holds the first k
    scores of sample i.  The cumulative ratios ascend.  The run neither
    consults nor advances the generator: from every state it returns the
    same table and leaves the state as it was. *)
Theorem pca_retains_least_k_reaching_target :
  forall (B : backend) (raw : DataFrame) combined data' (X : list (list cell)),
    run Float.combined_features raw = (inr combined, data') ->
    Float.check_array false (index_len data') (map snd combined) = inr X ->
    let d := lapack B (Float.PCA.auto_solver (index_len data') (length X) variance_target)
                    (map dropna X) in
    Forall (fun r => 0 <= r) (ratio_ d) ->
    variance_target <= float_cumulative_ratio (ratio_ d) (length (ratio_ d)) ->
    Forall (fun row => length row = length (ratio_ d)) (scores_ d) ->
    exists (k : nat) (reduced : DataFrame) (V : list (list cell)),
      (forall g : Z, run (Float.preprocess_data B g) raw = (inr (reduced, g), data')) /\
      columns reduced = pc_names k /\
      (1 <= k <= length (ratio_ d))%nat /\
      variance_target <= float_cumulative_ratio (ratio_ d) k /\
      (forall j, (1 <= j < k)%nat -> float_cumulative_ratio (ratio_ d) j < variance_target) /\
      (forall j, (j < length (ratio_ d))%nat ->
         float_cumulative_ratio (ratio_ d) j <= float_cumulative_ratio (ratio_ d) (S j)) /\
      index_len reduced = length (scores_ d) /\
      to_floats (map snd (cols reduced)) = inr V /\
      forall i, (i < length (scores_ d))%nat ->
        row_at None V i = map Some (firstn k (nth i (scores_ d) [])).
Proof.
  intros B raw combined data' X Hc HX d Hpos Htot Hshape.
  destruct (float_n_components_least (ratio_ d) Htot) as (Hk & Hreach & Hleast).
  set (k := Float.PCA.n_components (ratio_ d) variance_target) in *.
  assert (Hrows : forallb (fun r => Nat.eqb (length r) (length (pc_names k)))
                    (map (firstn k) (scores_ d)) = true).
  { apply forallb_forall. intros r Hr. apply in_map_iff in Hr. destruct Hr as (row & <- & Hin).
    rewrite Forall_forall in Hshape. rewrite pc_names_length, length_firstn, (Hshape row Hin).
    apply Nat.eqb_eq. lia. }
  destruct (frame_of_rows (map (firstn k) (scores_ d)) (pc_names k)) as [e | reduced] eqn:Hf.
  { unfold frame_of_rows in Hf. rewrite Hrows in Hf. discriminate. }
  destruct (frame_of_rows_spec _ _ _ Hf) as (I & _ & Hn & Hv & Hrow).
  rewrite length_map in I, Hrow. rewrite pc_names_length in Hv, Hrow.
  exists k, reduced. eexists.
  split.
  { intros g. unfold Float.preprocess_data. py_simpl. rewrite Hc. py_simpl.
    rewrite HX. py_simpl. rewrite float_fit_transform_run. cbv zeta.
    rewrite length_map. fold d. fold k. cbn [fst snd]. rewrite Hf. py_simpl. reflexivity. }
  split; [exact Hn|]. split; [exact Hk|]. split; [exact Hreach|]. split; [exact Hleast|].
  split. { intros j Hj. apply float_cumulative_ratio_step; assumption. }
  split; [exact I|]. split; [exact Hv|].
  intros i Hi. rewrite (Hrow i Hi). f_equal.
  apply (nth_map_in (firstn k) (scores_ d) [] [] i Hi).
Qed.

Lemma pca_retains_least_k_reaching_target_witness :
  exists (k : nat) (reduced : DataFrame),
    (forall g : Z,
       fst (run (Float.preprocess_data sample_backend g) survey5) = inr (reduced, g)) /\
    columns reduced = pc_names k /\
    index_len reduced = 5%nat.
Proof.
  destruct (pca_retains_least_k_reaching_target sample_backend survey5
              (value_or [] (fst (run Float.combined_features survey5)))
              (snd (run Float.combined_features survey5))
              (value_or [] (Float.check_array false 5
                 (map snd (value_or [] (fst (run Float.combined_features survey5)))))))
    as (k & reduced & V & Hrun & Hcols & _ & _ & _ & _ & Hlen & _).
  - vm_compute. reflexivity.
  - vm_compute. reflexivity.
  - vm_compute. repeat constructor; discriminate.
  - vm_compute. discriminate.
  - vm_compute. repeat constructor.
  - exists k, reduced. split; [|split; [exact Hcols | exact Hlen]].
    intros g. rewrite (Hrun g). reflexivity.
Defined.

(** ** Row count and row order: column by column *)

Lemma string_length_append (a b : string) :
  String.length (a ++ b) = (String.length a + String.length b)%nat.
Proof. induction a as [|c a IH]; simpl; [reflexivity | rewrite IH; reflexivity]. Qed.

Lemma append_inj_l (a b s : string) : a ++ s = b ++ s -> a = b.
Proof.
  revert b. induction a as [|c a IH]; intros [|d b] H; simpl in H.
  - reflexivity.
  - apply (f_equal String.length) in H. simpl in H. rewrite string_length_append in H. lia.
  - apply (f_equal String.length) in H. simpl in H. rewrite string_length_append in H. lia.
  - injection H as -> H. f_equal. apply IH, H.
Qed.

Lemma lookup_columns k l : In k (map fst l) -> exists c, lookup k l = Some c.
Proof.
  induction l as [|[k0 c0] l IH]; simpl; [tauto|]. intros H.
  destruct (String.eqb_spec k0 k) as [->|Hne]; [eexists; reflexivity|].
  destruct H as [H | H]; [contradiction|]. apply IH, H.
Qed.

Lemma lookup_in_columns k c l : lookup k l = Some c -> In k (map fst l).
Proof. intros H. apply lookup_In in H. apply (in_map fst _ _ H). Qed.

(** The loop over the high-cardinality columns, on a table in which no
    column is named like an encoded one. *)
Lemma encode_high_cardinality_spec names : forall df df',
  NoDup names ->
  (forall k, In k names -> In k (columns df)) ->
  (forall k k', In k names -> In k' (columns df) -> k' <> k ++ "_encoded") ->
  run (encode_high_cardinality names) df = (inr tt, df') ->
  (forall k', In k' (columns df) -> lookup k' (cols df') = lookup k' (cols df)) /\
  (forall k, In k names ->
     exists c codes,
       lookup k (cols df) = Some c /\ label_encode c = inr codes /\
       lookup (k ++ "_encoded") (cols df') = Some (NumCol codes)).
Proof.
  induction names as [|col names IH]; intros df df' Hnd Hsub Hclash H.
  - cbn [encode_high_cardinality] in H. rewrite run_ret in H. injection H as <-.
    split; [reflexivity | intros k []].
  - rewrite encode_high_cardinality_cons in H.
    py_inv H c Hc. py_inv H codes Hcodes. py_inv H df1 Hset. py_simpl_in H.
    inversion Hnd as [|? ? Hni Hnd']; subst.
    destruct (setitem_inv _ _ _ _ Hset) as [_ Hdf1].
    assert (Hfresh : ~ In (col ++ "_encoded") (columns df)).
    { intros Hin. apply (Hclash col (col ++ "_encoded")); [left; reflexivity | exact Hin |].
      reflexivity. }
    assert (Hcols1 : columns df1 = (columns df ++ [(col ++ "_encoded")%string])%list).
    { rewrite Hdf1. unfold columns. simpl cols.
      rewrite (replace_or_append_fresh _ _ _ (lookup_absent _ _ Hfresh)), map_app.
      reflexivity. }
    assert (Hother : forall k, k <> col ++ "_encoded" ->
              lookup k (cols df1) = lookup k (cols df)).
    { intros k Hk. rewrite Hdf1. simpl cols. apply lookup_replace_or_append_other.
      exact Hk. }
    destruct (IH df1 df' Hnd') as [Hkeep Hcode]; [| | exact H |].
    { intros k Hk. rewrite Hcols1. apply in_or_app. left. apply Hsub. right. exact Hk. }
    { intros k k' Hk Hk'. rewrite Hcols1 in Hk'. apply in_app_or in Hk'.
      destruct Hk' as [Hk' | [<- | []]].
      - apply Hclash; [right; exact Hk | exact Hk'].
      - intros E. apply append_inj_l in E. subst k. contradiction. }
    split.
    + intros k' Hk'. rewrite Hkeep by (rewrite Hcols1; apply in_or_app; left; exact Hk').
      apply Hother. intros ->. contradiction.
    + intros k [<- | Hk].
      * exists c, codes. split; [apply getitem_lookup, Hc|]. split; [exact Hcodes|].
        rewrite Hkeep by (rewrite Hcols1; apply in_or_app; right; left; reflexivity).
        rewrite Hdf1. simpl cols. apply lookup_replace_or_append_same.
      * destruct (Hcode k Hk) as (c' & codes' & Hl & He & Hw).
        exists c', codes'. split; [|split; [exact He | exact Hw]].
        rewrite <- Hl. symmetry. apply Hother.
        intros E. apply (Hclash col k); [left; reflexivity | apply Hsub; right; exact Hk|].
        exact E.
Qed.

Lemma Forall_combine_nth {A B} (P : A * B -> Prop) (l : list A) : forall l' : list B,
  (forall j a b, nth_error l j = Some a -> nth_error l' j = Some b -> P (a, b)) ->
  Forall P (combine l l').
Proof.
  induction l as [|x l IH]; intros [|y l'] H; simpl; try constructor.
  - apply (H 0%nat); reflexivity.
  - apply IH. intros j a b Ha Hb. apply (H (S j)); assumption.
Qed.

Lemma In_combine_nth {A B} (l : list A) : forall (l' : list B) a b,
  In (a, b) (combine l l') ->
  exists j, nth_error l j = Some a /\ nth_error l' j = Some b.
Proof.
  induction l as [|x l IH]; intros [|y l'] a b H; simpl in H; try contradiction.
  destruct H as [H | H].
  - injection H as -> ->. exists 0%nat. split; reflexivity.
  - destruct (IH l' a b H) as (j & Ha & Hb). exists (S j). split; assumption.
Qed.

Lemma objects_of_nth_inv cs : forall X,
  objects_of cs = inr X ->
  forall j col, nth_error X j = Some col -> nth_error cs j = Some (CatCol col).
Proof.
  induction cs as [|c cs IH]; intros X H j col Hj; simpl in H.
  - injection H as <-. destruct j; discriminate.
  - destruct (object_values c) as [|v] eqn:Ev; [discriminate|].
    destruct (objects_of cs) as [|vs] eqn:Evs; [discriminate|].
    injection H as <-. destruct j as [|j]; simpl in Hj |- *.
    + injection Hj as <-. destruct c; simpl in Ev; try discriminate. congruence.
    + apply (IH vs eq_refl j col Hj).
Qed.

Lemma NoDup_filter_combine {A} (P : string * A -> bool) (l : list string) :
  forall l' : list A,
  NoDup l -> NoDup (map fst (filter P (combine l l'))).
Proof.
  induction l as [|x l IH]; intros [|y l'] H; simpl; try constructor.
  inversion H as [|? ? Hni Hnd]; subst.
  assert (Hsub : forall k, In k (map fst (filter P (combine l l'))) -> In k l).
  { intros k Hk. apply in_map_iff in Hk. destruct Hk as ((k0 & a) & <- & Hin).
    apply filter_In in Hin. apply (in_combine_l _ _ _ _ (proj1 Hin)). }
  destruct (P (x, y)); simpl.
  - constructor; [|apply IH, Hnd]. intros C. apply Hni, Hsub, C.
  - apply IH, Hnd.
Qed.

Lemma In_filter_combine_l {A} (P : string * A -> bool) (l : list string) (l' : list A) k :
  In k (map fst (filter P (combine l l'))) -> In k l.
Proof.
  intros Hk. apply in_map_iff in Hk. destruct Hk as ((k0 & a) & <- & Hin).
  apply filter_In in Hin. apply (in_combine_l _ _ _ _ (proj1 Hin)).
Qed.

Lemma select_dtypes_lookup p df k :
  NoDup (columns df) -> In k (select_dtypes p df) ->
  exists c, lookup k (cols df) = Some c /\ p c = true.
Proof.
  intros Hnd Hin. unfold select_dtypes in Hin. apply in_map_iff in Hin.
  destruct Hin as ((k0 & c) & <- & Hin). apply filter_In in Hin. destruct Hin as [Hin Hp].
  exists c. split; [|exact Hp]. simpl.
  destruct (lookup_columns k0 (cols df)) as [c' Hc'].
  { apply (in_map fst _ _ Hin). }
  rewrite Hc'. f_equal. apply (keys_unique (cols df) k0); [exact Hnd | | exact Hin].
  apply lookup_In, Hc'.
Qed.

Lemma impute_missing_keeps_columns nums cats data data' :
  (forall k, In k nums -> In k (columns data)) ->
  (forall k, In k cats -> In k (columns data)) ->
  run (impute_missing nums cats) data = (inr tt, data') ->
  columns data' = columns data.
Proof.
  intros Hn Hc H. unfold impute_missing in H.
  py_inv H num Hnum. py_inv H Xn HXn. py_inv H data1 Hs1.
  py_inv H cat Hcat. py_inv H Xc HXc. py_inv H data2 Hs2.
  py_simpl_in H. injection H as <-.
  pose proof (setitems_columns _ _ _ _ Hn Hs1) as C1.
  rewrite <- C1. eapply setitems_columns; [|exact Hs2].
  intros k Hk. rewrite C1. apply Hc, Hk.
Qed.

(** The three blocks of the combined feature table, column by column. *)
Lemma combined_features_columns raw combined raw' :
  NoDup (columns raw) ->
  (forall k k', In k (columns raw) -> In k' (columns raw) -> k' <> k ++ "_encoded") ->
  run combined_features raw = (inr combined, raw') ->
  (forall k col, lookup k (cols raw) = Some (NumCol col) ->
     exists m, median (dropna col) = Some m /\
               lookup k (cols raw') = Some (NumCol (fill m col))) /\
  (forall k col, lookup k (cols raw) = Some (CatCol col) ->
     exists c, most_frequent (dropna col) = Some c /\
               lookup k (cols raw') = Some (CatCol (fill c col))) /\
  Forall (from_column raw') combined.
Proof.
  intros Hnd Hclash H. unfold combined_features in H. py_simpl_in H.
  set (nums := select_dtypes is_numeric raw) in *.
  set (cats := select_dtypes is_object raw) in *.
  destruct (run (impute_missing nums cats) raw) as [[e | []] data2] eqn:Himp;
    [discriminate H|].
  py_inv H cat2 Hcat2. py_inv H objs Hobjs. py_simpl_in H.
  match type of H with
  | context [run (encode_high_cardinality ?l) ?s] =>
      set (high := l) in *;
      destruct (run (encode_high_cardinality high) s) as [[e | []] data3] eqn:Henc;
        [discriminate H|]
  end.
  py_inv H num3 Hnum3. py_inv H Xs HXs. py_inv H enc Henc3.
  py_simpl_in H. injection H as <- <-.
  destruct (impute_missing_columns raw data2 Hnd Himp) as [InN InC].
  assert (Hcols2 : columns data2 = columns raw).
  { apply (impute_missing_keeps_columns nums cats); [| | exact Himp];
      intros k Hk; eapply select_dtypes_columns; exact Hk. }
  assert (Hhigh : forall k, In k high -> In k cats).
  { intros k Hk. apply (In_filter_combine_l _ _ _ _ Hk). }
  destruct (encode_high_cardinality_spec high data2 data3) as [Hkeep Hcode];
    [| | | exact Henc |].
  { apply NoDup_filter_combine. apply select_dtypes_NoDup, Hnd. }
  { intros k Hk. rewrite Hcols2. eapply select_dtypes_columns, Hhigh, Hk. }
  { intros k k' Hk Hk'. rewrite Hcols2 in Hk'. apply Hclash; [|exact Hk'].
    eapply select_dtypes_columns, Hhigh, Hk. }
  assert (Hkeep' : forall k c, lookup k (cols data2) = Some c -> lookup k (cols data3) = Some c).
  { intros k c Hl. rewrite Hkeep; [exact Hl|]. apply (lookup_in_columns _ _ _ Hl). }
  split; [|split].
  - intros k col Hk. destruct (InN k col Hk) as (m & Hm & Hl).
    exists m. split; [exact Hm | apply Hkeep', Hl].
  - intros k col Hk. destruct (InC k col Hk) as (c & Hc & Hl).
    exists c. split; [exact Hc | apply Hkeep', Hl].
  - apply Forall_app. split; [|apply Forall_app; split].
    + apply Forall_combine_nth. intros j k c Hj Hc.
      rewrite nth_error_map in Hc.
      destruct (nth_error (MinMaxScaler.fit_transform Xs) j) as [out|] eqn:Ho;
        [|discriminate Hc].
      simpl in Hc. injection Hc as <-.
      destruct (select_dtypes_lookup is_numeric raw k Hnd) as (c0 & Hc0 & Hp).
      { eapply nth_error_In; exact Hj. }
      destruct c0 as [col | |]; try discriminate Hp.
      destruct (InN k col Hc0) as (m & _ & Hl). apply Hkeep' in Hl.
      destruct (getitems_nth _ _ _ Hnum3 j k Hj) as (c1 & Hc1 & Hl1).
      rewrite Hl in Hl1. injection Hl1 as <-.
      pose proof (to_floats_nth _ _ (check_array_inv _ _ _ _ HXs) j _ Hc1) as HX.
      rewrite fit_transform_map, nth_error_map, HX in Ho. simpl in Ho. injection Ho as <-.
      apply normalized_column. exact Hl.
    + unfold get_dummies. apply Forall_flat_map. apply Forall_forall.
      intros [k col] Hin. destruct (In_combine_nth _ _ _ _ Hin) as (j & Hj & Ho).
      destruct (getitems_nth _ _ _ Hcat2 j k Hj) as (c1 & Hc1 & Hl1).
      rewrite (objects_of_nth_inv _ _ Hobjs j col Ho) in Hc1. injection Hc1 as <-.
      unfold dummies_of. simpl. apply Forall_map, Forall_forall. intros level _.
      apply indicator_column. apply Hkeep', Hl1.
    + apply Forall_combine_nth. intros j name c Hj Hc.
      rewrite nth_error_map in Hj.
      destruct (nth_error high j) as [k|] eqn:Hk; [|discriminate Hj].
      simpl in Hj. injection Hj as <-.
      assert (Hin : In k high) by (eapply nth_error_In; exact Hk).
      destruct (Hcode k Hin) as (c0 & codes & Hl & He & Hw).
      destruct (getitems_nth _ _ _ Henc3 j (k ++ "_encoded")) as (c1 & Hc1 & Hl1).
      { rewrite nth_error_map, Hk. reflexivity. }
      rewrite Hc in Hc1. injection Hc1 as <-. rewrite Hw in Hl1. injection Hl1 as <-.
      destruct (select_dtypes_lookup is_object raw k Hnd (Hhigh k Hin)) as (c2 & Hc2 & Hp).
      destruct c2 as [| col |]; try discriminate Hp.
      destruct (InC k col Hc2) as (v & _ & Hl2).
      rewrite Hl2 in Hl. injection Hl as <-.
      simpl in He. unfold LabelEncoder.fit_transform in He. injection He as <-.
      apply code_column. apply Hkeep', Hl2.
Qed.

(** The cluster ids that a call of the clusterer leaves in the table,
    whether it goes on to raise or not. *)
Lemma cluster_ids_by_row B pd X :
  wf_frame pd -> (2 <= index_len pd)%nat ->
  to_floats (map snd (cols pd)) = inr X -> has_nan X = false ->
  lookup "financial_engagement_score" (cols pd) <> None ->
  (forall text, lookup "financial_engagement_score" (cols pd) <> Some (CatCol text)) ->
  exists clusters : list cell,
    index_len (snd (run (cluster_financial_exclusion B) pd)) = index_len pd /\
    lookup "exclusion_cluster" (cols (snd (run (cluster_financial_exclusion B) pd)))
      = Some (NumCol clusters) /\
    length clusters = index_len pd /\
    forall i, (i < index_len pd)%nat ->
      nth i clusters None =
      Some (of_nat (KMeans.nearest
                      (lloyd B (rows_of 0 (index_len pd) (map dropna X)))
                      (row_at 0 (map dropna X) i))).
Proof.
  intros Hwf Hn HX Hnan Heng Hobj.
  destruct (cluster_run_labels B pd X Hwf Hn HX Hnan Heng Hobj) as [Hraise Hret].
  cbv zeta in Hraise, Hret.
  set (rows := rows_of 0 (index_len pd) (map dropna X)) in *.
  set (clusters := map (fun l => Some (of_nat l)) (map (KMeans.nearest (lloyd B rows)) rows)) in *.
  exists clusters.
  assert (Hlen : length clusters = index_len pd).
  { unfold clusters, rows. rewrite !length_map. apply rows_of_length. }
  assert (Hrow : forall i, (i < index_len pd)%nat ->
            nth i clusters None
            = Some (of_nat (KMeans.nearest (lloyd B rows) (row_at 0 (map dropna X) i)))).
  { intros i Hi. unfold clusters. rewrite map_map. unfold rows at 2. unfold rows_of.
    rewrite map_map.
    rewrite (nth_map_in _ (seq 0 (index_len pd)) 0%nat None i)
      by (rewrite length_seq; exact Hi).
    rewrite seq_nth by exact Hi. reflexivity. }
  destruct (lookup "exclusion_cluster" (cols pd)) as [old|] eqn:Hold.
  - destruct Hret as [c Hc]; [discriminate|]. rewrite Hc. simpl snd. simpl index_len.
    split; [reflexivity|]. split; [|split; [exact Hlen | exact Hrow]].
    simpl cols. rewrite lookup_replace_or_append_other by discriminate.
    apply lookup_replace_or_append_same.
  - rewrite (Hraise eq_refl). simpl snd. simpl index_len.
    split; [reflexivity|]. split; [|split; [exact Hlen | exact Hrow]].
    simpl cols. apply lookup_replace_or_append_same.
Qed.

(** C7.  Take a raw table whose columns all have as many entries as its
    index and carry distinct names, none of them the name of another column
    followed by "_encoded".  Every stage keeps the number of rows and the
    position of each respondent.
    - Imputation, encoding and normalization: the table is left with its
      row count; entry i of an imputed column is entry i of the raw column,
      or the fill value where that was missing; every column of the
      combined feature table has one entry per row and is computed entry by
      entry from one column of the imputed table (a numeric column
      rescaled, the indicator of one level, the integer codes).
    - Reduction: row i of the reduced table is the projection of row i of
      the combined feature table.
    - The score calculators keep the row count of the processed table,
      leave its other columns as they are, and fill entry i of the column
      they write from row i of their input.
    - Clustering: whether the call goes on to raise or not, it leaves the
      table with its row count and an 'exclusion_cluster' column whose entry
      i is the centre closest to row i; when it returns, entry i of the
      label is the test of that entry. *)
Theorem rows_stay_aligned :
  forall (B : backend) (raw : DataFrame),
    wf_frame raw -> NoDup (columns raw) ->
    (forall k k', In k (columns raw) -> In k' (columns raw) -> k' <> k ++ "_encoded") ->
    (forall combined raw',
       run combined_features raw = (inr combined, raw') ->
       index_len raw' = index_len raw /\ wf_frame raw' /\
       Forall (fun kc => col_length (snd kc) = index_len raw) combined /\
       (forall k col, lookup k (cols raw) = Some (NumCol col) ->
          exists m, median (dropna col) = Some m /\
                    lookup k (cols raw') = Some (NumCol (fill m col))) /\
       (forall k col, lookup k (cols raw) = Some (CatCol col) ->
          exists c, most_frequent (dropna col) = Some c /\
                    lookup k (cols raw') = Some (CatCol (fill c col))) /\
       Forall (from_column raw') combined) /\
    (forall pd raw',
       run (preprocess_data B) raw = (inr pd, raw') ->
       index_len raw' = index_len raw /\ wf_frame raw' /\
       index_len pd = index_len raw /\ wf_frame pd /\
       exists combined Xc V,
         run combined_features raw = (inr combined, raw') /\
         check_array false (index_len raw) (map snd combined) = inr Xc /\
         to_floats (map snd (cols pd)) = inr V /\
         forall i, (i < index_len raw)%nat ->
           row_at None V i =
           map Some (PCA.project
                       (PCA.mean_ (PCA.fit (svd B) variance_target (map dropna Xc)))
                       (PCA.axes_ (PCA.fit (svd B) variance_target (map dropna Xc)))
                       (row_at 0 (map dropna Xc) i))) /\
    (forall data pd pd',
       wf_frame pd ->
       run (calculate_financial_engagement_score data) pd = (inr tt, pd') ->
       index_len pd' = index_len pd /\ wf_frame pd' /\
       (forall k, k <> "financial_engagement_score" ->
                  lookup k (cols pd') = lookup k (cols pd)) /\
       exists ct Xt cs Xs score,
         getitems data (filter (name_matches "transaction") (columns data)) = inr ct /\
         to_floats ct = inr Xt /\
         getitems data (filter (name_matches "savings") (columns data)) = inr cs /\
         to_floats cs = inr Xs /\
         lookup "financial_engagement_score" (cols pd') = Some (NumCol score) /\
         length score = index_len data /\
         forall i, (i < index_len data)%nat ->
           nth i score None =
           fadd (fmul (Some transaction_weight)
                   (fmean (map (fun col => option_map (scale_value col) (nth i col None)) Xt)))
                (fmul (Some savings_weight)
                   (fmean (map (fun col => option_map (scale_value col) (nth i col None)) Xs)))) /\
    (forall data pd pd',
       wf_frame data -> wf_frame pd ->
       run (calculate_financial_literacy_score data) pd = (inr tt, pd') ->
       index_len pd' = index_len pd /\ wf_frame pd' /\
       (forall k, k <> "financial_literacy_score" ->
                  lookup k (cols pd') = lookup k (cols pd)) /\
       exists edu quintile qv score,
         lookup "education" (cols data) = Some edu /\
         lookup "quintile" (cols data) = Some quintile /\
         to_float quintile = inr qv /\
         lookup "financial_literacy_score" (cols pd') = Some (NumCol score) /\
         length score = index_len data /\
         forall i, (i < index_len data)%nat ->
           nth i score None =
           fadd (fmul (Some education_weight)
                   (option_map (scale_value (series_map edu)) (nth i (series_map edu) None)))
                (fmul (Some income_weight)
                   (option_map (scale_value qv) (nth i qv None)))) /\
    (forall pd X,
       wf_frame pd -> (2 <= index_len pd)%nat ->
       to_floats (map snd (cols pd)) = inr X -> has_nan X = false ->
       lookup "financial_engagement_score" (cols pd) <> None ->
       (forall text, lookup "financial_engagement_score" (cols pd) <> Some (CatCol text)) ->
       exists clusters : list cell,
         index_len (snd (run (cluster_financial_exclusion B) pd)) = index_len pd /\
         lookup "exclusion_cluster" (cols (snd (run (cluster_financial_exclusion B) pd)))
           = Some (NumCol clusters) /\
         length clusters = index_len pd /\
         forall i, (i < index_len pd)%nat ->
           nth i clusters None =
           Some (of_nat (KMeans.nearest
                           (lloyd B (rows_of 0 (index_len pd) (map dropna X)))
                           (row_at 0 (map dropna X) i)))) /\
    (forall pd pd',
       wf_frame pd ->
       run (cluster_financial_exclusion B) pd = (inr tt, pd') ->
       index_len pd' = index_len pd /\ wf_frame pd' /\
       (forall k, k <> "exclusion_cluster" -> k <> "financial_exclusion_label" ->
                  lookup k (cols pd') = lookup k (cols pd)) /\
       exists clusters c,
         lookup "exclusion_cluster" (cols pd') = Some (NumCol clusters) /\
         lookup "financial_exclusion_label" (cols pd')
           = Some (BoolCol (cluster_equals c clusters))).
Proof.
  intros B raw Hwf Hnd Hclash.
  split; [|split; [|split; [|split; [|split]]]].
  - intros combined raw' H.
    destruct (combined_features_wf _ _ _ Hwf H) as [W L].
    destruct (combined_features_columns raw combined raw' Hnd Hclash H) as (In & Ic & Hf).
    split; [exact L|]. split; [exact W|].
    split; [exact (combined_features_lengths _ _ _ Hwf H)|].
    split; [exact In|]. split; [exact Ic | exact Hf].
  - intros pd raw' H.
    destruct (preprocess_rows B raw pd raw' Hwf H)
      as (I1 & W1 & I2 & W2 & combined & Xc & V & Hc & _ & HXc & HV & Hrow).
    split; [exact I1|]. split; [exact W1|]. split; [exact I2|]. split; [exact W2|].
    exists combined, Xc, V. auto.
  - intros data pd pd'. apply engagement_rows.
  - intros data pd pd'. apply literacy_rows.
  - intros pd X. apply cluster_ids_by_row.
  - intros pd pd' W H.
    destruct (cluster_rows B pd pd' W H) as (I & W' & Lo & X & clusters & c & _ & L1 & L2 & _).
    split; [exact I|]. split; [exact W'|]. split; [exact Lo|].
    exists clusters, c. auto.
Qed.

Lemma rows_stay_aligned_witness :
  index_len (snd (run combined_features survey5)) = 5%nat /\
  Forall (from_column (snd (run combined_features survey5)))
         (value_or [] (fst (run combined_features survey5))) /\
  index_len reduced5 = 5%nat /\
  exists clusters : list cell,
    lookup "exclusion_cluster" (cols (snd (run (cluster_financial_exclusion sample_backend) scored3)))
      = Some (NumCol clusters) /\
    length clusters = 3%nat.
Proof.
  assert (Hwf : wf_frame survey5) by (repeat constructor).
  assert (Hnd : NoDup (columns survey5)).
  { repeat constructor; simpl; intuition discriminate. }
  assert (Hclash : forall k k', In k (columns survey5) -> In k' (columns survey5) ->
                                k' <> k ++ "_encoded").
  { simpl. intros k k' [<- | [<- | []]] [<- | [<- | []]]; discriminate. }
  destruct (rows_stay_aligned sample_backend survey5 Hwf Hnd Hclash)
    as (Hc & Hp & _ & _ & Hk & _).
  destruct (Hc (value_or [] (fst (run combined_features survey5)))
               (snd (run combined_features survey5)))
    as (I1 & _ & _ & _ & _ & Hf); [vm_compute; reflexivity|].
  destruct (Hp reduced5 (snd (run (preprocess_data sample_backend) survey5)))
    as (_ & _ & I2 & _); [vm_compute; reflexivity|].
  destruct (Hk scored3 [[Some (-1 # 2); Some 0; Some (1 # 2)];
                        [Some 0; Some (11 # 20); Some (4 # 5)];
                        [Some 0; Some (1 # 2); Some 1]])
    as (clusters & _ & Hl & Hn & _).
  - vm_compute. repeat constructor.
  - vm_compute. lia.
  - reflexivity.
  - reflexivity.
  - vm_compute. discriminate.
  - intros text. vm_compute. discriminate.
  - split; [exact I1|]. split; [exact Hf|]. split; [exact I2|].
    exists clusters. split; [exact Hl | exact Hn].
Defined.

(** ** Model bench: the features determine the label *)










(** ** Model bench: the inherited generator *)







